(** * Edit history, hotspot mapping and crop rasterisation of the image editor

    A shallow embedding of the [App] component (state cells, event handlers
    and the helper [dataURLtoFile]) and of the handlers of the quick edit and
    analysis panels, together with the properties of the history stack, the
    coordinate mapping, the crop rasteriser, the conversation log and the
    panels.

    Conventions of the embedding:
    - every [useState] cell is a field of [AppState]; a handler is a
      computation in the monad [Exec], which threads the live state and may
      throw;
    - a handler reads the values captured by its closure (the state of the
      render that created it) and writes through the setters to the live
      state; [dispatch] runs a handler whose closure is the live state;
    - JS numbers that hold coordinates are IEEE 754 binary64 values
      ([spec_float] with 53 bits of precision); the history cursor, which only
      ever holds integers, is a [Z];
    - JS strings are sequences of 8-bit code units;
    - the outcome of an awaited collaborator call is an argument of the
      handler ([Settled]). *)

From Stdlib Require Import ZArith QArith Qabs Qround Qpower List String Ascii Bool Lia Lqa.
From Stdlib Require Import Floats.SpecFloat.
From Stdlib Require Import DecimalString.
Import ListNotations.

Local Open Scope Z_scope.

(** ** JS numbers *)

Module Num.

Definition prec : Z := 53.
Definition emax : Z := 1024.

Definition number : Type := spec_float.

Definition sub : number -> number -> number := SFsub prec emax.
Definition mul : number -> number -> number := SFmul prec emax.
Definition div : number -> number -> number := SFdiv prec emax.
Definition ltb : number -> number -> bool := SFltb.
Definition leb : number -> number -> bool := SFleb.
Definition abs : number -> number := SFabs.

(** The number denoted by an integer literal. *)
Definition of_Z (n : Z) : number := binary_normalize prec emax n 0 false.

Definition zero : number := S754_zero false.
Definition one : number := of_Z 1.

Definition is_finite (x : number) : bool :=
  match x with
  | S754_zero _ | S754_finite _ _ _ => true
  | S754_infinity _ | S754_nan => false
  end.

(** ToBoolean on a number: [+0], [-0] and [NaN] are falsy. *)
Definition truthy (x : number) : bool :=
  match x with
  | S754_zero _ | S754_nan => false
  | S754_infinity _ | S754_finite _ _ _ => true
  end.

(** [a || b] on numbers. *)
Definition or_else (a b : number) : number := if truthy a then a else b.

Definition signed (s : bool) (m : positive) : Z := cond_Zopp s (Zpos m).

(** [Math.round]: the integral number closest to [x], ties towards
    [+Infinity]; an integral [x], an infinity and [NaN] are returned as they
    are, and a result of zero keeps the sign of [x]. *)
Definition round (x : number) : number :=
  match x with
  | S754_finite s m e =>
      if 0 <=? e then x
      else
        let k := - e in
        match (2 * signed s m + 2 ^ k) / 2 ^ (k + 1) with
        | Z0 => S754_zero s
        | n => of_Z n
        end
  | _ => x
  end.

(** The rational value of a finite number ([0] for the others). *)
Definition to_Q (x : number) : Q :=
  match x with
  | S754_finite s m e =>
      if 0 <=? e then inject_Z (signed s m * 2 ^ e)
      else Qmake (signed s m) (Z.to_pos (2 ^ (- e)))
  | _ => 0%Q
  end.

End Num.

(** ** JS strings *)

Local Open Scope string_scope.

Definition code (c : ascii) : N := N_of_ascii c.

(** WhiteSpace and LineTerminator code units below 256, as stripped by
    [String.prototype.trim]. *)
Definition is_js_space (c : ascii) : bool :=
  let n := code c in
  ((9 <=? n) && (n <=? 13) || (n =? 32) || (n =? 160))%N.

Fixpoint trimStart (s : list ascii) : list ascii :=
  match s with
  | c :: r => if is_js_space c then trimStart r else s
  | [] => []
  end.

Definition trim (s : string) : string :=
  string_of_list_ascii
    (rev (trimStart (rev (trimStart (list_ascii_of_string s))))).

(** ToBoolean on a string. *)
Definition nonempty (s : string) : bool :=
  match s with EmptyString => false | String _ _ => true end.

(** [s.split(sep)] for a one-character separator. *)
Fixpoint split_from (sep : ascii) (acc : list ascii) (s : list ascii)
  : list string :=
  match s with
  | [] => [string_of_list_ascii (rev acc)]
  | c :: r =>
      if Ascii.eqb c sep
      then string_of_list_ascii (rev acc) :: split_from sep [] r
      else split_from sep (c :: acc) r
  end.

Definition split (sep : ascii) (s : string) : list string :=
  split_from sep [] (list_ascii_of_string s).

Definition is_line_terminator (c : ascii) : bool :=
  ((code c =? 10) || (code c =? 13))%N.

(** The pattern [(.*?);] anchored at the head of [s]: the shortest run of
    characters other than line terminators that is followed by a semicolon. *)
Fixpoint lazy_upto_semicolon (s : string) : option string :=
  match s with
  | EmptyString => None
  | String c r =>
      if Ascii.eqb c ";" then Some EmptyString
      else if is_line_terminator c then None
      else option_map (String c) (lazy_upto_semicolon r)
  end.

(** Group 1 of the leftmost match of [/:(.*?);/] in [s], if there is one. *)
Fixpoint match_mime (s : string) : option string :=
  match s with
  | EmptyString => None
  | String c r =>
      if Ascii.eqb c ":" then
        match lazy_upto_semicolon r with
        | Some g => Some g
        | None => match_mime r
        end
      else match_mime r
  end.

(** *** [atob]: forgiving base64 decoding *)

Definition is_ascii_whitespace (c : ascii) : bool :=
  let n := code c in
  ((n =? 9) || (n =? 10) || (n =? 12) || (n =? 13) || (n =? 32))%N.

Definition sextet (c : ascii) : option N :=
  let n := code c in
  (if (65 <=? n) && (n <=? 90) then Some (n - 65)
   else if (97 <=? n) && (n <=? 122) then Some (n - 71)
   else if (48 <=? n) && (n <=? 57) then Some (n + 4)
   else if n =? 43 then Some 62
   else if n =? 47 then Some 63
   else None)%N.

Fixpoint sextets (s : list ascii) : option (list N) :=
  match s with
  | [] => Some []
  | c :: r =>
      match sextet c, sextets r with
      | Some v, Some vs => Some (v :: vs)
      | _, _ => None
      end
  end.

Fixpoint octets (l : list N) : list N :=
  match l with
  | a :: b :: c :: d :: r =>
      let w := (a * 262144 + b * 4096 + c * 64 + d)%N in
      (w / 65536 :: (w / 256) mod 256 :: w mod 256 :: octets r)%N
  | [a; b; c] =>
      let w := ((a * 4096 + b * 64 + c) / 4)%N in
      [w / 256; w mod 256]%N
  | [a; b] => [(a * 64 + b) / 16]%N
  | _ => []
  end.

(** Drops one or two trailing [=] when the length is a multiple of four. *)
Definition strip_padding (s : list ascii) : list ascii :=
  if (Nat.modulo (List.length s) 4 =? 0)%nat then
    match rev s with
    | "="%char :: "="%char :: r => rev r
    | "="%char :: r => rev r
    | _ => s
    end
  else s.

(** [atob(s)]: the decoded binary string, or [None] where the browser throws
    an [InvalidCharacterError]. *)
Definition atob (s : string) : option string :=
  let data :=
    strip_padding
      (filter (fun c => negb (is_ascii_whitespace c)) (list_ascii_of_string s)) in
  if (Nat.modulo (List.length data) 4 =? 1)%nat then None
  else
    match sextets data with
    | Some vs => Some (string_of_list_ascii (map ascii_of_N (octets vs)))
    | None => None
    end.

Local Open Scope list_scope.
Local Open Scope Z_scope.

(** ** Data *)

(** A [File] as built by [new File(bits, name, {type})]. *)
Record File := { f_bits : list N; f_name : string; f_type : string }.

Record Point := { pt_x : Num.number; pt_y : Num.number }.

Inductive Tab := retouch | magic_fill | adjust | styles | crop_tab | analyze.

Definition Tab_eqb (a b : Tab) : bool :=
  match a, b with
  | retouch, retouch | magic_fill, magic_fill | adjust, adjust
  | styles, styles | crop_tab, crop_tab | analyze, analyze => true
  | _, _ => false
  end.

Inductive CropUnit := px | percent.

Record Crop := {
  crop_unit : CropUnit;
  crop_x : Num.number; crop_y : Num.number;
  crop_width : Num.number; crop_height : Num.number
}.

(** A [PixelCrop]: a [Crop] whose unit is [px]. *)
Record PixelCrop := {
  pc_x : Num.number; pc_y : Num.number;
  pc_width : Num.number; pc_height : Num.number
}.

Inductive Part :=
| InlineData (mimeType data : string)
| Text (text : string).

Inductive Role := user | model.

Record Content := { role : Role; parts : list Part }.

Record PromptFeedback := { blockReason : option string }.

Record AnalysisResponse := {
  promptFeedback : option PromptFeedback;
  response_text : option string
}.

(** Modelled from the spec: the [MaskingCanvas] component is not among the
    sources; its handle offers [clearMask], and the paint mask is a raster
    marking the pixels that are included. *)
Record MaskingCanvas := { mask_pixels : list (Z * Z) }.

Definition clearMask (m : MaskingCanvas) : MaskingCanvas := {| mask_pixels := [] |}.

(** What a handler reads of an [HTMLImageElement]. *)
Record ImageElement := {
  naturalWidth : Num.number; naturalHeight : Num.number;
  img_width : Num.number; img_height : Num.number;
  clientWidth : Num.number; clientHeight : Num.number;
  rect_left : Num.number; rect_top : Num.number
}.

Record MouseEvent := {
  clientX : Num.number; clientY : Num.number;
  currentTarget : ImageElement
}.

(** ** The state cells of [App]

    [maskCanvas] is the current value of [maskCanvasRef]. The cells that no
    handler below writes ([aspect], [isComparing], [brushSize],
    [imageDimensions] and the two object URLs) are left out. *)

Record AppState := {
  history : list File;
  historyIndex : Z;
  prompt : string;
  isLoading : bool;
  error : option string;
  editHotspot : option Point;
  displayHotspot : option Point;
  activeTab : Tab;
  chatHistory : list Content;
  hasInitialAnalysisRun : bool;
  crop : option Crop;
  completedCrop : option PixelCrop;
  maskDataUrl : option string;
  maskCanvas : option MaskingCanvas
}.

Definition withHistory (v : list File) (s : AppState) : AppState :=
  {| history := v;
     historyIndex := historyIndex s;
     prompt := prompt s;
     isLoading := isLoading s;
     error := error s;
     editHotspot := editHotspot s;
     displayHotspot := displayHotspot s;
     activeTab := activeTab s;
     chatHistory := chatHistory s;
     hasInitialAnalysisRun := hasInitialAnalysisRun s;
     crop := crop s;
     completedCrop := completedCrop s;
     maskDataUrl := maskDataUrl s;
     maskCanvas := maskCanvas s |}.

Definition withHistoryIndex (v : Z) (s : AppState) : AppState :=
  {| history := history s;
     historyIndex := v;
     prompt := prompt s;
     isLoading := isLoading s;
     error := error s;
     editHotspot := editHotspot s;
     displayHotspot := displayHotspot s;
     activeTab := activeTab s;
     chatHistory := chatHistory s;
     hasInitialAnalysisRun := hasInitialAnalysisRun s;
     crop := crop s;
     completedCrop := completedCrop s;
     maskDataUrl := maskDataUrl s;
     maskCanvas := maskCanvas s |}.

Definition withPrompt (v : string) (s : AppState) : AppState :=
  {| history := history s;
     historyIndex := historyIndex s;
     prompt := v;
     isLoading := isLoading s;
     error := error s;
     editHotspot := editHotspot s;
     displayHotspot := displayHotspot s;
     activeTab := activeTab s;
     chatHistory := chatHistory s;
     hasInitialAnalysisRun := hasInitialAnalysisRun s;
     crop := crop s;
     completedCrop := completedCrop s;
     maskDataUrl := maskDataUrl s;
     maskCanvas := maskCanvas s |}.

Definition withIsLoading (v : bool) (s : AppState) : AppState :=
  {| history := history s;
     historyIndex := historyIndex s;
     prompt := prompt s;
     isLoading := v;
     error := error s;
     editHotspot := editHotspot s;
     displayHotspot := displayHotspot s;
     activeTab := activeTab s;
     chatHistory := chatHistory s;
     hasInitialAnalysisRun := hasInitialAnalysisRun s;
     crop := crop s;
     completedCrop := completedCrop s;
     maskDataUrl := maskDataUrl s;
     maskCanvas := maskCanvas s |}.

Definition withError (v : option string) (s : AppState) : AppState :=
  {| history := history s;
     historyIndex := historyIndex s;
     prompt := prompt s;
     isLoading := isLoading s;
     error := v;
     editHotspot := editHotspot s;
     displayHotspot := displayHotspot s;
     activeTab := activeTab s;
     chatHistory := chatHistory s;
     hasInitialAnalysisRun := hasInitialAnalysisRun s;
     crop := crop s;
     completedCrop := completedCrop s;
     maskDataUrl := maskDataUrl s;
     maskCanvas := maskCanvas s |}.

Definition withEditHotspot (v : option Point) (s : AppState) : AppState :=
  {| history := history s;
     historyIndex := historyIndex s;
     prompt := prompt s;
     isLoading := isLoading s;
     error := error s;
     editHotspot := v;
     displayHotspot := displayHotspot s;
     activeTab := activeTab s;
     chatHistory := chatHistory s;
     hasInitialAnalysisRun := hasInitialAnalysisRun s;
     crop := crop s;
     completedCrop := completedCrop s;
     maskDataUrl := maskDataUrl s;
     maskCanvas := maskCanvas s |}.

Definition withDisplayHotspot (v : option Point) (s : AppState) : AppState :=
  {| history := history s;
     historyIndex := historyIndex s;
     prompt := prompt s;
     isLoading := isLoading s;
     error := error s;
     editHotspot := editHotspot s;
     displayHotspot := v;
     activeTab := activeTab s;
     chatHistory := chatHistory s;
     hasInitialAnalysisRun := hasInitialAnalysisRun s;
     crop := crop s;
     completedCrop := completedCrop s;
     maskDataUrl := maskDataUrl s;
     maskCanvas := maskCanvas s |}.

Definition withActiveTab (v : Tab) (s : AppState) : AppState :=
  {| history := history s;
     historyIndex := historyIndex s;
     prompt := prompt s;
     isLoading := isLoading s;
     error := error s;
     editHotspot := editHotspot s;
     displayHotspot := displayHotspot s;
     activeTab := v;
     chatHistory := chatHistory s;
     hasInitialAnalysisRun := hasInitialAnalysisRun s;
     crop := crop s;
     completedCrop := completedCrop s;
     maskDataUrl := maskDataUrl s;
     maskCanvas := maskCanvas s |}.

Definition withChatHistory (v : list Content) (s : AppState) : AppState :=
  {| history := history s;
     historyIndex := historyIndex s;
     prompt := prompt s;
     isLoading := isLoading s;
     error := error s;
     editHotspot := editHotspot s;
     displayHotspot := displayHotspot s;
     activeTab := activeTab s;
     chatHistory := v;
     hasInitialAnalysisRun := hasInitialAnalysisRun s;
     crop := crop s;
     completedCrop := completedCrop s;
     maskDataUrl := maskDataUrl s;
     maskCanvas := maskCanvas s |}.

Definition withHasInitialAnalysisRun (v : bool) (s : AppState) : AppState :=
  {| history := history s;
     historyIndex := historyIndex s;
     prompt := prompt s;
     isLoading := isLoading s;
     error := error s;
     editHotspot := editHotspot s;
     displayHotspot := displayHotspot s;
     activeTab := activeTab s;
     chatHistory := chatHistory s;
     hasInitialAnalysisRun := v;
     crop := crop s;
     completedCrop := completedCrop s;
     maskDataUrl := maskDataUrl s;
     maskCanvas := maskCanvas s |}.

Definition withCrop (v : option Crop) (s : AppState) : AppState :=
  {| history := history s;
     historyIndex := historyIndex s;
     prompt := prompt s;
     isLoading := isLoading s;
     error := error s;
     editHotspot := editHotspot s;
     displayHotspot := displayHotspot s;
     activeTab := activeTab s;
     chatHistory := chatHistory s;
     hasInitialAnalysisRun := hasInitialAnalysisRun s;
     crop := v;
     completedCrop := completedCrop s;
     maskDataUrl := maskDataUrl s;
     maskCanvas := maskCanvas s |}.

Definition withCompletedCrop (v : option PixelCrop) (s : AppState) : AppState :=
  {| history := history s;
     historyIndex := historyIndex s;
     prompt := prompt s;
     isLoading := isLoading s;
     error := error s;
     editHotspot := editHotspot s;
     displayHotspot := displayHotspot s;
     activeTab := activeTab s;
     chatHistory := chatHistory s;
     hasInitialAnalysisRun := hasInitialAnalysisRun s;
     crop := crop s;
     completedCrop := v;
     maskDataUrl := maskDataUrl s;
     maskCanvas := maskCanvas s |}.

Definition withMaskDataUrl (v : option string) (s : AppState) : AppState :=
  {| history := history s;
     historyIndex := historyIndex s;
     prompt := prompt s;
     isLoading := isLoading s;
     error := error s;
     editHotspot := editHotspot s;
     displayHotspot := displayHotspot s;
     activeTab := activeTab s;
     chatHistory := chatHistory s;
     hasInitialAnalysisRun := hasInitialAnalysisRun s;
     crop := crop s;
     completedCrop := completedCrop s;
     maskDataUrl := v;
     maskCanvas := maskCanvas s |}.

Definition withMaskCanvas (v : option MaskingCanvas) (s : AppState) : AppState :=
  {| history := history s;
     historyIndex := historyIndex s;
     prompt := prompt s;
     isLoading := isLoading s;
     error := error s;
     editHotspot := editHotspot s;
     displayHotspot := displayHotspot s;
     activeTab := activeTab s;
     chatHistory := chatHistory s;
     hasInitialAnalysisRun := hasInitialAnalysisRun s;
     crop := crop s;
     completedCrop := completedCrop s;
     maskDataUrl := maskDataUrl s;
     maskCanvas := v |}.

Definition initialState : AppState :=
  {| history := []; historyIndex := -1; prompt := EmptyString;
     isLoading := false; error := None; editHotspot := None;
     displayHotspot := None; activeTab := retouch; chatHistory := [];
     hasInitialAnalysisRun := false; crop := None; completedCrop := None;
     maskDataUrl := None; maskCanvas := None |}.

(** ** Exceptions, promises and the handler monad *)

(** A thrown value: an [Error] object with its message, or anything else. *)
Inductive Thrown := ErrorObject (message : string) | OtherValue.

(** [err instanceof Error ? err.message : 'An unknown error occurred.'] *)
Definition errorMessage (err : Thrown) : string :=
  match err with
  | ErrorObject m => m
  | OtherValue => "An unknown error occurred."
  end.

(** How an awaited promise settles. *)
Inductive Settled (A : Type) := Fulfilled (a : A) | Rejected (reason : Thrown).
Arguments Fulfilled {A} a.
Arguments Rejected {A} reason.

Definition Completion (A : Type) : Type := (A + Thrown)%type.

(** A computation over the live state that returns or throws; the state
    reached by the time of a throw is kept. *)
Definition Exec (A : Type) : Type := AppState -> Completion A * AppState.

Definition ret {A} (a : A) : Exec A := fun s => (inl a, s).

Definition throw {A} (e : Thrown) : Exec A := fun s => (inr e, s).

Definition bind {A B} (m : Exec A) (f : A -> Exec B) : Exec B :=
  fun s =>
    match m s with
    | (inl a, s1) => f a s1
    | (inr e, s1) => (inr e, s1)
    end.

Declare Scope exec_scope.
Delimit Scope exec_scope with exec.
Notation "x <- m ;; k" := (bind m (fun x => k))
  (at level 61, m at next level, right associativity) : exec_scope.
Notation "m ;; k" := (bind m (fun _ => k))
  (at level 61, right associativity) : exec_scope.
Local Open Scope exec_scope.

Definition lift {A} (r : Completion A) : Exec A := fun s => (r, s).

Definition await {A} (p : Settled A) : Exec A :=
  match p with
  | Fulfilled a => ret a
  | Rejected e => throw e
  end.

(** [try { body } catch (err) { handler }] *)
Definition try_catch {A} (body : Exec A) (handler : Thrown -> Exec A) : Exec A :=
  fun s =>
    match body s with
    | (inl a, s1) => (inl a, s1)
    | (inr e, s1) => handler e s1
    end.

(** [try { body } finally { fin }] *)
Definition finally {A} (body : Exec A) (fin : Exec unit) : Exec A :=
  fun s =>
    let (r, s1) := body s in
    match fin s1 with
    | (inl _, s2) => (r, s2)
    | (inr e, s2) => (inr e, s2)
    end.

(** A state setter. *)
Definition set (f : AppState -> AppState) : Exec unit := fun s => (inl tt, f s).

Definition setHistory v := set (withHistory v).
Definition setHistoryIndex v := set (withHistoryIndex v).
Definition setPrompt v := set (withPrompt v).
Definition setIsLoading v := set (withIsLoading v).
Definition setError v := set (withError v).
Definition setEditHotspot v := set (withEditHotspot v).
Definition setDisplayHotspot v := set (withDisplayHotspot v).
Definition setActiveTab v := set (withActiveTab v).
Definition setChatHistory v := set (withChatHistory v).
Definition setHasInitialAnalysisRun v := set (withHasInitialAnalysisRun v).
Definition setCrop v := set (withCrop v).
Definition setCompletedCrop v := set (withCompletedCrop v).
Definition setMaskDataUrl v := set (withMaskDataUrl v).

(** [setChatHistory(prev => f(prev))] *)
Definition updateChatHistory (f : list Content -> list Content) : Exec unit :=
  set (fun s => withChatHistory (f (chatHistory s)) s).

(** [maskCanvasRef.current?.clearMask()] *)
Definition clearMaskCanvas : Exec unit :=
  set (fun s => withMaskCanvas (option_map clearMask (maskCanvas s)) s).

(** Runs a handler whose closure holds the live state. *)
Definition run {A} (h : AppState -> Exec A) (s : AppState) : Completion A * AppState :=
  h s s.

Definition dispatch {A} (h : AppState -> Exec A) (s : AppState) : AppState :=
  snd (run h s).

(** ** Arrays *)

Definition len {A} (l : list A) : Z := Z.of_nat (List.length l).

(** [l[i]], [None] standing for [undefined]. *)
Definition index {A} (l : list A) (i : Z) : option A :=
  if i <? 0 then None else nth_error l (Z.to_nat i).

(** [l.slice(start, end)] *)
Definition slice {A} (l : list A) (start end_ : Z) : list A :=
  let k := if start <? 0 then Z.max (len l + start) 0 else Z.min start (len l) in
  let final := if end_ <? 0 then Z.max (len l + end_) 0 else Z.min end_ (len l) in
  firstn (Z.to_nat (final - k)) (skipn (Z.to_nat k) l).

(** ** [dataURLtoFile] *)

Definition decimal (n : Z) : string := NilZero.string_of_int (Z.to_int n).

Definition atob_failure : Thrown :=
  ErrorObject "The string to be decoded is not correctly encoded.".

(** A character in the range U+0020 to U+007E. *)
Definition is_printable (c : ascii) : bool :=
  ((32 <=? code c) && (code c <=? 126))%N.

(** An ASCII upper-case letter. *)
Definition is_uppercase (c : ascii) : bool :=
  ((65 <=? code c) && (code c <=? 90))%N.

Definition ascii_lowercase (c : ascii) : ascii :=
  if is_uppercase c then ascii_of_N (code c + 32) else c.

(** The [type] of the file that [new File(bits, name, {type})] makes: the
    option in ASCII lower case, or the empty string when the option holds a
    character outside the range U+0020 to U+007E. *)
Definition File_type (type : string) : string :=
  let cs := list_ascii_of_string type in
  if forallb is_printable cs then string_of_list_ascii (map ascii_lowercase cs)
  else EmptyString.

(** [new File(bits, name, {type})] *)
Definition new_File (bits : list N) (name type : string) : File :=
  {| f_bits := bits; f_name := name; f_type := File_type type |}.

Definition dataURLtoFile (dataurl filename : string) : Completion File :=
  let arr := split "," dataurl in
  if len arr <? 2 then inr (ErrorObject "Invalid data URL")
  else
    match match_mime (nth 0 arr EmptyString) with
    | None => inr (ErrorObject "Could not parse MIME type from data URL")
    | Some mime =>
        if negb (nonempty mime)
        then inr (ErrorObject "Could not parse MIME type from data URL")
        else
          match atob (nth 1 arr EmptyString) with
          | None => inr atob_failure
          | Some bstr =>
              inl (new_File (map code (list_ascii_of_string bstr)) filename mime)
          end
    end.

(** ** The history stack *)

Definition currentImage (s : AppState) : option File := index (history s) (historyIndex s).
Definition originalImage (s : AppState) : option File := index (history s) 0.

Definition canUndo (s : AppState) : bool := 0 <? historyIndex s.
Definition canRedo (s : AppState) : bool := historyIndex s <? len (history s) - 1.

Definition addImageToHistory (newImageFile : File) (c : AppState) : Exec unit :=
  let newHistory := slice (history c) 0 (historyIndex c + 1) ++ [newImageFile] in
  setHistory newHistory ;;
  setHistoryIndex (len newHistory - 1) ;;
  setCrop None ;;
  setCompletedCrop None ;;
  setMaskDataUrl None ;;
  clearMaskCanvas.

Definition handleImageUpload (file : File) (c : AppState) : Exec unit :=
  setError None ;;
  setHistory [file] ;;
  setHistoryIndex 0 ;;
  setEditHotspot None ;;
  setDisplayHotspot None ;;
  setActiveTab retouch ;;
  setCrop None ;;
  setCompletedCrop None ;;
  setChatHistory [] ;;
  setHasInitialAnalysisRun false ;;
  setMaskDataUrl None.

Definition handleUndo (c : AppState) : Exec unit :=
  if canUndo c then
    setHistoryIndex (historyIndex c - 1) ;;
    setEditHotspot None ;;
    setDisplayHotspot None ;;
    setMaskDataUrl None
  else ret tt.

Definition handleRedo (c : AppState) : Exec unit :=
  if canRedo c then
    setHistoryIndex (historyIndex c + 1) ;;
    setEditHotspot None ;;
    setDisplayHotspot None ;;
    setMaskDataUrl None
  else ret tt.

Definition handleReset (c : AppState) : Exec unit :=
  if 0 <? len (history c) then
    setHistoryIndex 0 ;;
    setError None ;;
    setEditHotspot None ;;
    setDisplayHotspot None ;;
    setChatHistory [] ;;
    setHasInitialAnalysisRun false ;;
    setMaskDataUrl None ;;
    clearMaskCanvas
  else ret tt.

Definition handleUploadNew (c : AppState) : Exec unit :=
  setHistory [] ;;
  setHistoryIndex (-1) ;;
  setError None ;;
  setPrompt EmptyString ;;
  setEditHotspot None ;;
  setDisplayHotspot None ;;
  setChatHistory [] ;;
  setMaskDataUrl None.

(** ** The edit handlers

    [r] is how the collaborator's promise settles and [now] the value of
    [Date.now()] when the file is named. [console.error] leaves no trace in
    the state. *)

Definition png_name (prefix : string) (now : Z) : string :=
  (prefix ++ decimal now ++ ".png")%string.

Definition handleGenerate (r : Settled string) (now : Z) (c : AppState) : Exec unit :=
  match currentImage c with
  | None => setError (Some "No image loaded to edit.")
  | Some _ =>
      if negb (nonempty (trim (prompt c))) then
        setError (Some "Please enter a description for your edit.")
      else
        match editHotspot c with
        | None => setError (Some "Please click on the image to select an area to edit.")
        | Some _ =>
            setIsLoading true ;;
            setError None ;;
            finally
              (try_catch
                 (editedImageUrl <- await r ;;
                  newImageFile <- lift (dataURLtoFile editedImageUrl (png_name "edited-" now)) ;;
                  addImageToHistory newImageFile c ;;
                  setEditHotspot None ;;
                  setDisplayHotspot None)
                 (fun err =>
                    setError (Some ("Failed to generate the image. " ++ errorMessage err)%string)))
              (setIsLoading false)
        end
  end.

Definition handleGenerateFill (fillPrompt : string) (r : Settled string) (now : Z)
  (c : AppState) : Exec unit :=
  let reject := setError (Some "Please load an image and mask an area to fill.") in
  match currentImage c, maskDataUrl c with
  | Some _, Some mask =>
      if nonempty mask then
        setIsLoading true ;;
        setError None ;;
        finally
          (try_catch
             (maskFile <- lift (dataURLtoFile mask "mask.png") ;;
              filledImageUrl <- await r ;;
              newImageFile <- lift (dataURLtoFile filledImageUrl (png_name "filled-" now)) ;;
              addImageToHistory newImageFile c)
             (fun err =>
                setError (Some ("Failed to generate the filled image. " ++ errorMessage err)%string)))
          (setIsLoading false)
      else reject
  | _, _ => reject
  end.

Definition handleApplyStyle (stylePrompt : string) (r : Settled string) (now : Z)
  (c : AppState) : Exec unit :=
  match currentImage c with
  | None => setError (Some "No image loaded to apply a style to.")
  | Some _ =>
      setIsLoading true ;;
      setError None ;;
      finally
        (try_catch
           (styledImageUrl <- await r ;;
            newImageFile <- lift (dataURLtoFile styledImageUrl (png_name "styled-" now)) ;;
            addImageToHistory newImageFile c)
           (fun err =>
              setError (Some ("Failed to apply the style. " ++ errorMessage err)%string)))
        (setIsLoading false)
  end.

Definition handleApplyAdjustment (adjustmentPrompt : string) (r : Settled string) (now : Z)
  (c : AppState) : Exec unit :=
  match currentImage c with
  | None => setError (Some "No image loaded to apply an adjustment to.")
  | Some _ =>
      setIsLoading true ;;
      setError None ;;
      finally
        (try_catch
           (adjustedImageUrl <- await r ;;
            newImageFile <- lift (dataURLtoFile adjustedImageUrl (png_name "adjusted-" now)) ;;
            addImageToHistory newImageFile c)
           (fun err =>
              setError (Some ("Failed to apply the adjustment. " ++ errorMessage err)%string)))
        (setIsLoading false)
  end.

(** ** The crop rasteriser *)

Inductive SmoothingQuality := low | medium | high.

Record DrawImage := {
  di_image : ImageElement;
  di_sx : Num.number; di_sy : Num.number; di_sw : Num.number; di_sh : Num.number;
  di_dx : Num.number; di_dy : Num.number; di_dw : Num.number; di_dh : Num.number
}.

(** The six entries [a b c d e f] of a 2D transform. *)
Definition Transform : Type :=
  (Num.number * Num.number * Num.number * Num.number * Num.number * Num.number)%type.

Definition identity : Transform :=
  (Num.one, Num.zero, Num.zero, Num.one, Num.zero, Num.zero).

(** The conversion of a number to the IDL type [unsigned long]: [NaN], the
    zeros and the infinities give 0, any other number its integral part
    (the fraction is dropped) modulo [2^32]. *)
Definition to_unsigned_long (x : Num.number) : Z :=
  match x with
  | S754_finite s m e =>
      (if 0 <=? e then Num.signed s m * 2 ^ e
       else Z.quot (Num.signed s m) (2 ^ (- e))) mod 2 ^ 32
  | _ => 0
  end.

(** What a reflecting [unsigned long] attribute keeps of the value it is
    given: the value up to 2147483647, its default above. *)
Definition reflected (default n : Z) : Z :=
  if n <=? 2147483647 then n else default.

(** A canvas with the state of its 2D context. [width] and [height] are
    [unsigned long] attributes: the sizes are whole numbers of pixels. *)
Record Canvas := {
  cv_width : Z;
  cv_height : Z;
  cv_transform : Transform;
  cv_quality : SmoothingQuality;
  cv_drawn : list DrawImage
}.

(** [document.createElement('canvas')] *)
Definition createCanvas : Canvas :=
  {| cv_width := 300; cv_height := 150;
     cv_transform := identity; cv_quality := low; cv_drawn := [] |}.

(** Assigning a dimension clears the bitmap and resets the context. *)
Definition canvas_set_width (v : Num.number) (cv : Canvas) : Canvas :=
  {| cv_width := reflected 300 (to_unsigned_long v); cv_height := cv_height cv;
     cv_transform := identity; cv_quality := low; cv_drawn := [] |}.

Definition canvas_set_height (v : Num.number) (cv : Canvas) : Canvas :=
  {| cv_width := cv_width cv; cv_height := reflected 150 (to_unsigned_long v);
     cv_transform := identity; cv_quality := low; cv_drawn := [] |}.

Definition setTransform (t : Transform) (cv : Canvas) : Canvas :=
  {| cv_width := cv_width cv; cv_height := cv_height cv;
     cv_transform := t; cv_quality := cv_quality cv; cv_drawn := cv_drawn cv |}.

Definition set_imageSmoothingQuality (q : SmoothingQuality) (cv : Canvas) : Canvas :=
  {| cv_width := cv_width cv; cv_height := cv_height cv;
     cv_transform := cv_transform cv; cv_quality := q; cv_drawn := cv_drawn cv |}.

Definition drawImage (d : DrawImage) (cv : Canvas) : Canvas :=
  {| cv_width := cv_width cv; cv_height := cv_height cv;
     cv_transform := cv_transform cv; cv_quality := cv_quality cv;
     cv_drawn := cv_drawn cv ++ [d] |}.

(** What [handleApplyCrop] takes from its surroundings. *)
Record CropEnv := {
  imgRef : option ImageElement;
  context2d : bool;
  devicePixelRatio : Num.number;
  toDataURL : Canvas -> string;
  crop_now : Z
}.

(** The canvas of [handleApplyCrop] once the context is obtained, up to and
    including [drawImage]. *)
Definition croppedCanvas (image : ImageElement) (completed : PixelCrop)
  (pixelRatio : Num.number) (canvas : Canvas) : Canvas :=
  let scaleX := Num.div (naturalWidth image) (img_width image) in
  let scaleY := Num.div (naturalHeight image) (img_height image) in
  let canvas := canvas_set_width (Num.mul (pc_width completed) pixelRatio) canvas in
  let canvas := canvas_set_height (Num.mul (pc_height completed) pixelRatio) canvas in
  let canvas :=
    setTransform (pixelRatio, Num.zero, Num.zero, pixelRatio, Num.zero, Num.zero) canvas in
  let canvas := set_imageSmoothingQuality high canvas in
  drawImage
    {| di_image := image;
       di_sx := Num.mul (pc_x completed) scaleX;
       di_sy := Num.mul (pc_y completed) scaleY;
       di_sw := Num.mul (pc_width completed) scaleX;
       di_sh := Num.mul (pc_height completed) scaleY;
       di_dx := Num.zero; di_dy := Num.zero;
       di_dw := pc_width completed; di_dh := pc_height completed |}
    canvas.

Definition handleApplyCrop (env : CropEnv) (c : AppState) : Exec unit :=
  match completedCrop c, imgRef env with
  | Some completed, Some image =>
      let canvas := createCanvas in
      let canvas := canvas_set_width (pc_width completed) canvas in
      let canvas := canvas_set_height (pc_height completed) canvas in
      if negb (context2d env) then setError (Some "Could not process the crop.")
      else
        let pixelRatio := Num.or_else (devicePixelRatio env) Num.one in
        let canvas := croppedCanvas image completed pixelRatio canvas in
        let croppedImageUrl := toDataURL env canvas in
        newImageFile <- lift (dataURLtoFile croppedImageUrl (png_name "cropped-" (crop_now env))) ;;
        addImageToHistory newImageFile c
  | _, _ => setError (Some "Please select an area to crop.")
  end.

(** ** The analysis conversation *)

Definition initial_analysis_message : string :=
  "Please provide a brief, high-level analysis of this artwork. Give me one key strength and one area for improvement.".

Definition no_text_response : Thrown :=
  ErrorObject "The AI model did not return a text response. This might be due to safety filters.".

(** The truthy [response.promptFeedback?.blockReason], if there is one. *)
Definition blocked (response : AnalysisResponse) : option string :=
  match promptFeedback response with
  | Some fb =>
      match blockReason fb with
      | Some reason => if nonempty reason then Some reason else None
      | None => None
      end
  | None => None
  end.

(** [partR] settles [fileToPart], [respR] settles [getDrawingAnalysis]. *)
Definition handleSendMessage (message : string) (partR : Settled Part)
  (respR : Settled AnalysisResponse) (c : AppState) : Exec unit :=
  match currentImage c with
  | None => setError (Some "Please upload an image to analyze.")
  | Some _ =>
      setIsLoading true ;;
      setError None ;;
      imageParts <-
        (if len (chatHistory c) =? 0 then
           try_catch
             (imagePart <- await partR ;; ret (Some [imagePart]))
             (fun err =>
                setError (Some ("Could not process image for analysis. " ++ errorMessage err)%string) ;;
                setIsLoading false ;;
                ret None)
         else ret (Some [])) ;;
      match imageParts with
      | None => ret tt
      | Some imageParts =>
          let userParts := imageParts ++ [Text message] in
          let userContent := {| role := user; parts := userParts |} in
          let newHistory := chatHistory c ++ [userContent] in
          setChatHistory newHistory ;;
          finally
            (try_catch
               (response <- await respR ;;
                match blocked response with
                | Some reason =>
                    throw (ErrorObject ("Request was blocked. Reason: " ++ reason ++ ".")%string)
                | None =>
                    match response_text response with
                    | Some modelResponseText =>
                        if nonempty modelResponseText then
                          let modelContent :=
                            {| role := model; parts := [Text modelResponseText] |} in
                          updateChatHistory (fun prev => prev ++ [modelContent])
                        else
                          throw no_text_response
                    | None =>
                        throw no_text_response
                    end
                end)
               (fun err =>
                  setError (Some ("Failed to get analysis. " ++ errorMessage err)%string) ;;
                  updateChatHistory (fun prev => slice prev 0 (-1))))
            (setIsLoading false)
      end
  end.

(** The condition of the effect that starts the first analysis. *)
Definition initialAnalysisDue (s : AppState) : bool :=
  Tab_eqb (activeTab s) analyze && negb (isLoading s) &&
  negb (hasInitialAnalysisRun s) && (len (chatHistory s) =? 0) &&
  match currentImage s with Some _ => true | None => false end.

Definition triggerInitialAnalysis (partR : Settled Part)
  (respR : Settled AnalysisResponse) (c : AppState) : Exec unit :=
  if initialAnalysisDue c then
    setHasInitialAnalysisRun true ;;
    handleSendMessage initial_analysis_message partR respR c
  else ret tt.

(** ** The hotspot *)

Definition handleImageClick (e : MouseEvent) (c : AppState) : Exec unit :=
  if negb (Tab_eqb (activeTab c) retouch) then ret tt
  else
    let img := currentTarget e in
    let offsetX := Num.sub (clientX e) (rect_left img) in
    let offsetY := Num.sub (clientY e) (rect_top img) in
    setDisplayHotspot (Some {| pt_x := offsetX; pt_y := offsetY |}) ;;
    let scaleX := Num.div (naturalWidth img) (clientWidth img) in
    let scaleY := Num.div (naturalHeight img) (clientHeight img) in
    let originalX := Num.round (Num.mul offsetX scaleX) in
    let originalY := Num.round (Num.mul offsetY scaleY) in
    setEditHotspot (Some {| pt_x := originalX; pt_y := originalY |}).

(** ** Events

    Everything that can happen to the editor, as one type: the handlers
    above with their arguments. *)

Inductive Event :=
| Upload (file : File)
| Append (file : File)
| Undo
| Redo
| Reset
| UploadNew
| Retouch (r : Settled string) (now : Z)
| MagicFill (fillPrompt : string) (r : Settled string) (now : Z)
| Style (stylePrompt : string) (r : Settled string) (now : Z)
| Adjust (adjustmentPrompt : string) (r : Settled string) (now : Z)
| ApplyCrop (env : CropEnv)
| SendMessage (message : string) (partR : Settled Part) (respR : Settled AnalysisResponse)
| InitialAnalysis (partR : Settled Part) (respR : Settled AnalysisResponse)
| Click (e : MouseEvent).

Definition handler (ev : Event) : AppState -> Exec unit :=
  match ev with
  | Upload file => handleImageUpload file
  | Append file => addImageToHistory file
  | Undo => handleUndo
  | Redo => handleRedo
  | Reset => handleReset
  | UploadNew => handleUploadNew
  | Retouch r now => handleGenerate r now
  | MagicFill p r now => handleGenerateFill p r now
  | Style p r now => handleApplyStyle p r now
  | Adjust p r now => handleApplyAdjustment p r now
  | ApplyCrop env => handleApplyCrop env
  | SendMessage m partR respR => handleSendMessage m partR respR
  | InitialAnalysis partR respR => triggerInitialAnalysis partR respR
  | Click e => handleImageClick e
  end.

Definition step (s : AppState) (ev : Event) : AppState := dispatch (handler ev) s.

Definition steps (s : AppState) (evs : list Event) : AppState := fold_left step evs s.

(** The invariant of the history stack. *)
Definition history_inv (s : AppState) : Prop :=
  -1 <= historyIndex s < len (history s) /\
  (historyIndex s = -1 <-> history s = []).

(** ** Notions used by the properties *)

(** Either nothing, or the append of a file as [addImageToHistory] does it
    from the closure [c]. *)
Definition history_effect (c s s' : AppState) : Prop :=
  (history s' = history s /\ historyIndex s' = historyIndex s) \/
  (exists f : File,
      history s' = slice (history c) 0 (historyIndex c + 1) ++ [f] /\
      historyIndex s' = len (history s') - 1).

Definition sampleFile : File :=
  {| f_bits := [137; 80; 78; 71]%N; f_name := "photo.png"; f_type := "image/png" |}.

(** What [await r] followed by [dataURLtoFile] yields. *)
Definition fetched (r : Settled string) (name : string) : Completion File :=
  match r with
  | Fulfilled url => dataURLtoFile url name
  | Rejected e => inr e
  end.

(** The state once the submission has started. *)
Definition submitting (s : AppState) : AppState := withError None (withIsLoading true s).

(** The state after a successful submission that appended [f]. *)
Definition appended_from (f : File) (c s : AppState) : AppState :=
  snd (addImageToHistory f c (submitting s)).

(** The state after a failed submission with message [msg]. *)
Definition failed_with (msg : string) (s : AppState) : AppState :=
  withIsLoading false (withError (Some msg) (submitting s)).

(** ** Transient selection state *)

Definition crop_and_mask_cleared (s : AppState) : Prop :=
  crop s = None /\ completedCrop s = None /\ maskDataUrl s = None.

Definition hotspots_cleared (s : AppState) : Prop :=
  editHotspot s = None /\ displayHotspot s = None.

(** All five cells of the transient selection state are empty. *)
Definition selection_cleared (s : AppState) : Prop :=
  crop_and_mask_cleared s /\ hotspots_cleared s.

(** [commits c ev f]: the event [ev], handled with closure [c], passes its
    guards, its collaborator answers with a well-formed data URL, and the file
    [f] decoded from it is the one handed to [addImageToHistory]. *)
Inductive commits (c : AppState) : Event -> File -> Prop :=
| commits_append f : commits c (Append f) f
| commits_retouch r now img hot f :
    currentImage c = Some img ->
    nonempty (trim (prompt c)) = true ->
    editHotspot c = Some hot ->
    fetched r (png_name "edited-" now) = inl f ->
    commits c (Retouch r now) f
| commits_fill p r now img mask maskFile f :
    currentImage c = Some img ->
    maskDataUrl c = Some mask ->
    nonempty mask = true ->
    dataURLtoFile mask "mask.png" = inl maskFile ->
    fetched r (png_name "filled-" now) = inl f ->
    commits c (MagicFill p r now) f
| commits_style p r now img f :
    currentImage c = Some img ->
    fetched r (png_name "styled-" now) = inl f ->
    commits c (Style p r now) f
| commits_adjust p r now img f :
    currentImage c = Some img ->
    fetched r (png_name "adjusted-" now) = inl f ->
    commits c (Adjust p r now) f
| commits_crop env completed image f :
    completedCrop c = Some completed ->
    imgRef env = Some image ->
    context2d env = true ->
    dataURLtoFile
      (toDataURL env
         (croppedCanvas image completed (Num.or_else (devicePixelRatio env) Num.one)
            (canvas_set_height (pc_height completed)
               (canvas_set_width (pc_width completed) createCanvas))))
      (png_name "cropped-" (crop_now env)) = inl f ->
    commits c (ApplyCrop env) f.

Definition is_retouch (ev : Event) : bool :=
  match ev with Retouch _ _ => true | _ => false end.


(** [rejects c ev prefix e]: the generation event [ev], handled with
    closure [c], passes its guards and the body of its [try] throws [e]: the
    collaborator's promise is rejected with [e], or what it returned (or, for
    the magic fill, the mask) is not a well-formed data URL; [prefix] is the
    text the handler puts before the message. *)
Inductive rejects (c : AppState) : Event -> string -> Thrown -> Prop :=
| rejects_retouch r now img hot e :
    currentImage c = Some img ->
    nonempty (trim (prompt c)) = true ->
    editHotspot c = Some hot ->
    fetched r (png_name "edited-" now) = inr e ->
    rejects c (Retouch r now) "Failed to generate the image. " e
| rejects_fill_mask p r now img mask e :
    currentImage c = Some img ->
    maskDataUrl c = Some mask ->
    nonempty mask = true ->
    dataURLtoFile mask "mask.png" = inr e ->
    rejects c (MagicFill p r now) "Failed to generate the filled image. " e
| rejects_fill p r now img mask maskFile e :
    currentImage c = Some img ->
    maskDataUrl c = Some mask ->
    nonempty mask = true ->
    dataURLtoFile mask "mask.png" = inl maskFile ->
    fetched r (png_name "filled-" now) = inr e ->
    rejects c (MagicFill p r now) "Failed to generate the filled image. " e
| rejects_style p r now img e :
    currentImage c = Some img ->
    fetched r (png_name "styled-" now) = inr e ->
    rejects c (Style p r now) "Failed to apply the style. " e
| rejects_adjust p r now img e :
    currentImage c = Some img ->
    fetched r (png_name "adjusted-" now) = inr e ->
    rejects c (Adjust p r now) "Failed to apply the adjustment. " e.

(** How the body of the [try] in [handleSendMessage] comes to throw. *)
Inductive analysis_fails : Settled AnalysisResponse -> Thrown -> Prop :=
| analysis_rejected e : analysis_fails (Rejected e) e
| analysis_blocked response reason :
    blocked response = Some reason ->
    analysis_fails (Fulfilled response)
      (ErrorObject ("Request was blocked. Reason: " ++ reason ++ ".")%string)
| analysis_no_text response :
    blocked response = None ->
    response_text response = None ->
    analysis_fails (Fulfilled response) no_text_response
| analysis_empty_text response :
    blocked response = None ->
    response_text response = Some EmptyString ->
    analysis_fails (Fulfilled response) no_text_response.

(** The parts of the user turn that [handleSendMessage] builds, when
    [fileToPart] does not fail. *)
Definition user_parts (c : AppState) (message : string) (partR : Settled Part)
  : option (list Part) :=
  if len (chatHistory c) =? 0 then
    match partR with
    | Fulfilled imagePart => Some [imagePart; Text message]
    | Rejected _ => None
    end
  else Some [Text message].

(** ** The coordinate mapper of the specification *)

Definition is_zero (x : Num.number) : bool :=
  match x with S754_zero _ => true | _ => false end.

Definition is_positive (x : Num.number) : bool := Num.ltb Num.zero x.

(** Spec-side definition (section 4.2 of the specification): the scale is
    natural over rendered, a coordinate is the rounded product, and a zero
    rendered dimension makes the result unavailable ([None]). *)
Definition CoordinateMapper
  (renderedWidth renderedHeight naturalWidth naturalHeight localX localY : Num.number)
  : option Point :=
  if is_zero renderedWidth || is_zero renderedHeight then None
  else
    let scaleX := Num.div naturalWidth renderedWidth in
    let scaleY := Num.div naturalHeight renderedHeight in
    Some {| pt_x := Num.round (Num.mul localX scaleX);
            pt_y := Num.round (Num.mul localY scaleY) |}.

(** Spec-side definition (sections 4.4 and 8): a natural-space point taken
    back to rendered space through the inverse scale. *)
Definition back_to_rendered (img : ImageElement) (p : Point) : Point :=
  {| pt_x := Num.mul (pt_x p) (Num.div (clientWidth img) (naturalWidth img));
     pt_y := Num.mul (pt_y p) (Num.div (clientHeight img) (naturalHeight img)) |}.

(** The distance between two finite numbers, as a rational. *)
Definition deviation (a b : Num.number) : Q := Qabs (Num.to_Q a - Num.to_Q b).

(** [|a - b| <= 1], computed in binary64. *)
Definition within_one (a b : Num.number) : bool :=
  Num.leb (Num.abs (Num.sub a b)) Num.one.

(** The quotient, resp. the product, is finite and carries no rounding error. *)
Definition exact_div (a b : Num.number) : Prop :=
  Num.is_finite (Num.div a b) = true /\
  (Num.to_Q (Num.div a b) * Num.to_Q b == Num.to_Q a)%Q.

Definition exact_mul (a b : Num.number) : Prop :=
  Num.is_finite (Num.mul a b) = true /\
  (Num.to_Q (Num.mul a b) == Num.to_Q a * Num.to_Q b)%Q.

(** ** Binary64 rounding

    The notions in which the rounding of [SpecFloat] is described: where a
    remainder [num / den] lies against one half, the exponent the format
    gives to a number of magnitude [2^e], the powers of two as rationals,
    the unit roundoff and half the smallest subnormal. *)

Definition loc_of (num den : Z) : location :=
  if num =? 0 then loc_Exact else loc_Inexact (2 * num ?= den).

Definition fexp64 (e : Z) : Z := Z.max (e - 53) (-1074).

Definition pow2 (e : Z) : Q := Qpower 2 e.

Definition u64 : Q := 1 # (2 ^ 53).
Definition eta64 : Q := pow2 (-1075).

(** At most 53 significant bits. *)
Definition small_mantissa (x : Num.number) : Prop :=
  match x with S754_finite _ m _ => Zpos m < 2 ^ 53 | _ => True end.

(** Zero, or a positive finite number. *)
Definition nonneg_finite (x : Num.number) : Prop :=
  match x with
  | S754_zero _ | S754_finite false _ _ => True
  | _ => False
  end.

(** A coordinate on an axis of an image rendered over [rendered] pixels: a
    binary64 number between zero and [rendered]. *)
Definition on_rendered_axis (local : Num.number) (rendered : Z) : Prop :=
  nonneg_finite local /\ small_mantissa local /\
  (Num.to_Q local <= inject_Z rendered)%Q.

(** A size that an [unsigned long] attribute keeps up to its fraction: a
    number between zero and [2^31]. *)
Definition in_raster_range (size : Num.number) : Prop :=
  nonneg_finite size /\ (Num.to_Q size < inject_Z (2 ^ 31))%Q.

(** ** Sample data *)

(** An image of natural size [nw] by [nh] laid out at [cw] by [ch], its
    top-left corner at (20, 10) of the viewport. *)
Definition imageOf (nw nh cw ch : Z) : ImageElement :=
  {| naturalWidth := Num.of_Z nw; naturalHeight := Num.of_Z nh;
     img_width := Num.of_Z cw; img_height := Num.of_Z ch;
     clientWidth := Num.of_Z cw; clientHeight := Num.of_Z ch;
     rect_left := Num.of_Z 20; rect_top := Num.of_Z 10 |}.

(** A click at the rendered-local point [(x, y)] of such an image. *)
Definition clickAt (x y : Z) (img : ImageElement) : MouseEvent :=
  {| clientX := Num.of_Z (x + 20); clientY := Num.of_Z (y + 10); currentTarget := img |}.

Definition sampleImage : ImageElement := imageOf 800 600 400 300.
Definition sampleClick : MouseEvent := clickAt 100 150 sampleImage.

Definition sampleUrl : string := "data:image/png;base64,TWFu".

Definition sampleNow : Z := 1700000000000.

Definition sampleCrop : PixelCrop :=
  {| pc_x := Num.of_Z 50; pc_y := Num.of_Z 50;
     pc_width := Num.of_Z 100; pc_height := Num.of_Z 80 |}.

Definition sampleEnv : CropEnv :=
  {| imgRef := Some sampleImage; context2d := true;
     devicePixelRatio := Num.of_Z 2;
     toDataURL := fun _ => sampleUrl; crop_now := sampleNow |}.

(** The editor after the upload of [sampleFile]. *)
Definition loaded : AppState := step initialState (Upload sampleFile).

(** ** Walking, extending and replacing the history *)

(** The events that install a new history instead of walking or extending
    the one at hand. *)
Definition replaces_history (ev : Event) : bool :=
  match ev with Upload _ | UploadNew => true | _ => false end.


(** The events that set the has-initial-analysis-run flag back to false. *)
Definition rearms_analysis (ev : Event) : bool :=
  match ev with Upload _ | Reset => true | _ => false end.

(** What an undo or a redo that moves the cursor leaves of the state around
    the cursor. *)
Definition deselected (s : AppState) : AppState :=
  withMaskDataUrl None (withDisplayHotspot None (withEditHotspot None s)).

(** ** The shape of the conversation log *)

(** A turn of the user: the first one of a conversation carries the image
    part in front of the text, the later ones the text alone. *)
Definition user_turn (first : bool) (c : Content) : Prop :=
  role c = user /\
  if first then exists p m, parts c = [p; Text m] else exists m, parts c = [Text m].

(** A turn of the model: one non-empty text. *)
Definition model_turn (c : Content) : Prop :=
  role c = model /\ exists t, parts c = [Text t] /\ nonempty t = true.

(** A log of completed exchanges: user and model turns in alternation. *)
Inductive conversation : bool -> list Content -> Prop :=
| conversation_nil first : conversation first []
| conversation_turn first u m rest :
    user_turn first u -> model_turn m -> conversation false rest ->
    conversation first (u :: m :: rest).

(** ** [String.prototype.startsWith] and [Array.prototype.join] *)

(** [s.startsWith(prefix)] *)
Definition startsWith (s prefix : string) : bool := String.prefix prefix s.

(** [l.join('')] *)
Fixpoint join_empty (l : list string) : string :=
  match l with
  | [] => EmptyString
  | x :: r => (x ++ join_empty r)%string
  end.

Definition Role_eqb (a b : Role) : bool :=
  match a, b with
  | user, user | model, model => true
  | _, _ => false
  end.

(** [files?.[0] ?? null] on a [FileList] that may be [null]. *)
Definition first_file (files : option (list File)) : option File :=
  match files with
  | Some l => index l 0
  | None => None
  end.

(** ** The quick edit panel ([QuickEditPanel.tsx])

    The panel keeps its own seven state cells. [url] is what
    [URL.createObjectURL] returns for the selected file and [r] how the
    promise of [generateStyledImage] settles. The clean-up function that
    [handleFileSelect] returns is dropped by both of its callers. *)

Module QuickEditPanel.

Record State := {
  imageFile : option File;
  imageUrl : option string;
  prompt : string;
  isLoading : bool;
  error : option string;
  resultImageUrl : option string;
  isDraggingOver : bool
}.

Definition initialState : State :=
  {| imageFile := None; imageUrl := None; prompt := EmptyString; isLoading := false;
     error := None; resultImageUrl := None; isDraggingOver := false |}.

Definition setImageFile (v : option File) (s : State) : State :=
  {| imageFile := v; imageUrl := imageUrl s; prompt := prompt s;
     isLoading := isLoading s; error := error s;
     resultImageUrl := resultImageUrl s; isDraggingOver := isDraggingOver s |}.

Definition setImageUrl (v : option string) (s : State) : State :=
  {| imageFile := imageFile s; imageUrl := v; prompt := prompt s;
     isLoading := isLoading s; error := error s;
     resultImageUrl := resultImageUrl s; isDraggingOver := isDraggingOver s |}.

Definition setPrompt (v : string) (s : State) : State :=
  {| imageFile := imageFile s; imageUrl := imageUrl s; prompt := v;
     isLoading := isLoading s; error := error s;
     resultImageUrl := resultImageUrl s; isDraggingOver := isDraggingOver s |}.

Definition setIsLoading (v : bool) (s : State) : State :=
  {| imageFile := imageFile s; imageUrl := imageUrl s; prompt := prompt s;
     isLoading := v; error := error s;
     resultImageUrl := resultImageUrl s; isDraggingOver := isDraggingOver s |}.

Definition setError (v : option string) (s : State) : State :=
  {| imageFile := imageFile s; imageUrl := imageUrl s; prompt := prompt s;
     isLoading := isLoading s; error := v;
     resultImageUrl := resultImageUrl s; isDraggingOver := isDraggingOver s |}.

Definition setResultImageUrl (v : option string) (s : State) : State :=
  {| imageFile := imageFile s; imageUrl := imageUrl s; prompt := prompt s;
     isLoading := isLoading s; error := error s;
     resultImageUrl := v; isDraggingOver := isDraggingOver s |}.

Definition setIsDraggingOver (v : bool) (s : State) : State :=
  {| imageFile := imageFile s; imageUrl := imageUrl s; prompt := prompt s;
     isLoading := isLoading s; error := error s;
     resultImageUrl := resultImageUrl s; isDraggingOver := v |}.

Definition handleFileSelect (file : option File) (url : string) (s : State) : State :=
  match file with
  | Some f =>
      if negb (startsWith (f_type f) "image/") then
        setError (Some "Please select an image file.") s
      else
        setImageUrl (Some url)
          (setImageFile (Some f) (setResultImageUrl None (setError None s)))
  | None => s
  end.

Definition handleFileChange (files : option (list File)) (url : string) (s : State) : State :=
  handleFileSelect (first_file files) url s.

Definition handleDrop (files : option (list File)) (url : string) (s : State) : State :=
  handleFileSelect (first_file files) url (setIsDraggingOver false s).

(** [c] is the state the handler closed over, [s] the live one. *)
Definition handleGenerate (r : Settled string) (c s : State) : State :=
  match imageFile c with
  | Some f =>
      if nonempty (trim (prompt c)) then
        let s := setResultImageUrl None (setError None (setIsLoading true s)) in
        let s :=
          match r with
          | Fulfilled styledImageUrl => setResultImageUrl (Some styledImageUrl) s
          | Rejected err =>
              setError (Some ("Failed to generate the image. " ++ errorMessage err)%string) s
          end in
        setIsLoading false s
      else setError (Some "Please provide an image and a prompt.") s
  | None => setError (Some "Please provide an image and a prompt.") s
  end.

(** The [disabled] attribute of the generate button. *)
Definition generateDisabled (s : State) : bool :=
  isLoading s || negb (match imageFile s with Some _ => true | None => false end)
  || negb (nonempty (trim (prompt s))).

Inductive Event :=
| FileChange (files : option (list File)) (url : string)
| Drop (files : option (list File)) (url : string)
| DragOver
| DragLeave
| PromptChange (value : string)
| Generate (r : Settled string).

Definition step (s : State) (ev : Event) : State :=
  match ev with
  | FileChange files url => handleFileChange files url s
  | Drop files url => handleDrop files url s
  | DragOver => setIsDraggingOver true s
  | DragLeave => setIsDraggingOver false s
  | PromptChange value => setPrompt value s
  | Generate r => handleGenerate r s s
  end.

Definition steps (s : State) (evs : list Event) : State := fold_left step evs s.

(** What holds of the panel between two events. *)
Definition consistent (s : State) : Prop :=
  isLoading s = false /\
  (forall f, imageFile s = Some f -> startsWith (f_type f) "image/" = true) /\
  (imageFile s = None <-> imageUrl s = None) /\
  (resultImageUrl s <> None -> imageFile s <> None).

End QuickEditPanel.

(** ** The analysis panel ([AnalyzePanel.tsx])

    The panel has one state cell, the text of its input, and receives the
    conversation log, the loading flag and [onSendMessage] from its parent. *)

Module AnalyzePanel.

(** What [handleSubmit] does: the argument of the call of [onSendMessage],
    if it is called, and the input afterwards. *)
Record Submitted := { sent : option string; input_after : string }.

Definition handleSubmit (isLoading : bool) (input : string) : Submitted :=
  if nonempty (trim input) && negb isLoading then
    {| sent := Some (trim input); input_after := EmptyString |}
  else {| sent := None; input_after := input |}.

(** The [disabled] attribute of the submit button. *)
Definition submitDisabled (isLoading : bool) (input : string) : bool :=
  isLoading || negb (nonempty (trim input)).

Definition getTextFromParts (parts : list Part) : string :=
  join_empty
    (map (fun part => match part with Text text => text | InlineData _ _ => EmptyString end)
       parts).

Inductive EmptyState := PerformingInitialAnalysis | AskForFeedback.

Definition renderEmptyState (isLoading : bool) (chatHistory : list Content)
  : option EmptyState :=
  if isLoading && (len chatHistory =? 0) then Some PerformingInitialAnalysis
  else if len chatHistory =? 0 then Some AskForFeedback
  else None.

(** A rendered message: the plain text of a user turn, or the text of a
    model turn handed to [marked.parse] and [DOMPurify.sanitize]. *)
Inductive Bubble := UserBubble (text : string) | ModelBubble (markdown : string).

(** The body of the callback of [chatHistory.map]; [None] for [null]. *)
Definition renderMessage (msg : Content) (index : Z) : option Bubble :=
  let messageText := getTextFromParts (parts msg) in
  if (index =? 0) && Role_eqb (role msg) user &&
     startsWith messageText "Please provide a brief, high-level analysis"
  then None
  else
    Some (match role msg with
          | model => ModelBubble messageText
          | user => UserBubble messageText
          end).

Fixpoint renderMessages_from (index : Z) (chatHistory : list Content)
  : list (option Bubble) :=
  match chatHistory with
  | [] => []
  | msg :: rest => renderMessage msg index :: renderMessages_from (index + 1) rest
  end.

(** [chatHistory.map((msg, index) => ...)] *)
Definition renderMessages (chatHistory : list Content) : list (option Bubble) :=
  renderMessages_from 0 chatHistory.

End AnalyzePanel.

(** * Properties *)

(** ** Sample runs of the helpers *)

Example of_Z_800 : Num.of_Z 800 = S754_finite false 7036874417766400 (-43).
Proof. reflexivity. Qed.

Example round_samples :
  Num.round (Num.div (Num.of_Z 5) (Num.of_Z 2)) = Num.of_Z 3 /\
  Num.round (Num.div (Num.of_Z (-5)) (Num.of_Z 2)) = Num.of_Z (-2) /\
  Num.round (Num.div (Num.of_Z (-1)) (Num.of_Z 2)) = S754_zero true /\
  Num.round (Num.div (Num.of_Z 2) (Num.of_Z 5)) = S754_zero false /\
  Num.round (Num.div (Num.of_Z 1) (Num.of_Z 0)) = S754_infinity false /\
  Num.round (Num.div (Num.of_Z 0) (Num.of_Z 0)) = S754_nan.
Proof. repeat split; reflexivity. Qed.

Example atob_samples :
  atob "TWFu" = Some "Man" /\ atob "TWE=" = Some "Ma" /\ atob "TQ==" = Some "M" /\
  atob "TQ" = Some "M" /\ atob " T W Fu " = Some "Man" /\
  atob "TWFuA" = None /\ atob "TW-u" = None /\ atob EmptyString = Some EmptyString.
Proof. repeat split; reflexivity. Qed.

Example split_samples :
  split "," "data:image/png;base64,AAAA" = ["data:image/png;base64"; "AAAA"] /\
  split "," "abc" = ["abc"] /\ split "," EmptyString = [EmptyString] /\
  split "," "a,b,c" = ["a"; "b"; "c"] /\ split "," "a," = ["a"; EmptyString].
Proof. repeat split; reflexivity. Qed.

Example match_mime_samples :
  match_mime "data:image/png;base64" = Some "image/png" /\
  match_mime "data:;base64" = Some EmptyString /\
  match_mime "data:image/png" = None /\
  match_mime "a:b:c;d" = Some "b:c".
Proof. repeat split; reflexivity. Qed.

Example trim_samples :
  trim "  make it blue " = "make it blue" /\ trim "   " = EmptyString /\ trim EmptyString = EmptyString.
Proof. repeat split; reflexivity. Qed.

Example dataURLtoFile_samples :
  dataURLtoFile "data:image/png;base64,TWFu" "a.png"
    = inl {| f_bits := [77; 97; 110]%N; f_name := "a.png"; f_type := "image/png" |} /\
  dataURLtoFile "data:," "a.png"
    = inr (ErrorObject "Could not parse MIME type from data URL") /\
  dataURLtoFile "nonsense" "a.png" = inr (ErrorObject "Invalid data URL").
Proof. repeat split; reflexivity. Qed.


(** ** Arrays *)

Lemma len_app {A} (l l' : list A) : len (l ++ l') = len l + len l'.
Proof. unfold len. rewrite length_app. lia. Qed.

Lemma len_nonneg {A} (l : list A) : 0 <= len l.
Proof. unfold len. lia. Qed.

Lemma len_nil_iff {A} (l : list A) : len l = 0 <-> l = [].
Proof.
  unfold len. split; intro H.
  - destruct l; [reflexivity | simpl in H; lia].
  - subst. reflexivity.
Qed.

Lemma slice_prefix {A} (l : list A) (e : Z) :
  0 <= e -> slice l 0 e = firstn (Z.to_nat e) l.
Proof.
  intro He. unfold slice.
  replace (0 <? 0) with false by reflexivity.
  destruct (Z.ltb_spec e 0) as [Hlt | _]; [lia |].
  pose proof (len_nonneg l) as Hl.
  rewrite (Z.min_l 0 (len l)) by lia. simpl skipn.
  rewrite Z.sub_0_r.
  destruct (Z.le_ge_cases e (len l)) as [Hle | Hge].
  - rewrite Z.min_l by lia. reflexivity.
  - rewrite Z.min_r by lia.
    unfold len. rewrite Nat2Z.id.
    rewrite firstn_all. symmetry. apply firstn_all2. unfold len in Hge. lia.
Qed.

Lemma len_slice_prefix {A} (l : list A) (e : Z) :
  0 <= e -> len (slice l 0 e) = Z.min e (len l).
Proof.
  intro He. rewrite slice_prefix by assumption.
  unfold len. rewrite length_firstn. lia.
Qed.

Lemma slice_drop_last {A} (l : list A) (x : A) : slice (l ++ [x]) 0 (-1) = l.
Proof.
  unfold slice. replace (0 <? 0) with false by reflexivity.
  replace (-1 <? 0) with true by reflexivity.
  rewrite len_app. change (len [x]) with 1.
  pose proof (len_nonneg l) as Hl.
  rewrite (Z.min_l 0) by lia. rewrite Z.max_l by lia. simpl skipn.
  replace (len l + 1 + -1 - 0) with (len l) by lia.
  unfold len. rewrite Nat2Z.id.
  rewrite firstn_app, firstn_all, Nat.sub_diag. simpl. apply app_nil_r.
Qed.

(** ** The history stack *)

(** What [addImageToHistory] leaves behind, field by field. *)
Lemma addImageToHistory_state (f : File) (c s : AppState) :
  let s' := snd (addImageToHistory f c s) in
  fst (addImageToHistory f c s) = inl tt /\
  history s' = slice (history c) 0 (historyIndex c + 1) ++ [f] /\
  historyIndex s' = len (slice (history c) 0 (historyIndex c + 1) ++ [f]) - 1 /\
  crop s' = None /\ completedCrop s' = None /\ maskDataUrl s' = None /\
  maskCanvas s' = option_map clearMask (maskCanvas s) /\
  editHotspot s' = editHotspot s /\ displayHotspot s' = displayHotspot s /\
  error s' = error s /\ chatHistory s' = chatHistory s /\
  isLoading s' = isLoading s /\ prompt s' = prompt s /\
  activeTab s' = activeTab s /\
  hasInitialAnalysisRun s' = hasInitialAnalysisRun s.
Proof. cbn. repeat split. Qed.

Lemma history_inv_index (s : AppState) :
  history_inv s -> history s <> [] -> 0 <= historyIndex s < len (history s).
Proof.
  intros [Hr Hiff] Hne.
  assert (historyIndex s <> -1) by (intro E; apply Hne, Hiff, E). lia.
Qed.

(** Whatever the closure holds, the sequence and the cursor that
    [addImageToHistory] writes satisfy the invariant. *)
Lemma addImageToHistory_inv (f : File) (c s : AppState) :
  history_inv (snd (addImageToHistory f c s)).
Proof.
  destruct (addImageToHistory_state f c s) as (_ & Hh & Hi & _).
  unfold history_inv. rewrite Hi, Hh. rewrite len_app. change (len [f]) with 1.
  pose proof (len_nonneg (slice (history c) 0 (historyIndex c + 1))) as Hl.
  split; [lia |]. split; intro H; [lia |].
  destruct (slice (history c) 0 (historyIndex c + 1)); discriminate H.
Qed.

(** C1. On a non-empty history with cursor [i], [addImageToHistory b] makes
    the sequence its prefix [0..i] followed by [b] and puts the cursor on the
    new last index, so that nothing is left to redo; [A,B,C] at cursor 2,
    after two undos and the append of [D], is [A,D] at cursor 1 with
    [canRedo] false. *)
Theorem append_truncates_redo_branch :
  (forall (s : AppState) (b : File),
      history s <> [] ->
      0 <= historyIndex s < len (history s) ->
      let s' := dispatch (addImageToHistory b) s in
      history s' = firstn (Z.to_nat (historyIndex s + 1)) (history s) ++ [b] /\
      historyIndex s' = len (history s') - 1 /\
      historyIndex s' = historyIndex s + 1 /\
      currentImage s' = Some b /\
      canRedo s' = false) /\
  (forall (s0 : AppState) (A B C D : File),
      let s := withHistoryIndex 2 (withHistory [A; B; C] s0) in
      let s' := steps s [Undo; Undo; Append D] in
      history s' = [A; D] /\ historyIndex s' = 1 /\ canRedo s' = false).
Proof.
  split.
  - intros s b Hne Hi. cbv zeta.
    destruct (addImageToHistory_state b s s) as (_ & Hh & Hx & _).
    change (snd (addImageToHistory b s s)) with (dispatch (addImageToHistory b) s) in Hh, Hx.
    set (s' := dispatch (addImageToHistory b) s) in *.
    rewrite slice_prefix in Hh, Hx by lia.
    assert (Hlen : len (firstn (Z.to_nat (historyIndex s + 1)) (history s))
                   = historyIndex s + 1).
    { unfold len in *. rewrite length_firstn. lia. }
    assert (Hidx : historyIndex s' = historyIndex s + 1).
    { rewrite Hx, len_app, Hlen. change (len [b]) with 1. lia. }
    split; [exact Hh |]. split; [rewrite Hh; exact Hx |].
    split; [exact Hidx |]. split.
    + unfold currentImage, index. rewrite Hidx, Hh.
      destruct (Z.ltb_spec (historyIndex s + 1) 0) as [Hlt | _]; [lia |].
      rewrite nth_error_app2.
      * unfold len in Hlen.
        replace (Z.to_nat (historyIndex s + 1)
                 - List.length (firstn (Z.to_nat (historyIndex s + 1)) (history s)))%nat
          with 0%nat by lia.
        reflexivity.
      * unfold len in Hlen. lia.
    + unfold canRedo. rewrite Hh, Hx. apply Z.ltb_irrefl.
  - intros s0 A B C D. cbn. repeat split.
Qed.

Lemma append_truncates_redo_branch_witness :
  let A := {| f_bits := [1%N]; f_name := "a.png"; f_type := "image/png" |} in
  let B := {| f_bits := [2%N]; f_name := "b.png"; f_type := "image/png" |} in
  let s := withHistoryIndex 0 (withHistory [A; A; A] initialState) in
  history (dispatch (addImageToHistory B) s) = [A; B] /\
  canRedo (dispatch (addImageToHistory B) s) = false.
Proof.
  intros A B s.
  assert (Hne : history s <> []) by discriminate.
  assert (Hi : 0 <= historyIndex s < len (history s)) by (cbn; lia).
  destruct (proj1 append_truncates_redo_branch s B Hne Hi) as (H1 & _ & _ & _ & H5).
  split; [exact H1 | exact H5].
Defined.

(** *** What a handler may do to the sequence and the cursor *)

Arguments slice : simpl never.
Arguments len : simpl never.
Arguments dataURLtoFile : simpl never.
Arguments png_name : simpl never.
Arguments trim : simpl never.

(** Case analysis on an innermost scrutinee of the goal. *)
Ltac case_split :=
  match goal with
  | |- context [match ?x with _ => _ end] =>
      lazymatch x with
      | context [match _ with _ => _ end] => fail
      | _ => destruct x eqn:?
      end
  end.

Ltac exec_unfold :=
  unfold finally, try_catch, bind, lift, await, ret, throw,
    addImageToHistory, updateChatHistory, clearMaskCanvas,
    setHistory, setHistoryIndex, setPrompt, setIsLoading, setError,
    setEditHotspot, setDisplayHotspot, setActiveTab, setChatHistory,
    setHasInitialAnalysisRun, setCrop, setCompletedCrop, setMaskDataUrl, set.

Ltac crunch := exec_unfold; cbn; repeat (case_split; cbn).

Ltac unchanged := left; split; reflexivity.
Ltac appended := right; eexists; split; reflexivity.

Lemma handleGenerate_effect r now c s :
  history_effect c s (snd (handleGenerate r now c s)).
Proof.
  unfold handleGenerate, history_effect.
  destruct r as [url | e]; crunch; solve [unchanged | appended].
Qed.

Lemma handleGenerateFill_effect p r now c s :
  history_effect c s (snd (handleGenerateFill p r now c s)).
Proof.
  unfold handleGenerateFill, history_effect.
  destruct r as [url | e]; crunch; solve [unchanged | appended].
Qed.

Lemma handleApplyStyle_effect p r now c s :
  history_effect c s (snd (handleApplyStyle p r now c s)).
Proof.
  unfold handleApplyStyle, history_effect.
  destruct r as [url | e]; crunch; solve [unchanged | appended].
Qed.

Lemma handleApplyAdjustment_effect p r now c s :
  history_effect c s (snd (handleApplyAdjustment p r now c s)).
Proof.
  unfold handleApplyAdjustment, history_effect.
  destruct r as [url | e]; crunch; solve [unchanged | appended].
Qed.

Lemma handleApplyCrop_effect env c s :
  history_effect c s (snd (handleApplyCrop env c s)).
Proof.
  unfold handleApplyCrop, history_effect.
  crunch; solve [unchanged | appended].
Qed.

(** The analysis conversation never touches the history. *)
Lemma handleSendMessage_history m partR respR c s :
  history (snd (handleSendMessage m partR respR c s)) = history s /\
  historyIndex (snd (handleSendMessage m partR respR c s)) = historyIndex s.
Proof.
  unfold handleSendMessage.
  destruct partR as [part | e1], respR as [resp | e2]; crunch; split; reflexivity.
Qed.

Lemma triggerInitialAnalysis_history partR respR c s :
  history (snd (triggerInitialAnalysis partR respR c s)) = history s /\
  historyIndex (snd (triggerInitialAnalysis partR respR c s)) = historyIndex s.
Proof.
  unfold triggerInitialAnalysis.
  destruct (initialAnalysisDue c); [| split; reflexivity].
  cbn -[handleSendMessage].
  apply (handleSendMessage_history initial_analysis_message partR respR c
           (withHasInitialAnalysisRun true s)).
Qed.

Lemma handleImageClick_history e c s :
  history (snd (handleImageClick e c s)) = history s /\
  historyIndex (snd (handleImageClick e c s)) = historyIndex s.
Proof.
  unfold handleImageClick.
  destruct (negb (Tab_eqb (activeTab c) retouch)); split; reflexivity.
Qed.

Lemma history_effect_inv (s s' : AppState) :
  history_inv s -> history_effect s s s' -> history_inv s'.
Proof.
  intros Hinv [[Hh Hi] | (f & Hh & Hi)]; unfold history_inv in *.
  - rewrite Hh, Hi. exact Hinv.
  - rewrite Hi, Hh, len_app. change (len [f]) with 1.
    pose proof (len_nonneg (slice (history s) 0 (historyIndex s + 1))) as Hl.
    split; [lia |]. split; intro H; [lia |].
    destruct (slice (history s) 0 (historyIndex s + 1)); discriminate H.
Qed.

Lemma step_inv (ev : Event) (s : AppState) :
  history_inv s -> history_inv (step s ev).
Proof.
  intro Hinv. unfold step, dispatch, run.
  destruct ev as [file | file | | | | | r now | p r now | p r now | p r now
                 | env | m partR respR | partR respR | e]; cbn [handler].
  - (* upload *)
    cbn. unfold history_inv, len; cbn. split; [lia |]. split; [lia | discriminate].
  - (* append *)
    apply addImageToHistory_inv.
  - (* undo *)
    unfold handleUndo, canUndo. destruct Hinv as [Hr Hiff].
    destruct (Z.ltb_spec 0 (historyIndex s)) as [Hpos | Hle]; cbn.
    + unfold history_inv; cbn. split; [lia |].
      split; intro H; [lia |]. apply Hiff in H. lia.
    + split; assumption.
  - (* redo *)
    unfold handleRedo, canRedo. destruct Hinv as [Hr Hiff].
    destruct (Z.ltb_spec (historyIndex s) (len (history s) - 1)) as [Hlt | Hge]; cbn.
    + unfold history_inv; cbn. split; [lia |].
      split; intro H; [lia |]. rewrite H in Hlt. apply Hiff in H.
      unfold len in Hlt; cbn in Hlt. lia.
    + split; assumption.
  - (* reset *)
    unfold handleReset. destruct Hinv as [Hr Hiff].
    destruct (Z.ltb_spec 0 (len (history s))) as [Hpos | Hle]; cbn.
    + unfold history_inv; cbn. split; [lia |].
      split; intro H; [lia |]. rewrite H in Hpos. discriminate Hpos.
    + split; assumption.
  - (* teardown *)
    cbn. unfold history_inv, len; cbn. split; [lia |]. split; reflexivity.
  - apply (history_effect_inv s); [assumption | apply handleGenerate_effect].
  - apply (history_effect_inv s); [assumption | apply handleGenerateFill_effect].
  - apply (history_effect_inv s); [assumption | apply handleApplyStyle_effect].
  - apply (history_effect_inv s); [assumption | apply handleApplyAdjustment_effect].
  - apply (history_effect_inv s); [assumption | apply handleApplyCrop_effect].
  - apply (history_effect_inv s); [assumption |]. left.
    apply handleSendMessage_history.
  - apply (history_effect_inv s); [assumption |]. left.
    apply triggerInitialAnalysis_history.
  - apply (history_effect_inv s); [assumption |]. left.
    apply handleImageClick_history.
Qed.

(** C2. Every event of the editor (upload, append, undo, redo, reset, the
    teardown for a new upload, and with them every edit, analysis and click
    handler) preserves [-1 <= cursor < length], the cursor being [-1] exactly
    when the sequence is empty. *)
Theorem history_operations_preserve_invariant (ev : Event) (s : AppState) :
  history_inv s -> history_inv (step s ev).
Proof. apply step_inv. Qed.

Lemma history_operations_preserve_invariant_witness :
  let other := {| f_bits := [66%N]; f_name := "other.png"; f_type := "image/png" |} in
  let s := step loaded (Append sampleFile) in
  (history s = [sampleFile; sampleFile] /\ historyIndex s = 1) /\
  (history_inv (step s Undo) /\ historyIndex (step s Undo) = 0) /\
  (history_inv (steps s [Undo; Redo]) /\ historyIndex (steps s [Undo; Redo]) = 1) /\
  (history_inv (steps s [Undo; Append other]) /\
   history (steps s [Undo; Append other]) = [sampleFile; other]) /\
  (history_inv (steps s [Undo; Append other; Upload other]) /\
   history (steps s [Undo; Append other; Upload other]) = [other]) /\
  (history_inv (steps s [Undo; Append other; UploadNew]) /\
   historyIndex (steps s [Undo; Append other; UploadNew]) = -1).
Proof.
  intros other s.
  assert (H0 : history_inv s).
  { unfold history_inv.
    change (history s) with [sampleFile; sampleFile]. change (historyIndex s) with 1.
    unfold len. cbn. split; [lia |]. split; intro H; discriminate H. }
  pose proof (history_operations_preserve_invariant Undo s H0) as H1.
  pose proof (history_operations_preserve_invariant Redo (step s Undo) H1) as H2.
  pose proof (history_operations_preserve_invariant (Append other) (step s Undo) H1) as H3.
  pose proof (history_operations_preserve_invariant (Upload other)
                (step (step s Undo) (Append other)) H3) as H4.
  pose proof (history_operations_preserve_invariant UploadNew
                (step (step s Undo) (Append other)) H3) as H5.
  split; [split; reflexivity |]. split; [split; [exact H1 | reflexivity] |].
  split; [split; [exact H2 | reflexivity] |].
  split; [split; [exact H3 | reflexivity] |].
  split; [split; [exact H4 | reflexivity] |].
  split; [exact H5 | reflexivity].
Defined.

(** Every state the editor reaches from its initial one satisfies the
    invariant. *)
Corollary reachable_history_inv (evs : list Event) :
  history_inv (steps initialState evs).
Proof.
  assert (G : forall s, history_inv s -> history_inv (steps s evs)).
  { induction evs as [| ev evs IH]; intros s Hs; [exact Hs |].
    cbn. apply IH. apply step_inv. exact Hs. }
  apply G. unfold history_inv, len. cbn. split; [lia |]. split; reflexivity.
Qed.

(** ** Operations on an empty history *)

Lemma empty_history_guards (s : AppState) :
  history s = [] -> historyIndex s = -1 ->
  canUndo s = false /\ canRedo s = false /\ currentImage s = None /\
  (0 <? len (history s)) = false.
Proof.
  intros Hh Hi. unfold canUndo, canRedo, currentImage, index.
  rewrite Hh, Hi. repeat split.
Qed.

(** C3, as the code has it. On an empty history [handleUndo], [handleRedo]
    and [handleReset] return normally and leave the whole state as it was;
    the retouch, magic-fill, style, adjustment and analysis handlers return
    normally, record an error message and leave the sequence empty and the
    cursor at [-1]; [addImageToHistory] itself has no guard and installs the
    one-element sequence with the cursor at [0]. *)
Theorem operations_on_empty_history (s : AppState) :
  history s = [] -> historyIndex s = -1 ->
  (forall ev, In ev [Undo; Redo; Reset] -> run (handler ev) s = (inl tt, s)) /\
  (forall ev,
      (exists r now, ev = Retouch r now) \/
      (exists p r now, ev = MagicFill p r now \/ ev = Style p r now \/ ev = Adjust p r now) \/
      (exists m partR respR, ev = SendMessage m partR respR) ->
      fst (run (handler ev) s) = inl tt /\
      history (step s ev) = [] /\ historyIndex (step s ev) = -1 /\
      error (step s ev) <> None) /\
  (forall b,
      fst (run (handler (Append b)) s) = inl tt /\
      history (step s (Append b)) = [b] /\ historyIndex (step s (Append b)) = 0).
Proof.
  intros Hh Hi.
  destruct (empty_history_guards s Hh Hi) as (Hu & Hr & Hc & Hl).
  split; [| split].
  - intros ev [E | [E | [E | []]]]; subst ev; unfold run; cbn [handler].
    + unfold handleUndo. rewrite Hu. reflexivity.
    + unfold handleRedo. rewrite Hr. reflexivity.
    + unfold handleReset. rewrite Hl. reflexivity.
  - intros ev [(r & now & E) | [(p & r & now & [E | [E | E]]) | (m & partR & respR & E)]];
      subst ev; unfold step, dispatch, run; cbn [handler].
    + unfold handleGenerate. rewrite Hc. cbn. rewrite Hh, Hi.
      repeat split. discriminate.
    + unfold handleGenerateFill. rewrite Hc. cbn. rewrite Hh, Hi.
      repeat split. discriminate.
    + unfold handleApplyStyle. rewrite Hc. cbn. rewrite Hh, Hi.
      repeat split. discriminate.
    + unfold handleApplyAdjustment. rewrite Hc. cbn. rewrite Hh, Hi.
      repeat split. discriminate.
    + unfold handleSendMessage. rewrite Hc. cbn. rewrite Hh, Hi.
      repeat split. discriminate.
  - intro b. unfold step, dispatch, run; cbn [handler].
    destruct (addImageToHistory_state b s s) as (H0 & H1 & H2 & _).
    rewrite Hh, Hi in H1, H2.
    split; [exact H0 |]. split; [exact H1 | exact H2].
Qed.

Lemma operations_on_empty_history_witness :
  run (handler Undo) initialState = (inl tt, initialState) /\
  history (step initialState (Append sampleFile)) = [sampleFile].
Proof.
  destruct (operations_on_empty_history initialState eq_refl eq_refl) as (H1 & _ & H3).
  split.
  - apply H1. left. reflexivity.
  - apply (H3 sampleFile).
Defined.

(** C3 as stated fails for the append: on the empty initial history
    [addImageToHistory] is not a no-op. *)
Lemma append_on_empty_history_is_not_noop :
  history initialState = [] /\ historyIndex initialState = -1 /\
  ~ (history (step initialState (Append sampleFile)) = [] /\
     historyIndex (step initialState (Append sampleFile)) = -1).
Proof.
  split; [reflexivity |]. split; [reflexivity |].
  intros [H _]. discriminate H.
Qed.

(** ** How the edit handlers end *)

Lemma handleApplyStyle_ends p r now c s img :
  currentImage c = Some img ->
  handleApplyStyle p r now c s =
  match fetched r (png_name "styled-" now) with
  | inl f => (inl tt, withIsLoading false (appended_from f c s))
  | inr e => (inl tt, failed_with ("Failed to apply the style. " ++ errorMessage e) s)
  end.
Proof.
  intro Hc. unfold handleApplyStyle. rewrite Hc.
  destruct r as [url | e]; exec_unfold; cbn; [| reflexivity].
  destruct (dataURLtoFile url (png_name "styled-" now)); reflexivity.
Qed.

Lemma handleApplyAdjustment_ends p r now c s img :
  currentImage c = Some img ->
  handleApplyAdjustment p r now c s =
  match fetched r (png_name "adjusted-" now) with
  | inl f => (inl tt, withIsLoading false (appended_from f c s))
  | inr e => (inl tt, failed_with ("Failed to apply the adjustment. " ++ errorMessage e) s)
  end.
Proof.
  intro Hc. unfold handleApplyAdjustment. rewrite Hc.
  destruct r as [url | e]; exec_unfold; cbn; [| reflexivity].
  destruct (dataURLtoFile url (png_name "adjusted-" now)); reflexivity.
Qed.

Lemma handleGenerate_ends r now c s img hot :
  currentImage c = Some img ->
  nonempty (trim (prompt c)) = true ->
  editHotspot c = Some hot ->
  handleGenerate r now c s =
  match fetched r (png_name "edited-" now) with
  | inl f =>
      (inl tt,
       withIsLoading false
         (withDisplayHotspot None (withEditHotspot None (appended_from f c s))))
  | inr e => (inl tt, failed_with ("Failed to generate the image. " ++ errorMessage e) s)
  end.
Proof.
  intros Hc Hp Hh. unfold handleGenerate. rewrite Hc, Hp, Hh. cbn [negb].
  destruct r as [url | e]; exec_unfold; cbn; [| reflexivity].
  destruct (dataURLtoFile url (png_name "edited-" now)); reflexivity.
Qed.

Lemma handleGenerateFill_ends p r now c s img mask :
  currentImage c = Some img ->
  maskDataUrl c = Some mask ->
  nonempty mask = true ->
  handleGenerateFill p r now c s =
  match dataURLtoFile mask "mask.png" with
  | inl _ =>
      match fetched r (png_name "filled-" now) with
      | inl f => (inl tt, withIsLoading false (appended_from f c s))
      | inr e =>
          (inl tt, failed_with ("Failed to generate the filled image. " ++ errorMessage e) s)
      end
  | inr e =>
      (inl tt, failed_with ("Failed to generate the filled image. " ++ errorMessage e) s)
  end.
Proof.
  intros Hc Hm Hn. unfold handleGenerateFill. rewrite Hc, Hm, Hn.
  exec_unfold; cbn.
  destruct (dataURLtoFile mask "mask.png"); [| reflexivity].
  destruct r as [url | e]; cbn; [| reflexivity].
  destruct (dataURLtoFile url (png_name "filled-" now)); reflexivity.
Qed.

Lemma handleApplyCrop_ends env c s completed image :
  completedCrop c = Some completed ->
  imgRef env = Some image ->
  context2d env = true ->
  let canvas :=
    croppedCanvas image completed (Num.or_else (devicePixelRatio env) Num.one)
      (canvas_set_height (pc_height completed)
         (canvas_set_width (pc_width completed) createCanvas)) in
  handleApplyCrop env c s =
  match dataURLtoFile (toDataURL env canvas) (png_name "cropped-" (crop_now env)) with
  | inl f => (inl tt, snd (addImageToHistory f c s))
  | inr e => (inr e, s)
  end.
Proof.
  intros Hc Hi Hx canvas. unfold handleApplyCrop. rewrite Hc, Hi, Hx. cbn [negb].
  fold canvas. exec_unfold.
  destruct (dataURLtoFile (toDataURL env canvas) (png_name "cropped-" (crop_now env)));
    reflexivity.
Qed.

(** A committed edit returns normally, appends its file after the prefix
    that ends at the closure's cursor, and empties the crop rectangle, the
    completed crop and the mask; the retouch also empties both hotspots, the
    other kinds leave them as they are. *)
Lemma commits_appends c ev f s :
  commits c ev f ->
  let s' := snd (handler ev c s) in
  fst (handler ev c s) = inl tt /\
  history s' = slice (history c) 0 (historyIndex c + 1) ++ [f] /\
  historyIndex s' = len (history s') - 1 /\
  crop_and_mask_cleared s' /\
  (if is_retouch ev then hotspots_cleared s'
   else editHotspot s' = editHotspot s /\ displayHotspot s' = displayHotspot s).
Proof.
  intros H. unfold crop_and_mask_cleared, hotspots_cleared.
  destruct H as [f | r now img hot f Hc Hp Hh Hf | p r now img mask mf f Hc Hm Hn Hmf Hf
                | p r now img f Hc Hf | p r now img f Hc Hf
                | env completed image f Hc Hi Hx Hf]; cbn [handler is_retouch].
  - cbn. repeat split.
  - rewrite (handleGenerate_ends r now c s img hot Hc Hp Hh), Hf. cbn. repeat split.
  - rewrite (handleGenerateFill_ends p r now c s img mask Hc Hm Hn), Hmf, Hf.
    cbn. repeat split.
  - rewrite (handleApplyStyle_ends p r now c s img Hc), Hf. cbn. repeat split.
  - rewrite (handleApplyAdjustment_ends p r now c s img Hc), Hf. cbn. repeat split.
  - rewrite (handleApplyCrop_ends env c s completed image Hc Hi Hx). cbv zeta.
    rewrite Hf. cbn. repeat split.
Qed.

(** C4, as the code has it. Every committed edit (retouch, magic fill,
    style, adjustment, crop, or a bare append) empties the crop rectangle, the
    completed crop and the paint mask, and the retouch empties both hotspots as
    well; an undo or redo that moves the cursor, and a reset of a non-empty
    history, empty the paint mask and both hotspots. *)
Theorem transient_state_cleared (s : AppState) :
  (forall ev f,
      commits s ev f ->
      crop_and_mask_cleared (step s ev) /\
      (is_retouch ev = true -> selection_cleared (step s ev))) /\
  (canUndo s = true ->
   maskDataUrl (step s Undo) = None /\ hotspots_cleared (step s Undo)) /\
  (canRedo s = true ->
   maskDataUrl (step s Redo) = None /\ hotspots_cleared (step s Redo)) /\
  (history s <> [] ->
   maskDataUrl (step s Reset) = None /\ hotspots_cleared (step s Reset)).
Proof.
  split; [| split; [| split]].
  - intros ev f H.
    destruct (commits_appends s ev f s H) as (_ & _ & _ & Hcm & Hhot).
    unfold step, dispatch, run. split; [exact Hcm |].
    intro Hr. rewrite Hr in Hhot. split; assumption.
  - intro H. unfold step, dispatch, run; cbn [handler]. unfold handleUndo.
    rewrite H. cbn. repeat split.
  - intro H. unfold step, dispatch, run; cbn [handler]. unfold handleRedo.
    rewrite H. cbn. repeat split.
  - intro H. unfold step, dispatch, run; cbn [handler]. unfold handleReset.
    assert (Hl : (0 <? len (history s)) = true).
    { apply Z.ltb_lt. pose proof (len_nonneg (history s)).
      destruct (Z.eq_dec (len (history s)) 0) as [E | E]; [| lia].
      apply len_nil_iff in E. contradiction. }
    rewrite Hl. cbn. repeat split.
Qed.

(** ** JS numbers: rounding in binary64 *)

(** *** Shifting a mantissa right *)

Lemma loc_of_record (m : Z) (r s : bool) (num den : Z) :
  0 <= num < den ->
  loc_of_shr_record {| shr_m := m; shr_r := r; shr_s := s |} = loc_of num den ->
  (r = false /\ s = false /\ num = 0) \/
  (r = false /\ s = true /\ 0 < 2 * num < den) \/
  (r = true /\ s = false /\ 2 * num = den) \/
  (r = true /\ s = true /\ den < 2 * num).
Proof.
  intros Hn. unfold loc_of.
  destruct (Z.eqb_spec num 0) as [E | E];
    [| destruct (Z.compare_spec (2 * num) den) as [C | C | C]];
    destruct r, s; cbn [loc_of_shr_record]; intro H; try discriminate H;
    [left | right; right; left | right; left | right; right; right];
    repeat split; lia.
Qed.

Lemma shr_1_loc (m : Z) (r s : bool) (num den : Z) :
  0 <= m -> 0 <= num < den ->
  loc_of_shr_record {| shr_m := m; shr_r := r; shr_s := s |} = loc_of num den ->
  shr_m (shr_1 {| shr_m := m; shr_r := r; shr_s := s |}) = m / 2 /\
  loc_of_shr_record (shr_1 {| shr_m := m; shr_r := r; shr_s := s |})
    = loc_of ((m mod 2) * den + num) (2 * den).
Proof.
  intros Hm Hn H.
  assert (Hbit : m = 2 * (m / 2) + m mod 2) by (apply Z.div_mod; lia).
  assert (Hr : 0 <= m mod 2 < 2) by (apply Z.mod_pos_bound; lia).
  assert (Hshape :
    shr_1 {| shr_m := m; shr_r := r; shr_s := s |}
    = {| shr_m := m / 2; shr_r := (m mod 2 =? 1); shr_s := r || s |}).
  { destruct m as [| p | p]; [reflexivity | | lia].
    destruct p as [p | p |]; cbn [shr_1].
    - rewrite Pos2Z.inj_xI.
      replace ((2 * Zpos p + 1) / 2) with (Zpos p) by (apply Z.div_unique with 1; lia).
      replace ((2 * Zpos p + 1) mod 2) with 1 by (apply Z.mod_unique with (Zpos p); lia).
      reflexivity.
    - rewrite Pos2Z.inj_xO.
      replace ((2 * Zpos p) / 2) with (Zpos p) by (apply Z.div_unique with 0; lia).
      replace ((2 * Zpos p) mod 2) with 0 by (apply Z.mod_unique with (Zpos p); lia).
      reflexivity.
    - reflexivity. }
  rewrite Hshape. cbn [shr_m]. split; [reflexivity |].
  destruct (loc_of_record m r s num den Hn H)
    as [(-> & -> & E) | [(-> & -> & E) | [(-> & -> & E) | (-> & -> & E)]]];
    unfold loc_of; cbn [loc_of_shr_record orb];
    assert (Hcase : m mod 2 = 0 \/ m mod 2 = 1) by lia;
    destruct Hcase as [B | B]; rewrite B; cbn [Z.eqb];
    repeat match goal with
    | |- context [?a =? 0] => destruct (Z.eqb_spec a 0); try lia
    | |- context [?a ?= ?b] => destruct (Z.compare_spec a b); try lia
    end; reflexivity.
Qed.

Lemma shr_1_loc' (mrs : shr_record) (num den : Z) :
  0 <= shr_m mrs -> 0 <= num < den ->
  loc_of_shr_record mrs = loc_of num den ->
  shr_m (shr_1 mrs) = shr_m mrs / 2 /\
  loc_of_shr_record (shr_1 mrs) = loc_of ((shr_m mrs mod 2) * den + num) (2 * den).
Proof. destruct mrs as [m r s]. apply shr_1_loc. Qed.

Lemma iter_pos_nat {A} (f : A -> A) (p : positive) (x : A) :
  iter_pos f p x = Nat.iter (Pos.to_nat p) f x.
Proof.
  revert x. induction p as [p IH | p IH |]; intro x; cbn [iter_pos].
  - rewrite !IH. rewrite Pos2Nat.inj_xI.
    replace (S (2 * Pos.to_nat p)) with (Pos.to_nat p + (Pos.to_nat p + 1))%nat by lia.
    rewrite !Nat.iter_add. reflexivity.
  - rewrite !IH. rewrite Pos2Nat.inj_xO.
    replace (2 * Pos.to_nat p)%nat with (Pos.to_nat p + Pos.to_nat p)%nat by lia.
    rewrite Nat.iter_add. reflexivity.
  - reflexivity.
Qed.

Lemma iter_shr_nat (n : nat) (mrs : shr_record) (num den : Z) :
  0 <= shr_m mrs -> 0 <= num < den ->
  loc_of_shr_record mrs = loc_of num den ->
  shr_m (Nat.iter n shr_1 mrs) = shr_m mrs / 2 ^ Z.of_nat n /\
  loc_of_shr_record (Nat.iter n shr_1 mrs)
    = loc_of ((shr_m mrs mod 2 ^ Z.of_nat n) * den + num) (2 ^ Z.of_nat n * den) /\
  0 <= (shr_m mrs mod 2 ^ Z.of_nat n) * den + num < 2 ^ Z.of_nat n * den.
Proof.
  intros Hm Hn Hl. induction n as [| n IH].
  - change (Nat.iter 0 shr_1 mrs) with mrs. change (2 ^ Z.of_nat 0) with 1.
    rewrite Z.div_1_r, Z.mod_1_r. rewrite Z.mul_0_l, Z.add_0_l, Z.mul_1_l.
    split; [reflexivity |]. split; assumption.
  - destruct IH as (IHm & IHl & IHb).
    change (Nat.iter (S n) shr_1 mrs) with (shr_1 (Nat.iter n shr_1 mrs)).
    set (mrs' := Nat.iter n shr_1 mrs) in *.
    assert (Hp : 0 < 2 ^ Z.of_nat n) by (apply Z.pow_pos_nonneg; lia).
    assert (Hm' : 0 <= shr_m mrs') by (rewrite IHm; apply Z.div_pos; lia).
    destruct (shr_1_loc' mrs' _ _ Hm' IHb IHl) as [Sm Sl].
    rewrite Nat2Z.inj_succ, Z.pow_succ_r by lia.
    assert (Hmod : shr_m mrs mod (2 * 2 ^ Z.of_nat n)
                   = shr_m mrs mod 2 ^ Z.of_nat n
                     + 2 ^ Z.of_nat n * ((shr_m mrs / 2 ^ Z.of_nat n) mod 2)).
    { rewrite (Z.mul_comm 2). apply Z.rem_mul_r; lia. }
    assert (Hb2 : 0 <= (shr_m mrs / 2 ^ Z.of_nat n) mod 2 < 2)
      by (apply Z.mod_pos_bound; lia).
    split; [| split].
    + rewrite Sm, IHm. rewrite Z.div_div by lia. f_equal. lia.
    + rewrite Sl, IHm. f_equal; [rewrite Hmod |]; ring.
    + rewrite Hmod. nia.
Qed.

Lemma iter_shr_pos (p : positive) (mrs : shr_record) (num den : Z) :
  0 <= shr_m mrs -> 0 <= num < den ->
  loc_of_shr_record mrs = loc_of num den ->
  shr_m (iter_pos shr_1 p mrs) = shr_m mrs / 2 ^ Zpos p /\
  loc_of_shr_record (iter_pos shr_1 p mrs)
    = loc_of ((shr_m mrs mod 2 ^ Zpos p) * den + num) (2 ^ Zpos p * den) /\
  0 <= (shr_m mrs mod 2 ^ Zpos p) * den + num < 2 ^ Zpos p * den.
Proof.
  intros Hm Hn Hl. rewrite iter_pos_nat.
  rewrite <- (positive_nat_Z p). apply iter_shr_nat; assumption.
Qed.

Lemma record_of_loc (m num den : Z) :
  0 <= num < den ->
  shr_m (shr_record_of_loc m (loc_of num den)) = m /\
  loc_of_shr_record (shr_record_of_loc m (loc_of num den)) = loc_of num den.
Proof.
  intro Hn. unfold loc_of. destruct (num =? 0); [split; reflexivity |].
  destruct (2 * num ?= den); split; reflexivity.
Qed.

(** The first alignment of [binary_round_aux]. *)
Lemma shr_fexp_loc (prec emax m e num den : Z) :
  0 <= m -> 0 <= num < den ->
  let K := Z.max (fexp prec emax (Zdigits2 m + e) - e) 0 in
  let r := shr_fexp prec emax m e (loc_of num den) in
  shr_m (fst r) = m / 2 ^ K /\
  loc_of_shr_record (fst r) = loc_of ((m mod 2 ^ K) * den + num) (2 ^ K * den) /\
  0 <= (m mod 2 ^ K) * den + num < 2 ^ K * den /\
  snd r = e + K.
Proof.
  intros Hm Hn K r. unfold r, shr_fexp, shr. unfold K.
  destruct (record_of_loc m num den Hn) as [Rm Rl].
  destruct (fexp prec emax (Zdigits2 m + e) - e) as [| p | p] eqn:Hk; cbn [fst snd].
  - change (Z.max 0 0) with 0. change (2 ^ 0) with 1.
    rewrite Z.div_1_r, Z.mod_1_r, Z.mul_0_l, Z.add_0_l, Z.mul_1_l, Z.add_0_r.
    repeat split; try assumption; lia.
  - rewrite Z.max_l by lia.
    destruct (iter_shr_pos p (shr_record_of_loc m (loc_of num den)) num den)
      as (A & B & C); rewrite ?Rm; try assumption.
    rewrite Rm in A, B, C. repeat split; try assumption; lia.
  - rewrite Z.max_r by lia. change (2 ^ 0) with 1.
    rewrite Z.div_1_r, Z.mod_1_r, Z.mul_0_l, Z.add_0_l, Z.mul_1_l, Z.add_0_r.
    repeat split; try assumption; lia.
Qed.

Lemma round_nearest_even_loc (m num den : Z) :
  0 <= num < den ->
  let m' := round_nearest_even m (loc_of num den) in
  m <= m' <= m + 1 /\
  2 * Z.abs (m' * den - (m * den + num)) <= den /\
  (num = 0 -> m' = m).
Proof.
  intros Hn m'. unfold m', loc_of, round_nearest_even.
  destruct (Z.eqb_spec num 0) as [E | E].
  - split; [lia |]. split; [lia | reflexivity].
  - destruct (Z.compare_spec (2 * num) den) as [C | C | C].
    + destruct (Z.even m); split; try lia; split; lia.
    + split; [lia |]. split; lia.
    + split; [lia |]. split; lia.
Qed.

Lemma digits2_pos_lower (p : positive) :
  2 ^ (Zpos (digits2_pos p) - 1) <= Zpos p.
Proof.
  induction p as [p IH | p IH |]; cbn [digits2_pos].
  - rewrite Pos2Z.inj_succ.
    replace (Z.succ (Zpos (digits2_pos p)) - 1) with (Z.succ (Zpos (digits2_pos p) - 1)) by lia.
    rewrite Z.pow_succ_r by lia. lia.
  - rewrite Pos2Z.inj_succ.
    replace (Z.succ (Zpos (digits2_pos p)) - 1) with (Z.succ (Zpos (digits2_pos p) - 1)) by lia.
    rewrite Z.pow_succ_r by lia. lia.
  - cbn. lia.
Qed.

Lemma digits2_pos_upper (p : positive) :
  Zpos p < 2 ^ Zpos (digits2_pos p).
Proof.
  induction p as [p IH | p IH |]; cbn [digits2_pos].
  - rewrite Pos2Z.inj_succ, Z.pow_succ_r by lia. lia.
  - rewrite Pos2Z.inj_succ, Z.pow_succ_r by lia. lia.
  - cbn. lia.
Qed.

Lemma Zdigits2_nonneg (m : Z) : 0 <= Zdigits2 m.
Proof. destruct m; cbn; lia. Qed.

Lemma Zdigits2_bounds (m : Z) :
  0 < m -> 2 ^ (Zdigits2 m - 1) <= m < 2 ^ Zdigits2 m.
Proof.
  intro H. destruct m as [| p | p]; try lia. cbn [Zdigits2].
  split; [apply digits2_pos_lower | apply digits2_pos_upper].
Qed.

Lemma Zdigits2_le (m n : Z) : 0 <= n -> 0 <= m < 2 ^ n -> Zdigits2 m <= n.
Proof.
  intros Hn Hm. destruct (Z.eq_dec m 0) as [-> | Hne]; [cbn; lia |].
  destruct (Zdigits2_bounds m) as [Hl _]; [lia |].
  destruct (Z.le_gt_cases (Zdigits2 m) n) as [H | H]; [exact H |].
  assert (2 ^ n <= 2 ^ (Zdigits2 m - 1)) by (apply Z.pow_le_mono_r; lia).
  lia.
Qed.

Lemma Zdigits2_ge (m n : Z) : 0 <= n -> 2 ^ n <= m -> n < Zdigits2 m.
Proof.
  intros Hn Hm.
  assert (0 < 2 ^ n) by (apply Z.pow_pos_nonneg; lia).
  destruct (Zdigits2_bounds m) as [_ Hu]; [lia |].
  destruct (Z.lt_ge_cases n (Zdigits2 m)) as [H' | H']; [exact H' |].
  assert (2 ^ Zdigits2 m <= 2 ^ n).
  { apply Z.pow_le_mono_r; [lia | exact H']. }
  lia.
Qed.

Lemma div_pow2_lt (m d K : Z) :
  0 <= m < 2 ^ d -> 0 <= K -> 0 <= d -> m / 2 ^ K < 2 ^ Z.max (d - K) 0.
Proof.
  intros Hm HK Hd.
  assert (Hp : 0 < 2 ^ K) by (apply Z.pow_pos_nonneg; lia).
  destruct (Z.le_gt_cases K d) as [H | H].
  - rewrite Z.max_l by lia. apply Z.div_lt_upper_bound; [lia |].
    rewrite <- Z.pow_add_r by lia. replace (K + (d - K)) with d by lia. lia.
  - rewrite Z.max_r by lia. change (2 ^ 0) with 1.
    assert (2 ^ d <= 2 ^ K) by (apply Z.pow_le_mono_r; lia).
    rewrite Z.div_small by lia. lia.
Qed.

Lemma fexp_64 (e : Z) : fexp 53 1024 e = fexp64 e.
Proof. reflexivity. Qed.

(** What [binary_round_aux] returns, in binary64, on a mantissa [mx >= 0]
    with the remainder [num / den] when there is no overflow. *)
Lemma binary_round_aux_spec (sx : bool) (mx ex num den : Z) :
  0 <= mx -> 0 <= num < den -> Zdigits2 mx + ex <= 970 ->
  let K := Z.max (fexp64 (Zdigits2 mx + ex) - ex) 0 in
  let m2 := round_nearest_even (mx / 2 ^ K)
              (loc_of ((mx mod 2 ^ K) * den + num) (2 ^ K * den)) in
  (m2 = 0 /\ binary_round_aux 53 1024 sx mx ex (loc_of num den) = S754_zero sx) \/
  (exists mf ef,
      binary_round_aux 53 1024 sx mx ex (loc_of num den) = S754_finite sx mf ef /\
      Zpos mf < 2 ^ 53 /\
      ((Zpos mf = m2 /\ ef = ex + K) \/ (2 * Zpos mf = m2 /\ ef = ex + K + 1))).
Proof.
  intros Hm Hn HD K m2.
  pose proof (shr_fexp_loc 53 1024 mx ex num den Hm Hn) as H1.
  cbv zeta in H1. rewrite fexp_64 in H1. fold K in H1.
  unfold binary_round_aux.
  destruct (shr_fexp 53 1024 mx ex (loc_of num den)) as [mrs' e'].
  cbn [fst snd] in H1. destruct H1 as (H1m & H1l & H1b & H1e).
  rewrite H1m, H1l. fold m2.
  assert (HK : 0 <= K) by (unfold K; lia).
  assert (Hpk : 0 < 2 ^ K) by (apply Z.pow_pos_nonneg; lia).
  assert (Hm1 : 0 <= mx / 2 ^ K) by (apply Z.div_pos; lia).
  destruct (round_nearest_even_loc (mx / 2 ^ K) _ _ H1b) as (Hr1 & _ & _).
  fold m2 in Hr1.
  (* the digits of the rounded mantissa *)
  assert (Hd1 : mx / 2 ^ K < 2 ^ 53).
  { pose proof (Zdigits2_nonneg mx) as Hdn.
    assert (Hlt : mx / 2 ^ K < 2 ^ Z.max (Zdigits2 mx - K) 0).
    { destruct (Z.eq_dec mx 0) as [-> | Hne].
      - rewrite Z.div_0_l by lia. apply Z.pow_pos_nonneg; lia.
      - apply div_pow2_lt; [| lia | lia].
        destruct (Zdigits2_bounds mx); lia. }
    assert (Z.max (Zdigits2 mx - K) 0 <= 53) by (unfold K, fexp64; lia).
    assert (2 ^ Z.max (Zdigits2 mx - K) 0 <= 2 ^ 53) by (apply Z.pow_le_mono_r; lia).
    lia. }
  assert (He' : -1074 <= e') by (unfold K, fexp64 in *; lia).
  pose proof (shr_fexp_loc 53 1024 m2 e' 0 1) as H2.
  cbv zeta in H2. rewrite fexp_64 in H2.
  change (loc_of 0 1) with loc_Exact in H2.
  destruct (shr_fexp 53 1024 m2 e' loc_Exact) as [mrs'' e''].
  cbn [fst snd] in H2.
  destruct H2 as (H2m & _ & _ & H2e); [lia | lia |].
  rewrite H2m.
  (* the second alignment shifts by at most one digit, and then exactly *)
  assert (Hd2 : Zdigits2 m2 <= 54).
  { apply Zdigits2_le; [lia |]. change (2 ^ 54) with (2 * 2 ^ 53). lia. }
  set (K2 := Z.max (fexp64 (Zdigits2 m2 + e') - e') 0) in *.
  assert (HK2 : (K2 = 0 /\ m2 < 2 ^ 53) \/ (K2 = 1 /\ m2 = 2 ^ 53)).
  { unfold K2, fexp64.
    destruct (Z.eq_dec (Zdigits2 m2) 54) as [E | E].
    - assert (2 ^ 53 <= m2).
      { destruct (Z.eq_dec m2 0) as [Z0 | NZ]; [rewrite Z0 in E; discriminate E |].
        destruct (Zdigits2_bounds m2) as [Hl _]; [lia |].
        rewrite E in Hl. exact Hl. }
      lia.
    - left. split; [lia |].
      destruct (Z.lt_ge_cases m2 (2 ^ 53)) as [Hlt | Hge]; [exact Hlt |].
      assert (53 < Zdigits2 m2) by (apply Zdigits2_ge; lia). lia. }
  destruct HK2 as [[E2 Hsmall] | [E2 E3]]; rewrite E2 in *.
  - change (2 ^ 0) with 1. rewrite Z.div_1_r.
    destruct m2 as [| p | p] eqn:Em2.
    + left. split; reflexivity.
    + right. exists p, e''.
      assert (Hle : (e'' <=? 1024 - 53) = true).
      { apply Z.leb_le. subst e'' e'.
        pose proof (Zdigits2_nonneg mx) as Hdn.
        unfold K, fexp64 in *. lia. }
      rewrite Hle. split; [reflexivity |]. split; [exact Hsmall |].
      left. split; [reflexivity | lia].
    + lia.
  - rewrite E3. change (2 ^ 53 / 2 ^ 1) with (Zpos (2 ^ 52)).
    right. exists (2 ^ 52)%positive, e''.
    assert (Hle : (e'' <=? 1024 - 53) = true).
    { apply Z.leb_le. subst e'' e'.
      pose proof (Zdigits2_nonneg mx) as Hdn.
      unfold K, fexp64 in *. lia. }
    rewrite Hle. split; [reflexivity |]. split; [reflexivity |].
    right. split; [reflexivity | lia].
Qed.

(** *** Values *)

Lemma pow2_pos (e : Z) : (0 < pow2 e)%Q.
Proof. unfold pow2. apply Qpower_0_lt. reflexivity. Qed.

Lemma pow2_add (a b : Z) : (pow2 (a + b) == pow2 a * pow2 b)%Q.
Proof. unfold pow2. apply Qpower_plus. discriminate. Qed.

Lemma pow2_nonneg_Z (e : Z) : 0 <= e -> (pow2 e == inject_Z (2 ^ e))%Q.
Proof.
  intro He. unfold pow2. rewrite Zpower_Qpower by exact He. reflexivity.
Qed.

Lemma pow2_neg_Z (e : Z) : e < 0 -> (pow2 e == 1 # Z.to_pos (2 ^ (- e)))%Q.
Proof.
  intro He.
  assert (Hp : 0 < 2 ^ (- e)) by (apply Z.pow_pos_nonneg; lia).
  assert (E : (pow2 e * pow2 (- e) == 1)%Q).
  { rewrite <- pow2_add. replace (e + - e) with 0 by lia. reflexivity. }
  rewrite (pow2_nonneg_Z (- e)) in E by lia.
  assert (N : ~ (inject_Z (2 ^ (- e)) == 0)%Q).
  { intro C. unfold Qeq in C. cbn in C. lia. }
  setoid_replace (pow2 e) with (/ inject_Z (2 ^ (- e)))%Q.
  - unfold Qinv, inject_Z. cbn [Qnum Qden].
    destruct (2 ^ (- e)) as [| p | p] eqn:Ep; try lia. reflexivity.
  - apply (Qmult_inj_r _ _ (inject_Z (2 ^ (- e))) N).
    rewrite E. rewrite Qmult_comm. rewrite Qmult_inv_r by exact N. reflexivity.
Qed.

Lemma to_Q_finite (s : bool) (m : positive) (e : Z) :
  (Num.to_Q (S754_finite s m e) == inject_Z (Num.signed s m) * pow2 e)%Q.
Proof.
  unfold Num.to_Q. destruct (Z.leb_spec 0 e) as [He | He].
  - rewrite pow2_nonneg_Z by exact He. rewrite <- inject_Z_mult. reflexivity.
  - rewrite pow2_neg_Z by exact He.
    unfold Qeq, Qmult, inject_Z. cbn [Qnum Qden]. lia.
Qed.

Lemma pow2_Z (K : Z) : 0 <= K -> (inject_Z (2 ^ K) == pow2 K)%Q.
Proof. intro H. symmetry. apply pow2_nonneg_Z. exact H. Qed.

Lemma pow2_le (a b : Z) : a <= b -> (pow2 a <= pow2 b)%Q.
Proof.
  intro H. replace b with (a + (b - a)) by lia. rewrite pow2_add.
  rewrite <- (Qmult_1_r (pow2 a)) at 1.
  apply Qmult_le_l; [apply pow2_pos |].
  rewrite pow2_nonneg_Z by lia. change 1%Q with (inject_Z 1).
  rewrite <- Zle_Qle. assert (0 < 2 ^ (b - a)) by (apply Z.pow_pos_nonneg; lia). lia.
Qed.

Lemma pow2_succ (a : Z) : (pow2 (a + 1) == 2 * pow2 a)%Q.
Proof. rewrite pow2_add. change (pow2 1) with 2%Q. ring. Qed.

(** The value of what [binary_round_aux] returns. *)
Lemma binary_round_aux_value (sx : bool) (mx ex num den : Z) :
  0 <= mx -> 0 <= num < den -> Zdigits2 mx + ex <= 970 ->
  let K := Z.max (fexp64 (Zdigits2 mx + ex) - ex) 0 in
  let m2 := round_nearest_even (mx / 2 ^ K)
              (loc_of ((mx mod 2 ^ K) * den + num) (2 ^ K * den)) in
  Num.is_finite (binary_round_aux 53 1024 sx mx ex (loc_of num den)) = true /\
  small_mantissa (binary_round_aux 53 1024 sx mx ex (loc_of num den)) /\
  (Num.to_Q (binary_round_aux 53 1024 sx mx ex (loc_of num den))
   == inject_Z (cond_Zopp sx m2) * pow2 (ex + K))%Q.
Proof.
  intros Hm Hn HD K m2.
  destruct (binary_round_aux_spec sx mx ex num den Hm Hn HD)
    as [[Hz ->] | (mf & ef & -> & Hsm & [[Hmf Hef] | [Hmf Hef]])];
    fold K in Hz || fold K in Hmf, Hef; fold m2 in Hz || fold m2 in Hmf.
  - split; [reflexivity |]. split; [exact I |]. rewrite Hz. destruct sx; cbn; ring.
  - split; [reflexivity |]. split; [exact Hsm |]. rewrite to_Q_finite. unfold Num.signed.
    rewrite Hmf, Hef. reflexivity.
  - split; [reflexivity |]. split; [exact Hsm |]. rewrite to_Q_finite. unfold Num.signed.
    rewrite Hef, pow2_succ, <- Hmf.
    destruct sx; cbn [cond_Zopp];
      rewrite ?inject_Z_opp, ?inject_Z_mult; change (inject_Z 2) with 2%Q; ring.
Qed.

(** The product of two non-negative finite numbers: the value, and the
    rounding error. *)
Lemma mul_value (mx my : positive) (ex ey : Z) :
  Zdigits2 (Zpos (mx * my)) + (ex + ey) <= 970 ->
  let m := Zpos (mx * my) in
  let e := ex + ey in
  let K := Z.max (fexp64 (Zdigits2 m + e) - e) 0 in
  exists m2 : Z,
    Num.is_finite (Num.mul (S754_finite false mx ex) (S754_finite false my ey)) = true /\
    small_mantissa (Num.mul (S754_finite false mx ex) (S754_finite false my ey)) /\
    (Num.to_Q (Num.mul (S754_finite false mx ex) (S754_finite false my ey))
     == inject_Z m2 * pow2 (e + K))%Q /\
    0 <= m2 /\
    2 * Z.abs (m2 * 2 ^ K - m) <= 2 ^ K /\
    (m mod 2 ^ K = 0 -> m2 * 2 ^ K = m).
Proof.
  intros HD m e K.
  assert (HK : 0 <= K) by (unfold K; lia).
  assert (Hp : 0 < 2 ^ K) by (apply Z.pow_pos_nonneg; lia).
  assert (Hb : 0 <= (m mod 2 ^ K) * 1 + 0 < 2 ^ K * 1).
  { pose proof (Z.mod_pos_bound m (2 ^ K) Hp). lia. }
  exists (round_nearest_even (m / 2 ^ K) (loc_of ((m mod 2 ^ K) * 1 + 0) (2 ^ K * 1))).
  destruct (binary_round_aux_value false m e 0 1) as (Hf & Hsm & Hv);
    [unfold m; lia | lia | exact HD |].
  fold K in Hv. cbn [cond_Zopp] in Hv.
  destruct (round_nearest_even_loc (m / 2 ^ K) _ _ Hb) as (Hr1 & Hr2 & Hr3).
  assert (Hdm : m = 2 ^ K * (m / 2 ^ K) + m mod 2 ^ K) by (apply Z.div_mod; lia).
  assert (Hm1 : 0 <= m / 2 ^ K) by (apply Z.div_pos; unfold m; lia).
  split; [exact Hf |]. split; [exact Hsm |]. split; [exact Hv |]. split; [lia |]. split.
  - replace (round_nearest_even (m / 2 ^ K) (loc_of ((m mod 2 ^ K) * 1 + 0) (2 ^ K * 1))
             * 2 ^ K - m)
      with (round_nearest_even (m / 2 ^ K) (loc_of ((m mod 2 ^ K) * 1 + 0) (2 ^ K * 1))
            * (2 ^ K * 1) - (m / 2 ^ K * (2 ^ K * 1) + ((m mod 2 ^ K) * 1 + 0))) by lia.
    lia.
  - intro Hz. rewrite Hr3 by lia. lia.
Qed.

Lemma u64_pow2 : (u64 == pow2 (-53))%Q.
Proof. reflexivity. Qed.

Lemma Qabs_scale (z : Z) (q : Q) :
  (0 <= q)%Q -> (Qabs (inject_Z z * q) == inject_Z (Z.abs z) * q)%Q.
Proof.
  intro Hq. rewrite Qabs_Qmult. rewrite (Qabs_pos q Hq).
  apply Qmult_comp; [| reflexivity].
  unfold Qabs, inject_Z. cbn. reflexivity.
Qed.

Lemma mul_error (mx my : positive) (ex ey : Z) :
  Zdigits2 (Zpos (mx * my)) + (ex + ey) <= 970 ->
  let x := S754_finite false mx ex in
  let y := S754_finite false my ey in
  Num.is_finite (Num.mul x y) = true /\
  small_mantissa (Num.mul x y) /\
  (0 <= Num.to_Q (Num.mul x y))%Q /\
  (Qabs (Num.to_Q (Num.mul x y) - Num.to_Q x * Num.to_Q y)
   <= u64 * (Num.to_Q x * Num.to_Q y) + eta64)%Q.
Proof.
  intros HD x y.
  destruct (mul_value mx my ex ey HD) as (m2 & Hf & Hsm & Hv & Hm2 & Herr & Hex).
  cbv zeta in Hv, Herr, Hex.
  set (m := Zpos (mx * my)) in *. set (e := ex + ey) in *.
  set (K := Z.max (fexp64 (Zdigits2 m + e) - e) 0) in *.
  fold x y in Hf, Hv, Hsm.
  assert (HK : 0 <= K) by (unfold K; lia).
  assert (Ht : (Num.to_Q x * Num.to_Q y == inject_Z m * pow2 e)%Q).
  { unfold x, y. rewrite !to_Q_finite. unfold Num.signed, cond_Zopp, m, e.
    rewrite pow2_add, Pos2Z.inj_mul, inject_Z_mult. ring. }
  assert (Hpe : (0 < pow2 e)%Q) by apply pow2_pos.
  assert (Htpos : (0 <= inject_Z m * pow2 e)%Q).
  { apply Qmult_le_0_compat; [| apply Qlt_le_weak, Hpe].
    change 0%Q with (inject_Z 0). rewrite <- Zle_Qle. unfold m. lia. }
  split; [exact Hf |]. split; [exact Hsm |]. split.
  { rewrite Hv. apply Qmult_le_0_compat; [| apply Qlt_le_weak, pow2_pos].
    change 0%Q with (inject_Z 0). rewrite <- Zle_Qle. exact Hm2. }
  assert (Hdiff : (Num.to_Q (Num.mul x y) - Num.to_Q x * Num.to_Q y
                   == inject_Z (m2 * 2 ^ K - m) * pow2 e)%Q).
  { rewrite Hv, Ht, pow2_add, <- (pow2_Z K HK).
    unfold Z.sub. rewrite inject_Z_plus, inject_Z_opp, inject_Z_mult. ring. }
  rewrite Hdiff, Ht. rewrite Qabs_scale by (apply Qlt_le_weak, Hpe).
  assert (Heta : (0 < eta64)%Q) by apply pow2_pos.
  assert (Hu : (0 < u64)%Q) by reflexivity.
  destruct (Z.eq_dec K 0) as [K0 | KN].
  - (* no shift: the product is exact *)
    rewrite K0 in Hex. change (2 ^ 0) with 1 in Hex.
    rewrite Z.mod_1_r in Hex. specialize (Hex eq_refl).
    rewrite K0. change (2 ^ 0) with 1.
    replace (m2 * 1 - m) with 0 by lia.
    change (Z.abs 0) with 0. change (inject_Z 0) with 0%Q.
    rewrite Qmult_0_l.
    assert ((0 <= u64 * (inject_Z m * pow2 e))%Q)
      by (apply Qmult_le_0_compat; [apply Qlt_le_weak, Hu | exact Htpos]).
    lra.
  - (* one half of the last place *)
    assert (HKp : 0 < K) by lia.
    assert (Hek : e + K = fexp64 (Zdigits2 m + e)) by (unfold K in *; lia).
    assert (Hhalf : (inject_Z (Z.abs (m2 * 2 ^ K - m)) * pow2 e <= pow2 (e + K - 1))%Q).
    { replace (e + K - 1) with (e + (K - 1)) by lia.
      rewrite pow2_add, <- (pow2_Z (K - 1)) by lia.
      rewrite (Qmult_comm (pow2 e)).
      apply Qmult_le_compat_r; [| apply Qlt_le_weak, Hpe].
      rewrite <- Zle_Qle.
      replace K with (Z.succ (K - 1)) in Herr at 2 by lia.
      rewrite Z.pow_succ_r in Herr by lia. lia. }
    apply (Qle_trans _ _ _ Hhalf).
    unfold fexp64 in Hek.
    destruct (Z.le_gt_cases (-1074) (Zdigits2 m + e - 53)) as [Hn | Hs].
    + (* normal range *)
      rewrite Z.max_l in Hek by lia.
      assert (Hlow : (pow2 (Zdigits2 m + e - 1) <= inject_Z m * pow2 e)%Q).
      { replace (Zdigits2 m + e - 1) with ((Zdigits2 m - 1) + e) by lia.
        rewrite pow2_add.
        apply Qmult_le_compat_r; [| apply Qlt_le_weak, Hpe].
        assert (Hdig : 1 <= Zdigits2 m) by (unfold m; cbn; lia).
        rewrite <- pow2_Z by lia. rewrite <- Zle_Qle.
        destruct (Zdigits2_bounds m) as [Hl _]; [unfold m; lia | exact Hl]. }
      assert (Hsplit : (pow2 (e + K - 1) == u64 * pow2 (Zdigits2 m + e - 1))%Q).
      { rewrite u64_pow2, <- pow2_add.
        replace (e + K - 1) with (-53 + (Zdigits2 m + e - 1)) by lia. reflexivity. }
      rewrite Hsplit.
      assert ((u64 * pow2 (Zdigits2 m + e - 1) <= u64 * (inject_Z m * pow2 e))%Q).
      { apply Qmult_le_l; assumption. }
      lra.
    + (* subnormal range *)
      rewrite Z.max_r in Hek by lia.
      replace (e + K - 1) with (-1075) by lia. fold eta64.
      assert ((0 <= u64 * (inject_Z m * pow2 e))%Q)
        by (apply Qmult_le_0_compat; [apply Qlt_le_weak, Hu | exact Htpos]).
      lra.
Qed.

(** *** Integers as numbers *)

Lemma digits2_pos_iter (p k : positive) :
  digits2_pos (Pos.iter xO p k) = (digits2_pos p + k)%positive.
Proof.
  induction k as [| k IH] using Pos.peano_ind.
  - cbn. lia.
  - rewrite Pos.iter_succ. cbn. rewrite IH. lia.
Qed.

Lemma Zpos_iter (p k : positive) :
  Zpos (Pos.iter xO p k) = Zpos p * 2 ^ Zpos k.
Proof.
  induction k as [| k IH] using Pos.peano_ind.
  - cbn. lia.
  - rewrite Pos.iter_succ. rewrite Pos2Z.inj_succ, Z.pow_succ_r by lia.
    rewrite Pos2Z.inj_xO, IH. lia.
Qed.

(** A positive integer below [2^53] is represented exactly, with a
    mantissa of 53 digits. *)
Lemma of_Z_canonical (n : Z) :
  0 < n < 2 ^ 53 ->
  exists m : positive,
    Num.of_Z n = S754_finite false m (Zdigits2 n - 53) /\
    Zpos m = n * 2 ^ (53 - Zdigits2 n) /\
    Zdigits2 (Zpos m) = 53.
Proof.
  intro Hn. destruct n as [| p | p]; try lia.
  assert (Hd : Zpos (digits2_pos p) <= 53).
  { apply (Zdigits2_le (Zpos p) 53); lia. }
  unfold Num.of_Z, binary_normalize, binary_round. cbn [Zdigits2].
  assert (Hf : fexp Num.prec Num.emax (Zpos (digits2_pos p) + 0) = Zpos (digits2_pos p) - 53).
  { unfold fexp, emin, Num.prec, Num.emax. lia. }
  rewrite Hf. unfold shl_align.
  destruct (Zpos (digits2_pos p) - 53 - 0) as [| k | k] eqn:Hk; [| lia |].
  - exists p. replace (Zpos (digits2_pos p) - 53) with 0 by lia.
    replace (53 - Zpos (digits2_pos p)) with 0 by lia.
    split; [| split; [cbn; lia | cbn [Zdigits2]; lia]].
    unfold binary_round_aux, shr_fexp. cbn [Zdigits2].
    assert (Hf0 : fexp Num.prec Num.emax (Zpos (digits2_pos p) + 0) - 0 = 0).
    { rewrite Hf. lia. }
    rewrite Hf0. cbn [shr shr_record_of_loc shr_m loc_of_shr_record round_nearest_even].
    cbn [Zdigits2]. rewrite Hf0. cbn. reflexivity.
  - exists (Pos.iter xO p k).
    split; [| split].
    + unfold binary_round_aux, shr_fexp. cbn [Zdigits2].
      rewrite digits2_pos_iter.
      assert (Hf0 : fexp Num.prec Num.emax
                      (Zpos (digits2_pos p + k) + (Zpos (digits2_pos p) - 53))
                    - (Zpos (digits2_pos p) - 53) = 0).
      { unfold fexp, emin, Num.prec, Num.emax. lia. }
      rewrite Hf0. cbn [shr shr_record_of_loc shr_m loc_of_shr_record round_nearest_even].
      cbn [Zdigits2]. rewrite digits2_pos_iter, Hf0.
      cbn [shr shr_m].
      destruct (Z.leb_spec (Zpos (digits2_pos p) - 53) (Num.emax - Num.prec)) as [_ | H];
        [reflexivity | unfold Num.emax, Num.prec in H; lia].
    + rewrite Zpos_iter. f_equal. f_equal. lia.
    + cbn [Zdigits2]. rewrite digits2_pos_iter. lia.
Qed.

Lemma of_Z_value (n : Z) :
  0 < n < 2 ^ 53 -> (Num.to_Q (Num.of_Z n) == inject_Z n)%Q.
Proof.
  intro Hn. destruct (of_Z_canonical n Hn) as (m & -> & Hm & _).
  rewrite to_Q_finite. unfold Num.signed, cond_Zopp. rewrite Hm.
  assert (Hd : Zdigits2 n <= 53) by (apply Zdigits2_le; lia).
  rewrite inject_Z_mult, (pow2_Z (53 - Zdigits2 n)) by lia.
  rewrite <- Qmult_assoc, <- pow2_add.
  replace (53 - Zdigits2 n + (Zdigits2 n - 53)) with 0 by lia.
  change (pow2 0) with 1%Q. ring.
Qed.

(** *** Quotients *)

Lemma new_location_loc (nb k : Z) :
  0 <= k < nb -> new_location nb k = loc_of k nb.
Proof.
  intro H. unfold new_location, new_location_even, new_location_odd, loc_of.
  destruct (Z.even nb) eqn:Ev; [reflexivity |].
  destruct (Z.eqb_spec k 0) as [E | E]; [reflexivity |].
  assert (Hodd : Z.odd nb = true) by (rewrite <- Z.negb_even, Ev; reflexivity).
  apply Z.odd_spec in Hodd. destruct Hodd as [h Hh].
  destruct (Z.compare_spec (2 * k + 1) nb) as [C | C | C];
    destruct (Z.compare_spec (2 * k) nb) as [C' | C' | C']; try reflexivity; lia.
Qed.

(** The quotient of two positive numbers with mantissas of 53 digits. *)
Lemma div_value (m1 m2 : positive) (e1 e2 : Z) :
  Zdigits2 (Zpos m1) = 53 -> Zdigits2 (Zpos m2) = 53 ->
  -900 <= e1 - e2 <= 900 ->
  exists M K : Z,
    Num.is_finite (Num.div (S754_finite false m1 e1) (S754_finite false m2 e2)) = true /\
    (Num.to_Q (Num.div (S754_finite false m1 e1) (S754_finite false m2 e2))
     == inject_Z M * pow2 (e1 - e2 - 53 + K))%Q /\
    0 <= K <= 1 /\ 2 ^ 52 <= M /\
    2 * Z.abs (M * 2 ^ K * Zpos m2 - Zpos m1 * 2 ^ 53) <= 2 ^ K * Zpos m2 /\
    (K = 1 -> Zpos m2 <= Zpos m1) /\
    (m1 = m2 -> M * 2 ^ K = 2 ^ 53).
Proof.
  intros Hd1 Hd2 He.
  unfold Num.div, SFdiv, SFdiv_core_binary. rewrite Hd1, Hd2.
  change (fexp Num.prec Num.emax) with fexp64.
  replace (Z.min (fexp64 (53 + e1 - (53 + e2))) (e1 - e2)) with (e1 - e2 - 53)
    by (unfold fexp64; lia).
  replace (e1 - e2 - (e1 - e2 - 53)) with 53 by lia.
  cbv beta iota zeta.
  rewrite Z.shiftl_mul_pow2 by lia.
  pose proof (Z_div_mod (Zpos m1 * 2 ^ 53) (Zpos m2) ltac:(lia)) as Hdm.
  destruct (Z.div_eucl (Zpos m1 * 2 ^ 53) (Zpos m2)) as [q r].
  destruct Hdm as [Hq Hr].
  destruct (Zdigits2_bounds (Zpos m1)) as [Hl1 Hu1]; [lia |].
  destruct (Zdigits2_bounds (Zpos m2)) as [Hl2 Hu2]; [lia |].
  rewrite Hd1 in Hl1, Hu1. rewrite Hd2 in Hl2, Hu2.
  change (2 ^ (53 - 1)) with (2 ^ 52) in Hl1, Hl2.
  assert (Hq1 : 2 ^ 52 <= q) by nia.
  assert (Hq2 : q < 2 ^ 54).
  { change (2 ^ 54) with (2 * 2 ^ 53). nia. }
  rewrite (new_location_loc _ _ Hr).
  assert (Hdq : 53 <= Zdigits2 q <= 54).
  { split.
    - assert (52 < Zdigits2 q) by (apply Zdigits2_ge; lia). lia.
    - apply Zdigits2_le; lia. }
  destruct (binary_round_aux_value false q (e1 - e2 - 53) r (Zpos m2))
    as (Hf & _ & Hv); [lia | exact Hr | lia |].
  set (K := Z.max (fexp64 (Zdigits2 q + (e1 - e2 - 53)) - (e1 - e2 - 53)) 0) in *.
  assert (HK : K = Zdigits2 q - 53) by (unfold K, fexp64; lia).
  assert (Hp : 0 < 2 ^ K) by (apply Z.pow_pos_nonneg; lia).
  assert (Hb : 0 <= (q mod 2 ^ K) * Zpos m2 + r < 2 ^ K * Zpos m2).
  { pose proof (Z.mod_pos_bound q (2 ^ K) Hp). nia. }
  destruct (round_nearest_even_loc (q / 2 ^ K) _ _ Hb) as (Hr1 & Hr2 & Hr3).
  set (M := round_nearest_even (q / 2 ^ K)
              (loc_of ((q mod 2 ^ K) * Zpos m2 + r) (2 ^ K * Zpos m2))) in *.
  assert (Hqd : q = 2 ^ K * (q / 2 ^ K) + q mod 2 ^ K) by (apply Z.div_mod; lia).
  exists M, K. cbn [cond_Zopp] in Hv.
  split; [exact Hf |]. split; [exact Hv |]. split; [lia |].
  assert (Hq52 : 2 ^ 52 <= q / 2 ^ K).
  { apply Z.div_le_lower_bound; [lia |].
    destruct (Z.eq_dec K 0) as [K0 | K1].
    - rewrite K0. change (2 ^ 0) with 1. lia.
    - assert (HK1 : K = 1) by lia.
      assert (53 < Zdigits2 q) by lia.
      destruct (Zdigits2_bounds q) as [Hlq _]; [lia |].
      assert (2 ^ 53 <= 2 ^ (Zdigits2 q - 1)) by (apply Z.pow_le_mono_r; lia).
      rewrite HK1. change (2 ^ 1 * 2 ^ 52) with (2 ^ 53). lia. }
  split; [lia |]. split.
  - replace (M * 2 ^ K * Zpos m2 - Zpos m1 * 2 ^ 53)
      with (M * (2 ^ K * Zpos m2)
            - (q / 2 ^ K * (2 ^ K * Zpos m2) + ((q mod 2 ^ K) * Zpos m2 + r))).
    + exact Hr2.
    + rewrite Hq. rewrite Hqd at 3. ring.
  - split.
    + intro K1.
      assert (2 ^ 53 <= q).
      { assert (Zdigits2 q = 54) by lia.
        destruct (Zdigits2_bounds q) as [Hlq _]; [lia |].
        replace (Zdigits2 q - 1) with 53 in Hlq by lia. exact Hlq. }
      destruct (Z.le_gt_cases (Zpos m2) (Zpos m1)) as [G | G]; [exact G |].
      exfalso.
      assert (Zpos m2 * 2 ^ 53 <= Zpos m2 * q) by (apply Z.mul_le_mono_nonneg_l; lia).
      assert (Zpos m1 * 2 ^ 53 < Zpos m2 * 2 ^ 53) by (apply Z.mul_lt_mono_pos_r; lia).
      lia.
    + intro Em. subst m2.
      assert (Eq : q = 2 ^ 53 /\ r = 0).
      { assert (E0 : Zpos m1 * 2 ^ 53 = Zpos m1 * q + r) by lia.
        assert (E1 : q = 2 ^ 53).
        { destruct (Z.lt_trichotomy q (2 ^ 53)) as [L | [E | G]];
            [exfalso | exact E | exfalso].
          - assert (Zpos m1 * q <= Zpos m1 * (2 ^ 53 - 1))
              by (apply Z.mul_le_mono_nonneg_l; lia).
            lia.
          - assert (Zpos m1 * (2 ^ 53 + 1) <= Zpos m1 * q)
              by (apply Z.mul_le_mono_nonneg_l; lia).
            lia. }
        split; [exact E1 |]. rewrite E1 in E0. lia. }
      destruct Eq as [Eq Er].
      assert (K1 : K = 1).
      { rewrite HK. assert (53 < Zdigits2 q) by (apply Zdigits2_ge; lia). lia. }
      assert (Hz : (q mod 2 ^ K) * Zpos m1 + r = 0).
      { rewrite K1, Eq, Er. reflexivity. }
      specialize (Hr3 Hz). rewrite Hr3, K1, Eq. reflexivity.
Qed.

Lemma positive_finite_shape (x : Num.number) :
  Num.is_finite x = true -> (0 < Num.to_Q x)%Q ->
  exists m e, x = S754_finite false m e.
Proof.
  intros Hf Hp. destruct x as [s | s | | s m e]; try discriminate Hf.
  - cbn in Hp. discriminate Hp.
  - destruct s; [| exists m, e; reflexivity].
    rewrite to_Q_finite in Hp. unfold Num.signed, cond_Zopp in Hp.
    exfalso. pose proof (pow2_pos e) as He.
    assert ((inject_Z (- Zpos m) * pow2 e <= 0)%Q).
    { setoid_replace (inject_Z (- Zpos m) * pow2 e)%Q
        with (- (inject_Z (Zpos m) * pow2 e))%Q by (rewrite inject_Z_opp; ring).
      assert ((0 <= inject_Z (Zpos m) * pow2 e)%Q).
      { apply Qmult_le_0_compat; [| apply Qlt_le_weak, He].
        change 0%Q with (inject_Z 0). rewrite <- Zle_Qle. lia. }
      lra. }
    lra.
Qed.

Lemma inject_Z_pos (z : Z) : 0 < z -> (0 < inject_Z z)%Q.
Proof. intro H. change 0%Q with (inject_Z 0). rewrite <- Zlt_Qlt. exact H. Qed.

Lemma inject_Z_nonneg (z : Z) : 0 <= z -> (0 <= inject_Z z)%Q.
Proof. intro H. change 0%Q with (inject_Z 0). rewrite <- Zle_Qle. exact H. Qed.

(** The quotient of two positive integers below [2^53]: a positive
    number, off by at most the relative error [2^-53]. *)
Lemma div_error (n r : Z) :
  0 < n < 2 ^ 53 -> 0 < r < 2 ^ 53 ->
  (exists m e, Num.div (Num.of_Z n) (Num.of_Z r) = S754_finite false m e) /\
  (Qabs (Num.to_Q (Num.div (Num.of_Z n) (Num.of_Z r)) * inject_Z r - inject_Z n)
   <= u64 * inject_Z n)%Q.
Proof.
  intros Hn Hr.
  destruct (of_Z_canonical n Hn) as (m1 & E1 & Hm1 & Hd1).
  destruct (of_Z_canonical r Hr) as (m2 & E2 & Hm2 & Hd2).
  pose proof (of_Z_value n Hn) as Vn. pose proof (of_Z_value r Hr) as Vr.
  rewrite E1 in Vn. rewrite E2 in Vr. rewrite E1, E2.
  set (e1 := Zdigits2 n - 53) in *. set (e2 := Zdigits2 r - 53) in *.
  assert (Hdn : 1 <= Zdigits2 n <= 53).
  { split; [destruct n; cbn; lia | apply Zdigits2_le; lia]. }
  assert (Hdr : 1 <= Zdigits2 r <= 53).
  { split; [destruct r; cbn; lia | apply Zdigits2_le; lia]. }
  destruct (div_value m1 m2 e1 e2 Hd1 Hd2) as (M & K & Hf & Hv & HK & HM & Herr & HK1 & _).
  { unfold e1, e2. lia. }
  set (q := Num.div (S754_finite false m1 e1) (S754_finite false m2 e2)) in *.
  assert (Hpos : (0 < Num.to_Q q)%Q).
  { rewrite Hv. apply Qmult_lt_0_compat; [| apply pow2_pos].
    apply inject_Z_pos. assert (0 < 2 ^ 52) by reflexivity. lia. }
  split; [apply positive_finite_shape; assumption |].
  rewrite to_Q_finite in Vn, Vr. unfold Num.signed, cond_Zopp in Vn, Vr.
  rewrite <- Vn, <- Vr, Hv.
  assert (Hp : 0 < 2 ^ K) by (apply Z.pow_pos_nonneg; lia).
  assert (Hdiff : (inject_Z M * pow2 (e1 - e2 - 53 + K) * (inject_Z (Zpos m2) * pow2 e2)
                   - inject_Z (Zpos m1) * pow2 e1
                   == inject_Z (M * 2 ^ K * Zpos m2 - Zpos m1 * 2 ^ 53) * pow2 (e1 - 53))%Q).
  { assert (Hpe1 : (pow2 e1 == pow2 (e1 - 53) * pow2 53)%Q).
    { rewrite <- pow2_add. replace (e1 - 53 + 53) with e1 by lia. reflexivity. }
    assert (Hpq : (pow2 (e1 - e2 - 53 + K) * pow2 e2 == pow2 (e1 - 53) * pow2 K)%Q).
    { rewrite <- !pow2_add. replace (e1 - e2 - 53 + K + e2) with (e1 - 53 + K) by lia.
      reflexivity. }
    setoid_replace (inject_Z M * pow2 (e1 - e2 - 53 + K) * (inject_Z (Zpos m2) * pow2 e2))%Q
      with (inject_Z M * inject_Z (Zpos m2) * (pow2 (e1 - e2 - 53 + K) * pow2 e2))%Q by ring.
    rewrite Hpq, Hpe1.
    replace (M * 2 ^ K * Zpos m2 - Zpos m1 * 2 ^ 53)
      with (M * 2 ^ K * Zpos m2 + - (Zpos m1 * 2 ^ 53)) by lia.
    rewrite inject_Z_plus, inject_Z_opp, !inject_Z_mult.
    rewrite (pow2_Z K) by lia. rewrite (pow2_Z 53) by lia. ring. }
  rewrite Hdiff. rewrite Qabs_scale by (apply Qlt_le_weak, pow2_pos).
  assert (Hrhs : (u64 * (inject_Z (Zpos m1) * pow2 e1)
                  == inject_Z (Zpos m1) * pow2 (e1 - 53))%Q).
  { rewrite u64_pow2. replace (e1 - 53) with (-53 + e1) by lia.
    rewrite pow2_add. ring. }
  rewrite Hrhs.
  apply Qmult_le_compat_r; [| apply Qlt_le_weak, pow2_pos].
  rewrite <- Zle_Qle.
  destruct (Zdigits2_bounds (Zpos m1)) as [Hl1 Hu1]; [lia |].
  destruct (Zdigits2_bounds (Zpos m2)) as [Hl2 Hu2]; [lia |].
  rewrite Hd1 in Hl1, Hu1. rewrite Hd2 in Hl2, Hu2.
  change (2 ^ (53 - 1)) with (2 ^ 52) in Hl1, Hl2.
  assert (H53 : 2 ^ 53 = 2 * 2 ^ 52) by reflexivity.
  destruct (Z.eq_dec K 0) as [K0 | KN].
  - rewrite K0 in *. change (2 ^ 0) with 1 in *. lia.
  - assert (K1 : K = 1) by lia. specialize (HK1 K1).
    rewrite K1 in *. change (2 ^ 1) with 2 in *. lia.
Qed.

(** *** Small integers and [Math.round] *)

Lemma digits2_pos_small (p : positive) :
  Zpos p < 2 ^ 53 -> Zpos (digits2_pos p) <= 53.
Proof.
  intro Hp. pose proof (digits2_pos_lower p) as Hl.
  destruct (Z.le_gt_cases (Zpos (digits2_pos p)) 53) as [H | H]; [exact H |].
  assert (2 ^ 53 <= 2 ^ (Zpos (digits2_pos p) - 1)) by (apply Z.pow_le_mono_r; lia).
  lia.
Qed.

Lemma binary_round_small (s : bool) (p : positive) :
  Zpos (digits2_pos p) <= 53 ->
  exists m e,
    binary_round Num.prec Num.emax s p 0 = S754_finite s m e /\ e <= 0 /\
    Zpos m = Zpos p * 2 ^ (- e).
Proof.
  intro Hd. unfold binary_round.
  assert (Hf : fexp Num.prec Num.emax (Zpos (digits2_pos p) + 0) = Zpos (digits2_pos p) - 53).
  { unfold fexp, emin, Num.prec, Num.emax. lia. }
  rewrite Hf. unfold shl_align.
  destruct (Zpos (digits2_pos p) - 53 - 0) as [| k | k] eqn:Hk; [| lia |].
  - exists p, 0. split; [| split; [lia | cbn; lia]].
    unfold binary_round_aux, shr_fexp. cbn [Zdigits2].
    assert (Hf0 : fexp Num.prec Num.emax (Zpos (digits2_pos p) + 0) - 0 = 0).
    { rewrite Hf. lia. }
    rewrite Hf0. cbn [shr shr_record_of_loc shr_m loc_of_shr_record round_nearest_even].
    cbn [Zdigits2]. rewrite Hf0. cbn. reflexivity.
  - exists (Pos.iter xO p k), (Zpos (digits2_pos p) - 53).
    split; [| split; [lia |]].
    + unfold binary_round_aux, shr_fexp. cbn [Zdigits2].
      rewrite digits2_pos_iter.
      assert (Hf0 : fexp Num.prec Num.emax
                      (Zpos (digits2_pos p + k) + (Zpos (digits2_pos p) - 53))
                    - (Zpos (digits2_pos p) - 53) = 0).
      { unfold fexp, emin, Num.prec, Num.emax. lia. }
      rewrite Hf0. cbn [shr shr_record_of_loc shr_m loc_of_shr_record round_nearest_even].
      cbn [Zdigits2]. rewrite digits2_pos_iter, Hf0.
      cbn [shr shr_m].
      destruct (Z.leb_spec (Zpos (digits2_pos p) - 53) (Num.emax - Num.prec)) as [_ | H];
        [reflexivity | unfold Num.emax, Num.prec in H; lia].
    + rewrite Zpos_iter. f_equal. f_equal. lia.
Qed.

Lemma to_Q_scaled (s : bool) (m p : positive) (e : Z) :
  e <= 0 -> Zpos m = Zpos p * 2 ^ (- e) ->
  (Num.to_Q (S754_finite s m e) == inject_Z (Num.signed s p))%Q.
Proof.
  intros He Hm. unfold Num.to_Q.
  destruct (Z.leb_spec 0 e) as [H0 | Hneg].
  - assert (e = 0) by lia. subst e. cbn in Hm.
    replace (Num.signed s m * 2 ^ 0) with (Num.signed s p); [reflexivity |].
    unfold Num.signed, cond_Zopp. destruct s; lia.
  - assert (Hpow : 0 < 2 ^ (- e)) by (apply Z.pow_pos_nonneg; lia).
    unfold Qeq. cbn [Qnum Qden inject_Z]. rewrite Z2Pos.id by exact Hpow.
    unfold Num.signed, cond_Zopp. destruct s; lia.
Qed.

Lemma of_Z_exact (n : Z) :
  n <> 0 -> Z.abs n < 2 ^ 53 ->
  Num.is_finite (Num.of_Z n) = true /\ (Num.to_Q (Num.of_Z n) == inject_Z n)%Q.
Proof.
  intros Hn Hb. unfold Num.of_Z, binary_normalize.
  destruct n as [| p | p]; [contradiction | |].
  - destruct (binary_round_small false p) as (m & e & Hr & He & Hm).
    { apply digits2_pos_small. lia. }
    rewrite Hr. split; [reflexivity |]. apply (to_Q_scaled false m p e He Hm).
  - destruct (binary_round_small true p) as (m & e & Hr & He & Hm).
    { apply digits2_pos_small. lia. }
    rewrite Hr. split; [reflexivity |]. apply (to_Q_scaled true m p e He Hm).
Qed.

Lemma Qfloor_half (z : Z) : Qfloor (inject_Z z + (1 # 2)) = z.
Proof.
  unfold Qfloor, Qplus, inject_Z. cbn [Qnum Qden].
  replace (z * 2 + 1 * 1) with (1 + z * 2) by lia.
  rewrite Z.div_add by lia. reflexivity.
Qed.

(** [Math.round] is the floor of [x + 1/2]. *)
Lemma round_floor (x : Num.number) :
  Num.is_finite x = true ->
  (Qabs (Num.to_Q x) < inject_Z (2 ^ 52))%Q ->
  Num.is_finite (Num.round x) = true /\
  (Num.to_Q (Num.round x) == inject_Z (Qfloor (Num.to_Q x + (1 # 2))))%Q.
Proof.
  intros Hfin Hb. destruct x as [s | s | | s m e]; try discriminate Hfin.
  - split; reflexivity.
  - unfold Num.round. destruct (Z.leb_spec 0 e) as [He | He].
    + split; [reflexivity |]. unfold Num.to_Q.
      destruct (Z.leb_spec 0 e) as [_ | H]; [| lia].
      rewrite Qfloor_half. reflexivity.
    + cbv zeta.
      assert (Hpow : 0 < 2 ^ (- e)) by (apply Z.pow_pos_nonneg; lia).
      assert (Hfl : Qfloor (Num.to_Q (S754_finite s m e) + (1 # 2))
                    = (2 * Num.signed s m + 2 ^ (- e)) / 2 ^ (- e + 1)).
      { unfold Num.to_Q. destruct (Z.leb_spec 0 e) as [H | _]; [lia |].
        unfold Qfloor, Qplus. cbn [Qnum Qden].
        rewrite Pos2Z.inj_mul, Z2Pos.id by exact Hpow.
        rewrite Z.pow_add_r by lia. f_equal; lia. }
      rewrite Hfl.
      set (n := (2 * Num.signed s m + 2 ^ (- e)) / 2 ^ (- e + 1)) in *.
      assert (Habs : Z.abs n < 2 ^ 53).
      { pose proof (Qfloor_le (Num.to_Q (S754_finite s m e) + (1 # 2))) as H1.
        pose proof (Qlt_floor (Num.to_Q (S754_finite s m e) + (1 # 2))) as H2.
        rewrite Hfl in H1, H2. fold n in H1, H2.
        apply Qabs_Qlt_condition in Hb. destruct Hb as [Hb1 Hb2].
        assert (G1 : (inject_Z n < inject_Z (2 ^ 52 + 1))%Q).
        { rewrite inject_Z_plus. change (inject_Z 1) with 1%Q.
          set (B := inject_Z (2 ^ 52)) in *.
          set (q := Num.to_Q (S754_finite s m e)) in *.
          clearbody B q n. lra. }
        assert (G2 : (inject_Z (- 2 ^ 52 - 1) < inject_Z (n + 1))%Q).
        { unfold Z.sub. rewrite inject_Z_plus, inject_Z_opp.
          change (inject_Z (- (1))) with (- (1))%Q.
          set (B := inject_Z (2 ^ 52)) in *.
          set (q := Num.to_Q (S754_finite s m e)) in *.
          set (n1 := inject_Z (n + 1)) in *.
          clearbody B q n1. lra. }
        rewrite <- Zlt_Qlt in G1, G2.
        change (2 ^ 53) with (2 ^ 52 * 2). lia. }
      destruct n as [| p | p] eqn:En.
      * split; reflexivity.
      * apply of_Z_exact; [discriminate | exact Habs].
      * apply of_Z_exact; [discriminate | exact Habs].
Qed.

(** [Math.round] moves a finite number by at most one half. *)
Lemma round_nearest (x : Num.number) :
  Num.is_finite x = true ->
  (Qabs (Num.to_Q x) < inject_Z (2 ^ 52))%Q ->
  (Num.to_Q x - (1 # 2) < Num.to_Q (Num.round x))%Q /\
  (Num.to_Q (Num.round x) <= Num.to_Q x + (1 # 2))%Q.
Proof.
  intros Hfin Hb. destruct (round_floor x Hfin Hb) as [_ Hv].
  pose proof (Qfloor_le (Num.to_Q x + (1 # 2))) as H1.
  pose proof (Qlt_floor (Num.to_Q x + (1 # 2))) as H2.
  rewrite inject_Z_plus in H2. change (inject_Z 1) with 1%Q in H2.
  rewrite <- Hv in H1, H2.
  set (q := Num.to_Q x) in *. set (n := Num.to_Q (Num.round x)) in *.
  clearbody q n. split; lra.
Qed.

(** A division by zero yields an infinity or [NaN], and neither a product
    with it nor [Math.round] brings the value back to a finite one. *)
Lemma scaled_by_zero_division (x a b : Num.number) :
  is_zero b = true ->
  Num.is_finite (Num.round (Num.mul x (Num.div a b))) = false.
Proof.
  intro Hb. destruct b as [sb | sb | | sb mb eb]; try discriminate Hb.
  destruct a as [sa | sa | | sa ma ea], x as [sx | sx | | sx mx ex]; reflexivity.
Qed.

Lemma at_least_one_truthy (x : Num.number) :
  Num.leb Num.one x = true -> Num.or_else x Num.one = x.
Proof.
  intro H. destruct x as [sx | sx | | sx mx ex]; try reflexivity.
  - destruct sx; discriminate H.
  - discriminate H.
Qed.

Lemma is_positive_not_zero (x : Num.number) :
  is_positive x = true -> is_zero x = false.
Proof. destruct x; [discriminate | reflexivity ..]. Qed.

(** ** The hotspot *)

Lemma handleImageClick_retouch (e : MouseEvent) (c s : AppState) :
  activeTab c = retouch ->
  let img := currentTarget e in
  let offsetX := Num.sub (clientX e) (rect_left img) in
  let offsetY := Num.sub (clientY e) (rect_top img) in
  handleImageClick e c s =
  (inl tt,
   withEditHotspot
     (Some {| pt_x := Num.round (Num.mul offsetX (Num.div (naturalWidth img) (clientWidth img)));
              pt_y := Num.round (Num.mul offsetY (Num.div (naturalHeight img) (clientHeight img))) |})
     (withDisplayHotspot (Some {| pt_x := offsetX; pt_y := offsetY |}) s)).
Proof. intro Ht. unfold handleImageClick. rewrite Ht. reflexivity. Qed.

(** Where the products are finite and below [2^52], the recorded
    coordinates are the integers [floor (product + 1/2)]: the nearest ones, a
    tie going up. *)
Lemma hotspot_is_nearest_integer (s : AppState) (e : MouseEvent) (h : Point) :
  activeTab s = retouch ->
  editHotspot (step s (Click e)) = Some h ->
  let img := currentTarget e in
  let productX :=
    Num.mul (Num.sub (clientX e) (rect_left img))
      (Num.div (naturalWidth img) (clientWidth img)) in
  let productY :=
    Num.mul (Num.sub (clientY e) (rect_top img))
      (Num.div (naturalHeight img) (clientHeight img)) in
  (Num.is_finite productX = true ->
   (Qabs (Num.to_Q productX) < inject_Z (2 ^ 52))%Q ->
   (Num.to_Q (pt_x h) == inject_Z (Qfloor (Num.to_Q productX + (1 # 2))))%Q) /\
  (Num.is_finite productY = true ->
   (Qabs (Num.to_Q productY) < inject_Z (2 ^ 52))%Q ->
   (Num.to_Q (pt_y h) == inject_Z (Qfloor (Num.to_Q productY + (1 # 2))))%Q).
Proof.
  intros Ht Hh img productX productY.
  unfold step, dispatch, run in Hh; cbn [handler] in Hh.
  rewrite (handleImageClick_retouch e s s Ht) in Hh. cbn in Hh.
  injection Hh as <-. cbn [pt_x pt_y].
  split; intros Hfin Hb.
  - apply (round_floor productX Hfin Hb).
  - apply (round_floor productY Hfin Hb).
Qed.

(** Where, moreover, the quotient and the product carry no rounding
    error, the coordinate is [floor (local * natural / rendered + 1/2)] over
    the rationals. *)
Lemma rounded_exact_product (local natural rendered : Num.number) :
  (0 < Num.to_Q rendered)%Q ->
  exact_div natural rendered ->
  exact_mul local (Num.div natural rendered) ->
  (Qabs (Num.to_Q (Num.mul local (Num.div natural rendered))) < inject_Z (2 ^ 52))%Q ->
  (Num.to_Q (Num.round (Num.mul local (Num.div natural rendered)))
   == inject_Z (Qfloor (Num.to_Q local * Num.to_Q natural / Num.to_Q rendered + (1 # 2))))%Q.
Proof.
  intros HR [_ Hd] [Hf Hm] Hb.
  destruct (round_floor _ Hf Hb) as [_ Hv]. rewrite Hv.
  assert (E : (Num.to_Q (Num.mul local (Num.div natural rendered))
               == Num.to_Q local * Num.to_Q natural / Num.to_Q rendered)%Q).
  { rewrite Hm, <- Hd. field. lra. }
  rewrite E. reflexivity.
Qed.

(** C5. A click in the retouch tab on an image with positive rendered
    dimensions records as natural-space hotspot the point that the mapper of
    the specification gives for the rendered-local point of the click, that
    is [round (localX * (naturalWidth / renderedWidth))] and likewise
    for [y], [round] being the nearest integer, and records the rendered-local
    point itself for the marker; on an 800x600 image shown at 400x300 the
    click at (100, 150) records (200, 300). *)
Theorem click_records_natural_hotspot :
  (forall (s : AppState) (e : MouseEvent),
      activeTab s = retouch ->
      let img := currentTarget e in
      is_positive (clientWidth img) = true ->
      is_positive (clientHeight img) = true ->
      let localX := Num.sub (clientX e) (rect_left img) in
      let localY := Num.sub (clientY e) (rect_top img) in
      let productX := Num.mul localX (Num.div (naturalWidth img) (clientWidth img)) in
      let productY := Num.mul localY (Num.div (naturalHeight img) (clientHeight img)) in
      editHotspot (step s (Click e)) =
        CoordinateMapper (clientWidth img) (clientHeight img)
          (naturalWidth img) (naturalHeight img) localX localY /\
      editHotspot (step s (Click e)) =
        Some {| pt_x := Num.round productX; pt_y := Num.round productY |} /\
      displayHotspot (step s (Click e)) = Some {| pt_x := localX; pt_y := localY |} /\
      (Num.is_finite productX = true ->
       (Qabs (Num.to_Q productX) < inject_Z (2 ^ 52))%Q ->
       (Num.to_Q (Num.round productX) == inject_Z (Qfloor (Num.to_Q productX + (1 # 2))))%Q) /\
      (Num.is_finite productY = true ->
       (Qabs (Num.to_Q productY) < inject_Z (2 ^ 52))%Q ->
       (Num.to_Q (Num.round productY) == inject_Z (Qfloor (Num.to_Q productY + (1 # 2))))%Q)) /\
  (forall s : AppState,
      activeTab s = retouch ->
      editHotspot (step s (Click (clickAt 100 150 (imageOf 800 600 400 300)))) =
        Some {| pt_x := Num.of_Z 200; pt_y := Num.of_Z 300 |}).
Proof.
  split.
  - intros s e Ht img Hw Hh localX localY productX productY.
    unfold step, dispatch, run; cbn [handler].
    rewrite (handleImageClick_retouch e s s Ht). cbn [snd].
    unfold CoordinateMapper.
    rewrite (is_positive_not_zero _ Hw), (is_positive_not_zero _ Hh).
    split; [reflexivity |]. split; [reflexivity |]. split; [reflexivity |].
    split; intros Hfin Hb.
    + apply (round_floor productX Hfin Hb).
    + apply (round_floor productY Hfin Hb).
  - intros s Ht. unfold step, dispatch, run; cbn [handler].
    rewrite (handleImageClick_retouch _ s s Ht). reflexivity.
Qed.

Lemma click_records_natural_hotspot_witness :
  editHotspot (step loaded (Click sampleClick)) =
    CoordinateMapper (Num.of_Z 400) (Num.of_Z 300) (Num.of_Z 800) (Num.of_Z 600)
      (Num.of_Z 100) (Num.of_Z 150) /\
  editHotspot (step loaded (Click sampleClick)) =
    Some {| pt_x := Num.of_Z 200; pt_y := Num.of_Z 300 |}.
Proof.
  split.
  - destruct (proj1 click_records_natural_hotspot loaded sampleClick
                eq_refl eq_refl eq_refl) as [H _].
    exact H.
  - apply (proj2 click_records_natural_hotspot loaded). reflexivity.
Defined.

(** C6, as the code has it. With a rendered width or height of zero the
    click handler still returns normally and still records a hotspot: the
    division yields an infinity or [NaN], and the coordinate on that axis is
    not a finite number. *)
Theorem zero_rendered_dimension_yields_non_finite_hotspot (s : AppState) (e : MouseEvent) :
  activeTab s = retouch ->
  let img := currentTarget e in
  is_zero (clientWidth img) = true \/ is_zero (clientHeight img) = true ->
  fst (run (handler (Click e)) s) = inl tt /\
  exists h : Point,
    editHotspot (step s (Click e)) = Some h /\
    (is_zero (clientWidth img) = true -> Num.is_finite (pt_x h) = false) /\
    (is_zero (clientHeight img) = true -> Num.is_finite (pt_y h) = false).
Proof.
  intros Ht img Hz. unfold step, dispatch, run; cbn [handler].
  rewrite (handleImageClick_retouch e s s Ht). cbn [fst snd].
  split; [reflexivity |]. eexists. split; [reflexivity |]. cbn [pt_x pt_y].
  split; intro H; apply scaled_by_zero_division; exact H.
Qed.

Lemma zero_rendered_dimension_yields_non_finite_hotspot_witness :
  exists h : Point,
    editHotspot (step loaded (Click (clickAt 5 5 (imageOf 800 600 0 0)))) = Some h /\
    Num.is_finite (pt_x h) = false.
Proof.
  destruct (zero_rendered_dimension_yields_non_finite_hotspot loaded
              (clickAt 5 5 (imageOf 800 600 0 0)) eq_refl (or_introl eq_refl))
    as (_ & h & Hh & Hx & _).
  exists h. split; [exact Hh | apply Hx; reflexivity].
Defined.

(** C6 as stated fails: on an image laid out at 0x0 the click is answered
    with a hotspot, where the mapper of the specification has none. *)
Lemma zero_rendered_dimension_still_maps :
  let e := clickAt 5 5 (imageOf 800 600 0 0) in
  is_zero (clientWidth (currentTarget e)) = true /\
  CoordinateMapper (Num.of_Z 0) (Num.of_Z 0) (Num.of_Z 800) (Num.of_Z 600)
    (Num.of_Z 5) (Num.of_Z 5) = None /\
  fst (run (handler (Click e)) loaded) = inl tt /\
  editHotspot (step loaded (Click e)) =
    Some {| pt_x := S754_infinity false; pt_y := S754_infinity false |} /\
  editHotspot (step loaded (Click e)) <> None.
Proof. repeat split. discriminate. Qed.

(** ** There and back *)

(** *** The error budget of the round trip, over the rationals *)

Local Open Scope Q_scope.

Lemma Qmult_cancel_le (a b c : Q) : 0 < c -> a * c <= b * c -> a <= b.
Proof. intros Hc H. apply (Qmult_le_r a b c Hc). exact H. Qed.

Lemma Qmult_le_mono_l (a b c : Q) : 0 <= c -> a <= b -> c * a <= c * b.
Proof.
  intros Hc H. rewrite (Qmult_comm c a), (Qmult_comm c b).
  apply Qmult_le_compat_r; assumption.
Qed.

Lemma Qabs_prod_le (p q P Q' : Q) :
  Qabs p <= P -> Qabs q <= Q' -> Qabs (p * q) <= P * Q'.
Proof.
  intros Hp Hq. rewrite Qabs_Qmult.
  apply Qmult_le_compat_nonneg; split; try assumption; apply Qabs_nonneg.
Qed.

Lemma Qabs_le_of_bounds (q lo hi : Q) : 0 <= q -> q <= hi -> Qabs q <= hi.
Proof. intros H0 H1. rewrite Qabs_pos; assumption. Qed.

(* pure arithmetic of the round trip with errors *)
Lemma round_trip_errors (x N R sc v n inv b u eta B : Q) :
  0 <= x -> x <= R -> 1 <= N -> 1 <= R -> R + 1 <= 2 * N ->
  N <= B -> R <= B ->
  0 <= u -> u <= 1 # 8 -> 0 <= eta -> eta <= 1 # 8 ->
  10 * (u * (B * B)) + 2 * (eta * B) <= 1 # 2 ->
  Qabs (sc * R - N) <= u * N ->
  Qabs (v - x * sc) <= u * (x * sc) + eta ->
  0 <= n -> Qabs (n - v) <= 1 # 2 ->
  Qabs (inv * N - R) <= u * R ->
  Qabs (b - n * inv) <= u * (n * inv) + eta ->
  Qabs (b - x) <= 1.
Proof.
  intros Hx HxR HN HR HRN HNB HRB Hu Hu8 Heta Heta8 Hsmall H1 H2 Hn H3 H4 H5.
  assert (HB : 1 <= B) by lra.
  assert (HuB : 0 <= u * B) by (apply Qmult_le_0_compat; lra).
  assert (HuBB : 0 <= u * (B * B)).
  { apply Qmult_le_0_compat; [lra |]. apply Qmult_le_0_compat; lra. }
  assert (HuN : u * N <= u * B) by (apply Qmult_le_mono_l; assumption).
  assert (HuR : u * R <= u * B) by (apply Qmult_le_mono_l; assumption).
  assert (HuB8 : u * B <= (1 # 8) * B) by (apply Qmult_le_compat_r; lra).
  assert (HuN8 : u * N <= (1 # 8) * N) by (apply Qmult_le_compat_r; lra).
  assert (HuR8 : u * R <= (1 # 8) * R) by (apply Qmult_le_compat_r; lra).
  (* the scale and the product *)
  assert (Hsc : 0 <= sc).
  { apply Qabs_Qle_condition in H1. destruct H1 as [H1a _].
    apply (Qmult_cancel_le 0 sc R); [lra |]. lra. }
  assert (Hxsc0 : 0 <= x * sc) by (apply Qmult_le_0_compat; assumption).
  assert (HxscR : x * sc * R <= (9 # 8) * B * R).
  { apply Qabs_Qle_condition in H1. destruct H1 as [_ H1b].
    assert (sc * R <= (9 # 8) * B) by lra.
    setoid_replace (x * sc * R) with (x * (sc * R)) by ring.
    setoid_replace ((9 # 8) * B * R) with (R * ((9 # 8) * B)) by ring.
    apply Qmult_le_compat_nonneg; split; try assumption.
    apply Qmult_le_0_compat; [exact Hsc | lra]. }
  assert (Hxsc : x * sc <= (9 # 8) * B).
  { apply (Qmult_cancel_le _ _ R); [lra | exact HxscR]. }
  (* the natural coordinate *)
  assert (Hc : Qabs (v - x * sc) <= (9 # 8) * (u * B) + eta).
  { apply (Qle_trans _ _ _ H2).
    assert (u * (x * sc) <= u * ((9 # 8) * B)) by (apply Qmult_le_mono_l; assumption).
    lra. }
  assert (Hnle : n <= 2 * B).
  { apply Qabs_Qle_condition in Hc, H3. lra. }
  (* the inverse scale and the way back *)
  assert (Hinv : 0 <= inv).
  { apply Qabs_Qle_condition in H4. destruct H4 as [H4a _].
    apply (Qmult_cancel_le 0 inv N); [lra |]. lra. }
  assert (Hninv0 : 0 <= n * inv) by (apply Qmult_le_0_compat; assumption).
  assert (HninvN : n * inv * N <= (9 # 4) * (B * B)).
  { apply Qabs_Qle_condition in H4. destruct H4 as [_ H4b].
    assert (inv * N <= (9 # 8) * B) by lra.
    setoid_replace (n * inv * N) with (n * (inv * N)) by ring.
    setoid_replace ((9 # 4) * (B * B)) with ((2 * B) * ((9 # 8) * B)) by ring.
    apply Qmult_le_compat_nonneg; split; try assumption.
    apply Qmult_le_0_compat; [exact Hinv | lra]. }
  (* the five parts of the deviation, scaled by N *)
  assert (Hid : (b - x) * N
                == x * (sc * R - N) + (v - x * sc) * R + (n - v) * R
                   + n * (inv * N - R) + (b - n * inv) * N) by ring.
  assert (T1 : Qabs (x * (sc * R - N)) <= B * (u * B)).
  { apply Qabs_prod_le; [rewrite Qabs_pos; lra | lra]. }
  assert (T2 : Qabs ((v - x * sc) * R) <= ((9 # 8) * (u * B) + eta) * B).
  { apply Qabs_prod_le; [exact Hc | rewrite Qabs_pos; lra]. }
  assert (T3 : Qabs ((n - v) * R) <= (1 # 2) * R).
  { apply Qabs_prod_le; [exact H3 | rewrite Qabs_pos; lra]. }
  assert (T4 : Qabs (n * (inv * N - R)) <= (2 * B) * (u * B)).
  { apply Qabs_prod_le; [rewrite Qabs_pos; lra | lra]. }
  assert (T5 : Qabs ((b - n * inv) * N) <= u * ((9 # 4) * (B * B)) + eta * B).
  { rewrite Qabs_Qmult, (Qabs_pos N) by lra.
    apply (Qle_trans _ ((u * (n * inv) + eta) * N)).
    - apply Qmult_le_compat_r; [exact H5 | lra].
    - setoid_replace ((u * (n * inv) + eta) * N) with (u * (n * inv * N) + eta * N) by ring.
      assert (u * (n * inv * N) <= u * ((9 # 4) * (B * B)))
        by (apply Qmult_le_mono_l; assumption).
      assert (eta * N <= eta * B) by (apply Qmult_le_mono_l; assumption).
      lra. }
  assert (Hsum : Qabs ((b - x) * N) <= N).
  { rewrite Hid.
    eapply Qle_trans; [apply Qabs_triangle |].
    eapply Qle_trans; [apply Qplus_le_compat; [apply Qabs_triangle | apply Qle_refl] |].
    eapply Qle_trans;
      [apply Qplus_le_compat; [apply Qplus_le_compat; [apply Qabs_triangle | apply Qle_refl]
                              | apply Qle_refl] |].
    eapply Qle_trans;
      [apply Qplus_le_compat;
         [apply Qplus_le_compat;
            [apply Qplus_le_compat; [apply Qabs_triangle | apply Qle_refl]
            | apply Qle_refl]
         | apply Qle_refl] |].
    assert (E : B * (u * B) + ((9 # 8) * (u * B) + eta) * B + (2 * B) * (u * B)
                + (u * ((9 # 4) * (B * B)) + eta * B)
                == (51 # 8) * (u * (B * B)) + 2 * (eta * B)) by ring.
    assert (0 <= eta * B) by (apply Qmult_le_0_compat; lra).
    lra. }
  rewrite Qabs_Qmult, (Qabs_pos N) in Hsum by lra.
  apply (Qmult_cancel_le _ _ N); [lra |]. lra.
Qed.

Local Close Scope Q_scope.

Local Open Scope Z_scope.

(** *** Non-negative finite numbers *)

Lemma nonneg_finite_value (x : Num.number) :
  nonneg_finite x -> Num.is_finite x = true /\ (0 <= Num.to_Q x)%Q.
Proof.
  destruct x as [s | s | | [|] m e]; intro H; try contradiction.
  - split; [reflexivity | cbn; lra].
  - split; [reflexivity |]. rewrite to_Q_finite.
    apply Qmult_le_0_compat; [apply inject_Z_nonneg; cbn; lia | apply Qlt_le_weak, pow2_pos].
Qed.

Lemma nonneg_shape (x : Num.number) :
  Num.is_finite x = true -> (0 <= Num.to_Q x)%Q -> nonneg_finite x.
Proof.
  intros Hf Hp. destruct x as [s | s | | [|] m e]; try discriminate Hf; try exact I.
  exfalso. rewrite to_Q_finite in Hp. unfold Num.signed, cond_Zopp in Hp.
  pose proof (pow2_pos e) as He.
  assert ((0 < inject_Z (Zpos m) * pow2 e)%Q).
  { apply Qmult_lt_0_compat; [apply inject_Z_pos; lia | exact He]. }
  rewrite inject_Z_opp in Hp.
  setoid_replace (- inject_Z (Zpos m) * pow2 e)%Q
    with (- (inject_Z (Zpos m) * pow2 e))%Q in Hp by ring.
  lra.
Qed.

Lemma zero_value_shape (x : Num.number) :
  nonneg_finite x -> (Num.to_Q x == 0)%Q -> exists s, x = S754_zero s.
Proof.
  destruct x as [s | s | | [|] m e]; intros H Hz; try contradiction.
  - exists s. reflexivity.
  - exfalso. rewrite to_Q_finite in Hz. unfold Num.signed, cond_Zopp in Hz.
    assert ((0 < inject_Z (Zpos m) * pow2 e)%Q).
    { apply Qmult_lt_0_compat; [apply inject_Z_pos; lia | apply pow2_pos]. }
    lra.
Qed.

Lemma pow2_lt (a b : Z) : a < b -> (pow2 a < pow2 b)%Q.
Proof.
  intro H. apply Qlt_le_trans with (pow2 (a + 1)).
  - rewrite pow2_succ. pose proof (pow2_pos a). lra.
  - apply pow2_le. lia.
Qed.

(** The magnitude of a positive number bounds digits plus exponent. *)
Lemma magnitude_le (m : positive) (e k : Z) :
  (Num.to_Q (S754_finite false m e) <= pow2 k)%Q ->
  Zdigits2 (Zpos m) + e <= k + 1.
Proof.
  intro H. rewrite to_Q_finite in H. unfold Num.signed, cond_Zopp in H.
  destruct (Z.le_gt_cases (Zdigits2 (Zpos m) + e) (k + 1)) as [Hle | Hgt]; [exact Hle |].
  exfalso.
  destruct (Zdigits2_bounds (Zpos m)) as [Hl _]; [lia |].
  assert (Hd : 1 <= Zdigits2 (Zpos m)) by (cbn; lia).
  assert (Hlow : (pow2 (Zdigits2 (Zpos m) - 1 + e) <= inject_Z (Zpos m) * pow2 e)%Q).
  { rewrite pow2_add. apply Qmult_le_compat_r; [| apply Qlt_le_weak, pow2_pos].
    rewrite <- pow2_Z by lia. rewrite <- Zle_Qle. exact Hl. }
  assert ((pow2 k < pow2 (Zdigits2 (Zpos m) - 1 + e))%Q) by (apply pow2_lt; lia).
  lra.
Qed.

Lemma digits_mul (a b : positive) :
  Zdigits2 (Zpos (a * b)) <= Zdigits2 (Zpos a) + Zdigits2 (Zpos b).
Proof.
  destruct (Zdigits2_bounds (Zpos a)) as [_ Ha]; [lia |].
  destruct (Zdigits2_bounds (Zpos b)) as [_ Hb]; [lia |].
  assert (Hda : 1 <= Zdigits2 (Zpos a)) by (cbn; lia).
  assert (Hdb : 1 <= Zdigits2 (Zpos b)) by (cbn; lia).
  apply Zdigits2_le; [lia |]. rewrite Pos2Z.inj_mul, Z.pow_add_r by lia. nia.
Qed.

Lemma zero_error_l (q : Q) : (Qabs (0 - 0 * q) <= u64 * (0 * q) + eta64)%Q.
Proof.
  assert (Heta : (0 < eta64)%Q) by apply pow2_pos.
  assert (E1 : (0 - 0 * q == 0)%Q) by ring.
  assert (E2 : (u64 * (0 * q) == 0)%Q) by ring.
  rewrite E1, E2. change (Qabs 0) with 0%Q. lra.
Qed.

Lemma zero_error_r (q : Q) : (Qabs (0 - q * 0) <= u64 * (q * 0) + eta64)%Q.
Proof.
  assert (Heta : (0 < eta64)%Q) by apply pow2_pos.
  assert (E1 : (0 - q * 0 == 0)%Q) by ring.
  assert (E2 : (u64 * (q * 0) == 0)%Q) by ring.
  rewrite E1, E2. change (Qabs 0) with 0%Q. lra.
Qed.

(** The product of two non-negative finite numbers of moderate size. *)
Lemma mul_nonneg (x y : Num.number) (kx ky : Z) :
  nonneg_finite x -> nonneg_finite y ->
  (Num.to_Q x <= pow2 kx)%Q -> (Num.to_Q y <= pow2 ky)%Q -> kx + ky <= 900 ->
  nonneg_finite (Num.mul x y) /\
  small_mantissa (Num.mul x y) /\
  (Qabs (Num.to_Q (Num.mul x y) - Num.to_Q x * Num.to_Q y)
   <= u64 * (Num.to_Q x * Num.to_Q y) + eta64)%Q.
Proof.
  intros Hx Hy Bx By Hk.
  assert (Heta : (0 < eta64)%Q) by apply pow2_pos.
  destruct x as [sx | sx | | [|] mx ex]; try contradiction;
    destruct y as [sy | sy | | [|] my ey]; try contradiction.
  - split; [exact I |]. split; [exact I |]. cbn. lra.
  - split; [exact I |]. split; [exact I |].
    change (Num.to_Q (Num.mul (S754_zero sx) (S754_finite false my ey))) with 0%Q.
    change (Num.to_Q (S754_zero sx)) with 0%Q.
    apply zero_error_l.
  - split; [exact I |]. split; [exact I |].
    change (Num.to_Q (Num.mul (S754_finite false mx ex) (S754_zero sy))) with 0%Q.
    change (Num.to_Q (S754_zero sy)) with 0%Q.
    apply zero_error_r.
  - pose proof (magnitude_le mx ex kx Bx) as Mx.
    pose proof (magnitude_le my ey ky By) as My.
    pose proof (digits_mul mx my) as Dm.
    destruct (mul_error mx my ex ey) as (Hf & Hsm & Hp & He); [lia |].
    split; [apply nonneg_shape; assumption |]. split; assumption.
Qed.

(** What [Math.round] returns on a non-negative number below [2^52]. *)
Lemma round_nonneg (v : Num.number) :
  nonneg_finite v -> small_mantissa v ->
  (Num.to_Q v < inject_Z (2 ^ 52))%Q ->
  nonneg_finite (Num.round v) /\ small_mantissa (Num.round v) /\
  (Num.to_Q v - (1 # 2) < Num.to_Q (Num.round v))%Q /\
  (Num.to_Q (Num.round v) <= Num.to_Q v + (1 # 2))%Q.
Proof.
  intros Hv Hsm Hb.
  destruct (nonneg_finite_value v Hv) as [Hfin Hpos].
  assert (Habs : (Qabs (Num.to_Q v) < inject_Z (2 ^ 52))%Q) by (rewrite Qabs_pos; assumption).
  destruct (round_floor v Hfin Habs) as [Hrf Hrv].
  destruct (round_nearest v Hfin Habs) as [Hlo Hhi].
  assert (Hnn : (0 <= Num.to_Q (Num.round v))%Q).
  { rewrite Hrv. apply inject_Z_nonneg.
    change 0 with (Qfloor 0). apply Qfloor_resp_le. lra. }
  split; [apply nonneg_shape; assumption |]. split; [| split; assumption].
  destruct v as [s | s | | [|] m e]; try contradiction; [exact I |].
  unfold Num.round. destruct (Z.leb_spec 0 e) as [He | He]; [exact Hsm |].
  cbv zeta.
  assert (Hp : 0 < 2 ^ (- e)) by (apply Z.pow_pos_nonneg; lia).
  assert (Hm : Zpos m < 2 ^ 52 * 2 ^ (- e)).
  { unfold Num.to_Q in Hb. destruct (Z.leb_spec 0 e) as [H | _]; [lia |].
    unfold Qlt, inject_Z, Num.signed, cond_Zopp in Hb. cbn [Qnum Qden] in Hb.
    rewrite Z2Pos.id in Hb by exact Hp. lia. }
  set (n := (2 * Num.signed false m + 2 ^ (- e)) / 2 ^ (- e + 1)).
  assert (Hn : 0 <= n < 2 ^ 53).
  { unfold n, Num.signed, cond_Zopp.
    assert (Hp1 : 2 ^ (- e + 1) = 2 * 2 ^ (- e)).
    { rewrite Z.pow_add_r by lia. change (2 ^ 1) with 2. lia. }
    rewrite Hp1. split.
    - apply Z.div_pos; lia.
    - apply Z.div_lt_upper_bound; [lia |].
      change (2 ^ 53) with (2 * 2 ^ 52). nia. }
  destruct n as [| p | p] eqn:En; [exact I | | lia].
  destruct (of_Z_canonical (Zpos p)) as (mm & -> & _ & Hd); [lia |].
  cbn [small_mantissa].
  destruct (Zdigits2_bounds (Zpos mm)) as [_ Hu]; [lia |].
  rewrite Hd in Hu. exact Hu.
Qed.

Lemma eta64_small : (eta64 <= 1 # (2 ^ 60))%Q.
Proof.
  unfold eta64. apply Qle_trans with (pow2 (-60)); [apply pow2_le; lia | ].
  apply Qle_lteq. right. reflexivity.
Qed.

(** One axis of the round trip in binary64: natural dimension [n],
    rendered dimension [r < 2 n], both at most [2^24], and a point [x]
    between [0] and [r]. *)
Lemma round_trip_axis_binary64 (x : Num.number) (n r : Z) :
  nonneg_finite x -> (Num.to_Q x <= inject_Z r)%Q ->
  1 <= n <= 2 ^ 24 -> 1 <= r <= 2 ^ 24 -> r + 1 <= 2 * n ->
  (Qabs (Num.to_Q (Num.mul (Num.round (Num.mul x (Num.div (Num.of_Z n) (Num.of_Z r))))
                      (Num.div (Num.of_Z r) (Num.of_Z n)))
         - Num.to_Q x) <= 1)%Q.
Proof.
  intros Hx Hxr Hn Hr Hrn.
  assert (H24 : 2 ^ 24 < 2 ^ 53) by reflexivity.
  destruct (nonneg_finite_value x Hx) as [_ Hx0].
  destruct (div_error n r) as [(ms & es & Esc) Hsc]; [lia | lia |].
  destruct (div_error r n) as [(mi & ei & Einv) Hinv]; [lia | lia |].
  set (sc := Num.div (Num.of_Z n) (Num.of_Z r)) in *.
  set (inv := Num.div (Num.of_Z r) (Num.of_Z n)) in *.
  assert (Nsc : nonneg_finite sc) by (rewrite Esc; exact I).
  assert (Ninv : nonneg_finite inv) by (rewrite Einv; exact I).
  destruct (nonneg_finite_value sc Nsc) as [_ Hsc0].
  destruct (nonneg_finite_value inv Ninv) as [_ Hinv0].
  assert (Qn : (1 <= inject_Z n <= inject_Z (2 ^ 24))%Q).
  { split; [change 1%Q with (inject_Z 1) |]; rewrite <- Zle_Qle; lia. }
  assert (Qr : (1 <= inject_Z r <= inject_Z (2 ^ 24))%Q).
  { split; [change 1%Q with (inject_Z 1) |]; rewrite <- Zle_Qle; lia. }
  assert (Qrn : (inject_Z r + 1 <= 2 * inject_Z n)%Q).
  { change 1%Q with (inject_Z 1). change 2%Q with (inject_Z 2).
    rewrite <- inject_Z_plus, <- inject_Z_mult, <- Zle_Qle. lia. }
  set (N := inject_Z n) in *. set (R := inject_Z r) in *.
  change (inject_Z (2 ^ 24)) with (16777216 # 1)%Q in Qn, Qr.
  assert (Hu : (u64 == 1 # 9007199254740992)%Q) by reflexivity.
  pose proof eta64_small as Heta.
  assert (Heta0 : (0 < eta64)%Q) by apply pow2_pos.
  change (1 # 2 ^ 60)%Q with (1 # 1152921504606846976)%Q in Heta.
  (* magnitudes *)
  assert (Bsc : (Num.to_Q sc <= pow2 25)%Q).
  { change (pow2 25) with (33554432 # 1)%Q.
    apply Qabs_Qle_condition in Hsc. destruct Hsc as [_ Hsc].
    assert ((Num.to_Q sc * 1 <= Num.to_Q sc * R)%Q)
      by (apply Qmult_le_mono_l; [exact Hsc0 | apply Qr]).
    assert ((u64 * N <= 1 * N)%Q) by (apply Qmult_le_compat_r; [rewrite Hu; lra | lra]).
    lra. }
  assert (Binv : (Num.to_Q inv <= pow2 25)%Q).
  { change (pow2 25) with (33554432 # 1)%Q.
    apply Qabs_Qle_condition in Hinv. destruct Hinv as [_ Hinv].
    assert ((Num.to_Q inv * 1 <= Num.to_Q inv * N)%Q)
      by (apply Qmult_le_mono_l; [exact Hinv0 | apply Qn]).
    assert ((u64 * R <= 1 * R)%Q) by (apply Qmult_le_compat_r; [rewrite Hu; lra | lra]).
    lra. }
  assert (Bx : (Num.to_Q x <= pow2 24)%Q).
  { change (pow2 24) with (16777216 # 1)%Q. lra. }
  destruct (mul_nonneg x sc 24 25 Hx Nsc Bx Bsc) as (Nv & Sv & Ev); [lia |].
  set (v := Num.mul x sc) in *.
  destruct (nonneg_finite_value v Nv) as [_ Hv0].
  assert (Bxsc : (Num.to_Q x * Num.to_Q sc <= 16777216 * 33554432)%Q).
  { change (pow2 24) with (16777216 # 1)%Q in Bx.
    change (pow2 25) with (33554432 # 1)%Q in Bsc.
    apply Qmult_le_compat_nonneg; split; assumption. }
  assert (Hxsc0 : (0 <= Num.to_Q x * Num.to_Q sc)%Q) by (apply Qmult_le_0_compat; assumption).
  assert (Bv : (Num.to_Q v <= (2 ^ 51 # 1))%Q).
  { apply Qabs_Qle_condition in Ev. destruct Ev as [_ Ev].
    assert ((u64 * (Num.to_Q x * Num.to_Q sc) <= 1 * (Num.to_Q x * Num.to_Q sc))%Q)
      by (apply Qmult_le_compat_r; [rewrite Hu; lra | assumption]).
    change (2 ^ 51 # 1)%Q with (2251799813685248 # 1)%Q. lra. }
  destruct (round_nonneg v Nv Sv) as (Nn & Sn & Hlo & Hhi).
  { change (inject_Z (2 ^ 52)) with (4503599627370496 # 1)%Q.
    change (2 ^ 51 # 1)%Q with (2251799813685248 # 1)%Q in Bv. lra. }
  set (nr := Num.round v) in *.
  destruct (nonneg_finite_value nr Nn) as [_ Hn0].
  assert (Bn : (Num.to_Q nr <= pow2 52)%Q).
  { change (pow2 52) with (4503599627370496 # 1)%Q.
    change (2 ^ 51 # 1)%Q with (2251799813685248 # 1)%Q in Bv. lra. }
  destruct (mul_nonneg nr inv 52 25 Nn Ninv Bn Binv) as (Nb & _ & Eb); [lia |].
  assert (A1 : (0 <= u64)%Q) by (rewrite Hu; lra).
  assert (A2 : (u64 <= 1 # 8)%Q) by (rewrite Hu; lra).
  assert (A3 : (eta64 <= 1 # 8)%Q) by lra.
  assert (A4 : (10 * (u64 * ((16777216 # 1) * (16777216 # 1)))
                + 2 * (eta64 * (16777216 # 1)) <= 1 # 2)%Q).
  { assert (E : (u64 * ((16777216 # 1) * (16777216 # 1)) == 1 # 32)%Q)
      by (vm_compute; reflexivity).
    assert ((eta64 * (16777216 # 1) <= (1 # 1152921504606846976) * (16777216 # 1))%Q)
      by (apply Qmult_le_compat_r; lra).
    rewrite E. lra. }
  assert (A5 : (Qabs (Num.to_Q nr - Num.to_Q v) <= 1 # 2)%Q)
    by (apply Qabs_Qle_condition; split; lra).
  apply (round_trip_errors (Num.to_Q x) N R (Num.to_Q sc) (Num.to_Q v) (Num.to_Q nr)
           (Num.to_Q inv) _ u64 eta64 (16777216 # 1)); try assumption; lra.
Qed.

(** *** Powers of two: exact quotients and products *)

Lemma inject_Z_eq (a b : Z) : (inject_Z a == inject_Z b)%Q -> a = b.
Proof. unfold Qeq, inject_Z. cbn. lia. Qed.

Lemma pow2_mantissa (m : positive) (e j : Z) :
  (Num.to_Q (S754_finite false m e) == pow2 j)%Q ->
  e <= j /\ Zpos m = 2 ^ (j - e).
Proof.
  intro H. rewrite to_Q_finite in H. unfold Num.signed, cond_Zopp in H.
  assert (He : e <= j).
  { destruct (Z.le_gt_cases e j) as [Hle | Hgt]; [exact Hle |]. exfalso.
    assert ((pow2 j < pow2 e)%Q) by (apply pow2_lt; lia).
    assert ((1 * pow2 e <= inject_Z (Zpos m) * pow2 e)%Q).
    { apply Qmult_le_compat_r; [| apply Qlt_le_weak, pow2_pos].
      change 1%Q with (inject_Z 1). rewrite <- Zle_Qle. lia. }
    lra. }
  split; [exact He |]. apply inject_Z_eq.
  rewrite (pow2_Z (j - e)) by lia.
  apply (Qmult_inj_r _ _ (pow2 e)).
  - pose proof (pow2_pos e). lra.
  - rewrite H, <- pow2_add. replace (j - e + e) with j by lia. reflexivity.
Qed.

(** A product with a power of two is exact, short of an underflow. *)
Lemma mul_pow2_exact (mx my : positive) (ex ey j kx : Z) :
  Zpos mx < 2 ^ 53 ->
  (Num.to_Q (S754_finite false my ey) == pow2 j)%Q ->
  -1074 <= ex + j ->
  (Num.to_Q (S754_finite false mx ex) <= pow2 kx)%Q -> kx + j <= 900 ->
  (Num.to_Q (Num.mul (S754_finite false mx ex) (S754_finite false my ey))
   == Num.to_Q (S754_finite false mx ex) * pow2 j)%Q.
Proof.
  intros Hsm Hy Hun Bx Hk.
  destruct (pow2_mantissa my ey j Hy) as [Hey Hmy].
  pose proof (magnitude_le mx ex kx Bx) as Mx.
  assert (Hpt : 0 < 2 ^ (j - ey)) by (apply Z.pow_pos_nonneg; lia).
  assert (Hdm : Zdigits2 (Zpos (mx * my)) <= 53 + (j - ey)).
  { apply Zdigits2_le; [lia |]. rewrite Pos2Z.inj_mul, Hmy, Z.pow_add_r by lia. nia. }
  assert (Hdm2 : Zdigits2 (Zpos (mx * my)) <= Zdigits2 (Zpos mx) + (j - ey) ).
  { destruct (Zdigits2_bounds (Zpos mx)) as [_ Hux]; [lia |].
    assert (1 <= Zdigits2 (Zpos mx)) by (cbn; lia).
    apply Zdigits2_le; [lia |]. rewrite Pos2Z.inj_mul, Hmy, Z.pow_add_r by lia. nia. }
  destruct (mul_value mx my ex ey) as (m2 & _ & _ & Hv & _ & _ & Hex); [lia |].
  cbv zeta in Hv, Hex.
  set (m := Zpos (mx * my)) in *. set (e := ex + ey) in *.
  set (K := Z.max (fexp64 (Zdigits2 m + e) - e) 0) in *.
  assert (HK : 0 <= K <= j - ey) by (unfold K, fexp64, e; lia).
  assert (Hmod : m mod 2 ^ K = 0).
  { unfold m. rewrite Pos2Z.inj_mul, Hmy.
    replace (j - ey) with ((j - ey - K) + K) by lia.
    rewrite Z.pow_add_r by lia. rewrite Z.mul_assoc. apply Z.mod_mul.
    assert (0 < 2 ^ K) by (apply Z.pow_pos_nonneg; lia). lia. }
  specialize (Hex Hmod).
  assert (E : (inject_Z m2 * pow2 (e + K) == inject_Z (m2 * 2 ^ K) * pow2 e)%Q).
  { rewrite pow2_add, inject_Z_mult, (pow2_Z K) by lia. ring. }
  rewrite Hv, E, Hex.
  rewrite to_Q_finite. unfold Num.signed, cond_Zopp, m, e.
  rewrite Pos2Z.inj_mul, Hmy, inject_Z_mult, (pow2_Z (j - ey)) by lia.
  rewrite pow2_add.
  setoid_replace (pow2 j) with (pow2 (j - ey) * pow2 ey)%Q.
  - ring.
  - rewrite <- pow2_add. replace (j - ey + ey) with j by lia. reflexivity.
Qed.

Lemma Zdigits2_double (n : Z) : 0 < n -> Zdigits2 (2 * n) = Zdigits2 n + 1.
Proof. intro H. destruct n as [| p | p]; try lia. cbn. lia. Qed.

(** The quotients [n / (2 n)] and [(2 n) / n] are exactly one half and two. *)
Lemma div_half_double (n : Z) :
  0 < n -> 2 * n < 2 ^ 53 ->
  (exists m e, Num.div (Num.of_Z n) (Num.of_Z (2 * n)) = S754_finite false m e) /\
  (Num.to_Q (Num.div (Num.of_Z n) (Num.of_Z (2 * n))) == pow2 (-1))%Q /\
  (exists m e, Num.div (Num.of_Z (2 * n)) (Num.of_Z n) = S754_finite false m e) /\
  (Num.to_Q (Num.div (Num.of_Z (2 * n)) (Num.of_Z n)) == pow2 1)%Q.
Proof.
  intros Hn Hn2.
  destruct (div_error n (2 * n)) as [Sh1 _]; [lia | lia |].
  destruct (div_error (2 * n) n) as [Sh2 _]; [lia | lia |].
  destruct (of_Z_canonical n) as (m1 & E1 & Hm1 & Hd1); [lia |].
  destruct (of_Z_canonical (2 * n)) as (m2 & E2 & Hm2 & Hd2); [lia |].
  rewrite Zdigits2_double in E2, Hm2 by lia.
  assert (Hdn : 1 <= Zdigits2 n) by (destruct n; cbn; lia).
  assert (Hdn2 : Zdigits2 n + 1 <= 53).
  { rewrite <- Zdigits2_double by lia. apply Zdigits2_le; lia. }
  assert (Em : m2 = m1).
  { apply Pos2Z.inj. rewrite Hm1, Hm2.
    replace (53 - Zdigits2 n) with ((53 - (Zdigits2 n + 1)) + 1) by lia.
    rewrite Z.pow_add_r by lia. change (2 ^ 1) with 2. lia. }
  subst m2.
  split; [exact Sh1 |]. split; [| split; [exact Sh2 |]].
  - rewrite E1, E2.
    destruct (div_value m1 m1 (Zdigits2 n - 53) (Zdigits2 n + 1 - 53) Hd1 Hd1)
      as (M & K & _ & Hv & HK & _ & _ & _ & Hsame); [lia |].
    specialize (Hsame eq_refl). rewrite Hv.
    replace (Zdigits2 n - 53 - (Zdigits2 n + 1 - 53) - 53 + K) with (K + (-54)) by lia.
    rewrite pow2_add, <- (pow2_Z K) by lia.
    rewrite Qmult_assoc, <- inject_Z_mult, Hsame.
    rewrite (pow2_Z 53) by lia. rewrite <- pow2_add. reflexivity.
  - rewrite E1, E2.
    destruct (div_value m1 m1 (Zdigits2 n + 1 - 53) (Zdigits2 n - 53) Hd1 Hd1)
      as (M & K & _ & Hv & HK & _ & _ & _ & Hsame); [lia |].
    specialize (Hsame eq_refl). rewrite Hv.
    replace (Zdigits2 n + 1 - 53 - (Zdigits2 n - 53) - 53 + K) with (K + (-52)) by lia.
    rewrite pow2_add, <- (pow2_Z K) by lia.
    rewrite Qmult_assoc, <- inject_Z_mult, Hsame.
    rewrite (pow2_Z 53) by lia. rewrite <- pow2_add. reflexivity.
Qed.

Lemma exponent_lower (m : positive) (e j : Z) :
  Zpos m < 2 ^ 53 ->
  (pow2 j <= Num.to_Q (S754_finite false m e))%Q ->
  j - 53 < e.
Proof.
  intros Hm H. rewrite to_Q_finite in H. unfold Num.signed, cond_Zopp in H.
  destruct (Z.lt_ge_cases (j - 53) e) as [Hlt | Hge]; [exact Hlt |]. exfalso.
  assert ((inject_Z (Zpos m) * pow2 e < pow2 53 * pow2 e)%Q).
  { apply Qmult_lt_compat_r; [apply pow2_pos |].
    rewrite <- (pow2_Z 53) by lia. rewrite <- Zlt_Qlt. exact Hm. }
  assert ((pow2 53 * pow2 e <= pow2 j)%Q).
  { rewrite <- pow2_add. apply pow2_le. lia. }
  lra.
Qed.

Lemma round_value_zero (v : Num.number) :
  nonneg_finite v -> (Num.to_Q v < 1 # 2)%Q ->
  exists s, Num.round v = S754_zero s.
Proof.
  intros Hv Hb.
  destruct (nonneg_finite_value v Hv) as [Hfin Hpos].
  assert (Habs : (Qabs (Num.to_Q v) < inject_Z (2 ^ 52))%Q).
  { rewrite Qabs_pos by assumption.
    change (inject_Z (2 ^ 52)) with (4503599627370496 # 1)%Q. lra. }
  destruct (round_floor v Hfin Habs) as [Hrf Hrv].
  assert (Hfl : Qfloor (Num.to_Q v + (1 # 2)) = 0%Z).
  { pose proof (Qfloor_le (Num.to_Q v + (1 # 2))) as H1.
    pose proof (Qlt_floor (Num.to_Q v + (1 # 2))) as H2.
    set (k := Qfloor (Num.to_Q v + (1 # 2))) in *.
    assert ((inject_Z k < inject_Z 1)%Q) by (change (inject_Z 1) with 1%Q; lra).
    assert ((inject_Z (-1) < inject_Z k)%Q).
    { rewrite inject_Z_plus in H2. change (inject_Z 1) with 1%Q in H2.
      change (inject_Z (-1)) with (- (1))%Q. lra. }
    rewrite <- Zlt_Qlt in *. lia. }
  rewrite Hfl in Hrv.
  apply zero_value_shape; [| exact Hrv].
  apply nonneg_shape; [exact Hrf |]. rewrite Hrv. discriminate.
Qed.

Lemma round_value_integer (v : Num.number) :
  nonneg_finite v -> (Num.to_Q v < inject_Z (2 ^ 52))%Q ->
  (0 < Num.to_Q (Num.round v))%Q -> (1 <= Num.to_Q (Num.round v))%Q.
Proof.
  intros Hv Hb Hp.
  destruct (nonneg_finite_value v Hv) as [Hfin Hpos].
  assert (Habs : (Qabs (Num.to_Q v) < inject_Z (2 ^ 52))%Q) by (rewrite Qabs_pos; assumption).
  destruct (round_floor v Hfin Habs) as [_ Hrv].
  rewrite Hrv in *. change 0%Q with (inject_Z 0) in Hp. change 1%Q with (inject_Z 1).
  rewrite <- Zlt_Qlt in Hp. rewrite <- Zle_Qle. lia.
Qed.

(** The axis at the boundary: the image is shown at exactly twice its
    natural size. *)
Lemma round_trip_axis_edge (x : Num.number) (n : Z) :
  nonneg_finite x -> small_mantissa x ->
  (Num.to_Q x <= inject_Z (2 * n))%Q ->
  1 <= n -> 2 * n <= 2 ^ 24 ->
  (Qabs (Num.to_Q (Num.mul (Num.round (Num.mul x (Num.div (Num.of_Z n) (Num.of_Z (2 * n)))))
                      (Num.div (Num.of_Z (2 * n)) (Num.of_Z n)))
         - Num.to_Q x) <= 1)%Q.
Proof.
  intros Hx Hsx Hxr Hn Hn2.
  assert (H24 : 2 ^ 24 < 2 ^ 53) by reflexivity.
  destruct (div_half_double n) as ((ms & es & Esc) & Vsc & (mi & ei & Einv) & Vinv);
    [lia | lia |].
  set (sc := Num.div (Num.of_Z n) (Num.of_Z (2 * n))) in *.
  set (inv := Num.div (Num.of_Z (2 * n)) (Num.of_Z n)) in *.
  assert (Nsc : nonneg_finite sc) by (rewrite Esc; exact I).
  assert (Ninv : nonneg_finite inv) by (rewrite Einv; exact I).
  change (pow2 (-1)) with (1 # 2)%Q in Vsc. change (pow2 1) with 2%Q in Vinv.
  assert (Qr : (inject_Z (2 * n) <= 16777216 # 1)%Q).
  { change (16777216 # 1)%Q with (inject_Z (2 ^ 24)). rewrite <- Zle_Qle. exact Hn2. }
  destruct (nonneg_finite_value x Hx) as [_ Hx0].
  assert (Bx : (Num.to_Q x <= pow2 24)%Q).
  { change (pow2 24) with (16777216 # 1)%Q. lra. }
  assert (Bsc : (Num.to_Q sc <= pow2 0)%Q) by (rewrite Vsc; change (pow2 0) with 1%Q; lra).
  assert (Binv : (Num.to_Q inv <= pow2 1)%Q) by (rewrite Vinv; change (pow2 1) with 2%Q; lra).
  destruct (mul_nonneg x sc 24 0 Hx Nsc Bx Bsc) as (Nv & Sv & Ev); [lia |].
  set (v := Num.mul x sc) in *.
  destruct (nonneg_finite_value v Nv) as [_ Hv0].
  assert (Hu : (u64 == 1 # 9007199254740992)%Q) by reflexivity.
  pose proof eta64_small as Heta.
  assert (Heta0 : (0 < eta64)%Q) by apply pow2_pos.
  change (1 # 2 ^ 60)%Q with (1 # 1152921504606846976)%Q in Heta.
  rewrite Vsc in Ev.
  assert (Hux : (u64 * (Num.to_Q x * (1 # 2)) <= Num.to_Q x * (1 # 2))%Q).
  { rewrite <- (Qmult_1_l (Num.to_Q x * (1 # 2))) at 2.
    apply Qmult_le_compat_r; [rewrite Hu; lra | lra]. }
  assert (Bv : (Num.to_Q v < inject_Z (2 ^ 52))%Q).
  { change (inject_Z (2 ^ 52)) with (4503599627370496 # 1)%Q.
    apply Qabs_Qle_condition in Ev. lra. }
  destruct (round_nonneg v Nv Sv Bv) as (Nn & Sn & Hlo & Hhi).
  set (nr := Num.round v) in *.
  destruct (nonneg_finite_value nr Nn) as [_ Hn0].
  (* a zero natural coordinate comes back as zero *)
  assert (Zero : forall s, nr = S754_zero s -> (Num.to_Q v <= 1 # 2)%Q ->
                 (Num.to_Q x * (1 # 2) <= 1 # 2)%Q ->
                 (Qabs (Num.to_Q (Num.mul nr inv) - Num.to_Q x) <= 1)%Q).
  { intros s E _ Hhalf. rewrite E, Einv.
    change (Num.to_Q (Num.mul (S754_zero s) (S754_finite false mi ei))) with 0%Q.
    apply Qabs_Qle_condition. split; lra. }
  destruct x as [sx | sx | | [|] mx ex]; try contradiction.
  - (* the point is zero *)
    destruct (round_value_zero v Nv) as [s E].
    { unfold v. rewrite Esc. cbn. lra. }
    apply (Zero s E).
    + unfold v. rewrite Esc. cbn. lra.
    + cbn. lra.
  - cbn [small_mantissa] in Hsx.
    destruct (Z.le_gt_cases (-1073) ex) as [Hex | Hex].
    + (* the halving is exact *)
      assert (Vv : (Num.to_Q v == Num.to_Q (S754_finite false mx ex) * (1 # 2))%Q).
      { unfold v. rewrite Esc.
        change (1 # 2)%Q with (pow2 (-1)).
        apply (mul_pow2_exact mx ms ex es (-1) 24); try assumption; try lia.
        rewrite <- Esc. exact Vsc. }
      destruct nr as [sn | sn | | [|] mn en] eqn:En; try contradiction.
      * apply (Zero sn eq_refl).
        -- change (Num.to_Q (S754_zero sn)) with 0%Q in Hlo. lra.
        -- change (Num.to_Q (S754_zero sn)) with 0%Q in Hlo. lra.
      * cbn [small_mantissa] in Sn.
        assert (Hn1 : (1 <= Num.to_Q (S754_finite false mn en))%Q).
        { rewrite <- En. apply round_value_integer; [exact Nv | exact Bv |].
          fold nr. rewrite En, to_Q_finite.
          apply Qmult_lt_0_compat; [apply inject_Z_pos; cbn; lia | apply pow2_pos]. }
        assert (Hen : 0 - 53 < en).
        { apply (exponent_lower mn en 0 Sn). change (pow2 0) with 1%Q. exact Hn1. }
        assert (Bn : (Num.to_Q (S754_finite false mn en) <= pow2 52)%Q).
        { change (pow2 52) with (4503599627370496 # 1)%Q.
          change (inject_Z (2 ^ 52)) with (4503599627370496 # 1)%Q in Bv. lra. }
        assert (Vb : (Num.to_Q (Num.mul (S754_finite false mn en) inv)
                      == Num.to_Q (S754_finite false mn en) * 2)%Q).
        { rewrite Einv. change 2%Q with (pow2 1).
          apply (mul_pow2_exact mn mi en ei 1 52); try assumption; try lia.
          rewrite <- Einv. exact Vinv. }
        rewrite Vb. apply Qabs_Qle_condition. split; lra.
    + (* the point is tiny *)
      assert (Tiny : (Num.to_Q (S754_finite false mx ex) < 1 # 4)%Q).
      { rewrite to_Q_finite. unfold Num.signed, cond_Zopp.
        assert ((inject_Z (Zpos mx) * pow2 ex < pow2 53 * pow2 ex)%Q).
        { apply Qmult_lt_compat_r; [apply pow2_pos |].
          rewrite <- (pow2_Z 53) by lia. rewrite <- Zlt_Qlt. exact Hsx. }
        assert ((pow2 53 * pow2 ex <= pow2 (-2))%Q).
        { rewrite <- pow2_add. apply pow2_le. lia. }
        change (pow2 (-2)) with (1 # 4)%Q in *. lra. }
      destruct (round_value_zero v Nv) as [s E].
      { apply Qabs_Qle_condition in Ev. rewrite Hu in *. lra. }
      apply (Zero s E).
      * apply Qabs_Qle_condition in Ev. rewrite Hu in *. lra.
      * lra.
Qed.

(** One axis of the round trip, for every rendered size up to twice the
    natural one. *)
Lemma round_trip_axis_within_one (x : Num.number) (n r : Z) :
  nonneg_finite x -> small_mantissa x ->
  (Num.to_Q x <= inject_Z r)%Q ->
  1 <= n <= 2 ^ 24 -> 1 <= r <= 2 ^ 24 -> r <= 2 * n ->
  (Qabs (Num.to_Q (Num.mul (Num.round (Num.mul x (Num.div (Num.of_Z n) (Num.of_Z r))))
                      (Num.div (Num.of_Z r) (Num.of_Z n)))
         - Num.to_Q x) <= 1)%Q.
Proof.
  intros Hx Hsx Hxr Hn Hr Hrn.
  destruct (Z.eq_dec r (2 * n)) as [-> | Hne].
  - apply round_trip_axis_edge; try assumption; lia.
  - apply round_trip_axis_binary64; try assumption. lia.
Qed.

Ltac by_computation :=
  vm_compute; first [reflexivity | discriminate | (intro; discriminate)].

(** C7, as the code has it. After a click in the retouch tab on an image
    whose natural and rendered dimensions are whole numbers between 1 and
    [2^24], the rendered ones at most twice the natural ones, at a
    rendered-local point between zero and the rendered dimension on each
    axis, the natural hotspot taken back through the inverse scale lies
    within one unit of the recorded rendered-local point, on both axes, all
    four operations being those of binary64. *)
Theorem hotspot_round_trip_within_one (s : AppState) (e : MouseEvent)
  (nw nh rw rh : Z) :
  activeTab s = retouch ->
  let img := currentTarget e in
  let localX := Num.sub (clientX e) (rect_left img) in
  let localY := Num.sub (clientY e) (rect_top img) in
  naturalWidth img = Num.of_Z nw -> naturalHeight img = Num.of_Z nh ->
  clientWidth img = Num.of_Z rw -> clientHeight img = Num.of_Z rh ->
  1 <= nw <= 2 ^ 24 -> 1 <= nh <= 2 ^ 24 ->
  1 <= rw <= 2 ^ 24 -> 1 <= rh <= 2 ^ 24 ->
  rw <= 2 * nw -> rh <= 2 * nh ->
  on_rendered_axis localX rw -> on_rendered_axis localY rh ->
  exists shown natural : Point,
    displayHotspot (step s (Click e)) = Some shown /\
    editHotspot (step s (Click e)) = Some natural /\
    (deviation (pt_x (back_to_rendered img natural)) (pt_x shown) <= 1)%Q /\
    (deviation (pt_y (back_to_rendered img natural)) (pt_y shown) <= 1)%Q.
Proof.
  intros Ht img localX localY Enw Enh Erw Erh Hnw Hnh Hrw Hrh Hw Hh
    (Nx & Sx & Bx) (Ny & Sy & By).
  unfold step, dispatch, run; cbn [handler].
  rewrite (handleImageClick_retouch e s s Ht). cbn [snd].
  eexists. eexists. split; [reflexivity |]. split; [reflexivity |].
  cbn [back_to_rendered pt_x pt_y]. fold img localX localY.
  rewrite Enw, Enh, Erw, Erh. unfold deviation. split.
  - apply round_trip_axis_within_one; assumption.
  - apply round_trip_axis_within_one; assumption.
Qed.

Lemma hotspot_round_trip_within_one_witness :
  exists shown natural : Point,
    displayHotspot (step loaded (Click sampleClick)) = Some shown /\
    editHotspot (step loaded (Click sampleClick)) = Some natural /\
    (deviation (pt_x (back_to_rendered sampleImage natural)) (pt_x shown) <= 1)%Q /\
    (deviation (pt_y (back_to_rendered sampleImage natural)) (pt_y shown) <= 1)%Q.
Proof.
  apply (hotspot_round_trip_within_one loaded sampleClick 800 600 400 300).
  - reflexivity.
  - reflexivity.
  - reflexivity.
  - reflexivity.
  - reflexivity.
  - lia.
  - lia.
  - lia.
  - lia.
  - lia.
  - lia.
  - split; [exact I |]. split; [reflexivity | by_computation].
  - split; [exact I |]. split; [reflexivity | by_computation].
Defined.

(** C7 as stated fails where the image is shown at more than twice its
    natural size: on a 1x1 image shown at 10x10, all four dimensions
    positive, the click at (4, 4) maps to the natural point (0, 0), which
    comes back as (0, 0), four units away. *)
Lemma round_trip_off_by_four :
  let img := imageOf 1 1 10 10 in
  let e := clickAt 4 4 img in
  let s := step loaded (Click e) in
  (is_positive (naturalWidth img) && is_positive (naturalHeight img) &&
   is_positive (clientWidth img) && is_positive (clientHeight img) = true) /\
  displayHotspot s = Some {| pt_x := Num.of_Z 4; pt_y := Num.of_Z 4 |} /\
  editHotspot s = Some {| pt_x := Num.zero; pt_y := Num.zero |} /\
  back_to_rendered img {| pt_x := Num.zero; pt_y := Num.zero |}
    = {| pt_x := Num.zero; pt_y := Num.zero |} /\
  within_one Num.zero (Num.of_Z 4) = false /\
  ~ (deviation Num.zero (Num.of_Z 4) <= 1)%Q.
Proof.
  repeat split. intro H. vm_compute in H. apply H. reflexivity.
Qed.

(** Nor does the bound hold at every magnitude. On an image of natural
    width [3 * 2^53] shown at [2^54], less than twice as wide, the click at
    [3 * 2^52 + 6] maps to 20266198323167240, the product
    20266198323167241 not being a binary64 number, and comes back as
    13510798882111492, two units away. *)
Lemma round_trip_off_at_large_magnitude :
  let img := imageOf (3 * 2 ^ 53) (3 * 2 ^ 53) (2 ^ 54) (2 ^ 54) in
  let e := clickAt (3 * 2 ^ 52 + 6) (3 * 2 ^ 52 + 6) img in
  let s := step loaded (Click e) in
  exists shown natural : Point,
    displayHotspot s = Some shown /\ editHotspot s = Some natural /\
    (Num.to_Q (pt_x shown) == inject_Z 13510798882111494)%Q /\
    (Num.to_Q (pt_x natural) == inject_Z 20266198323167240)%Q /\
    (Num.to_Q (pt_x (back_to_rendered img natural)) == inject_Z 13510798882111492)%Q /\
    within_one (pt_x (back_to_rendered img natural)) (pt_x shown) = false /\
    ~ (deviation (pt_x (back_to_rendered img natural)) (pt_x shown) <= 1)%Q.
Proof.
  cbv zeta. eexists. eexists.
  split; [vm_compute; reflexivity |]. split; [vm_compute; reflexivity |].
  split; [vm_compute; reflexivity |]. split; [vm_compute; reflexivity |].
  split; [vm_compute; reflexivity |]. split; [vm_compute; reflexivity |].
  intro H. vm_compute in H. apply H. reflexivity.
Qed.

(** ** The crop rasteriser *)

(** The size an [unsigned long] attribute keeps of a number between zero
    and [2^31]: its integral part. *)
Lemma to_unsigned_long_floor (size : Num.number) (default : Z) :
  in_raster_range size ->
  reflected default (to_unsigned_long size) = Qfloor (Num.to_Q size).
Proof.
  intros [Hn Hb]. destruct size as [sx | sx | | [|] m e]; try contradiction.
  - reflexivity.
  - assert (P : 0 < 2 ^ 32) by reflexivity.
    unfold to_unsigned_long, Num.to_Q in *. unfold Num.signed, cond_Zopp in *.
    destruct (Z.leb_spec 0 e) as [He | He].
    + rewrite Qfloor_Z. rewrite <- Zlt_Qlt in Hb.
      assert (0 <= Zpos m * 2 ^ e).
      { apply Z.mul_nonneg_nonneg; [lia | apply Z.pow_nonneg; lia]. }
      rewrite Z.mod_small by lia.
      unfold reflected. destruct (Z.leb_spec (Zpos m * 2 ^ e) 2147483647); [reflexivity | lia].
    + assert (Hp : 0 < 2 ^ (- e)) by (apply Z.pow_pos_nonneg; lia).
      assert (E : Zpos (Z.to_pos (2 ^ (- e))) = 2 ^ (- e)) by (apply Z2Pos.id; exact Hp).
      unfold Qfloor. rewrite E.
      rewrite Z.quot_div_nonneg by lia.
      assert (Hq : 0 <= Zpos m / 2 ^ (- e)) by (apply Z.div_pos; lia).
      assert (Hu : Zpos m / 2 ^ (- e) < 2 ^ 31).
      { apply Z.div_lt_upper_bound; [exact Hp |].
        unfold Qlt in Hb. cbn [Qnum Qden inject_Z] in Hb. rewrite E in Hb. lia. }
      rewrite Z.mod_small by lia.
      unfold reflected.
      destruct (Z.leb_spec (Zpos m / 2 ^ (- e)) 2147483647); [reflexivity | lia].
Qed.

(** The product of two positive whole numbers is exact as long as it is
    below [2^53]. *)
Lemma mul_of_Z_exact (a b : Z) :
  0 < a -> 0 < b -> a * b < 2 ^ 53 ->
  nonneg_finite (Num.mul (Num.of_Z a) (Num.of_Z b)) /\
  (Num.to_Q (Num.mul (Num.of_Z a) (Num.of_Z b)) == inject_Z (a * b))%Q.
Proof.
  intros Ha Hb Hab.
  assert (Ha53 : a < 2 ^ 53) by nia.
  assert (Hb53 : b < 2 ^ 53) by nia.
  destruct (of_Z_canonical a) as (ma & Ea & Hma & Dma); [lia |].
  destruct (of_Z_canonical b) as (mb & Eb & Hmb & Dmb); [lia |].
  rewrite Ea, Eb.
  set (da := Zdigits2 a) in *. set (db := Zdigits2 b) in *.
  assert (Hda : 1 <= da <= 53).
  { split; [unfold da; destruct a; cbn; lia | apply Zdigits2_le; lia]. }
  assert (Hdb : 1 <= db <= 53).
  { split; [unfold db; destruct b; cbn; lia | apply Zdigits2_le; lia]. }
  assert (Em : Zpos (ma * mb) = a * b * 2 ^ (106 - da - db)).
  { rewrite Pos2Z.inj_mul, Hma, Hmb.
    replace (106 - da - db) with ((53 - da) + (53 - db)) by lia.
    rewrite Z.pow_add_r by lia. ring. }
  assert (Hpk : 0 < 2 ^ (106 - da - db)) by (apply Z.pow_pos_nonneg; lia).
  assert (Dlo : 105 <= Zdigits2 (Zpos (ma * mb))).
  { assert (104 < Zdigits2 (Zpos (ma * mb))); [| lia].
    apply Zdigits2_ge; [lia |].
    destruct (Zdigits2_bounds (Zpos ma)) as [La _]; [lia |].
    destruct (Zdigits2_bounds (Zpos mb)) as [Lb _]; [lia |].
    rewrite Dma in La. rewrite Dmb in Lb.
    change (2 ^ (53 - 1)) with (2 ^ 52) in La, Lb.
    rewrite Pos2Z.inj_mul. change (2 ^ 104) with (2 ^ 52 * 2 ^ 52).
    apply Z.mul_le_mono_nonneg; lia. }
  assert (Dhi : Zdigits2 (Zpos (ma * mb)) <= 159 - da - db).
  { apply Zdigits2_le; [lia |]. split; [lia |]. rewrite Em.
    replace (159 - da - db) with (53 + (106 - da - db)) by lia.
    rewrite Z.pow_add_r by lia.
    apply Z.mul_lt_mono_pos_r; [exact Hpk | exact Hab]. }
  destruct (mul_value ma mb (da - 53) (db - 53)) as (m2 & Hf & Hsm & Hv & Hm2 & _ & Hex);
    [lia |].
  cbv zeta in Hv, Hex.
  set (m := Zpos (ma * mb)) in *. set (e := da - 53 + (db - 53)) in *.
  set (K := Z.max (fexp64 (Zdigits2 m + e) - e) 0) in *.
  assert (HK : K = Zdigits2 m - 53) by (unfold K, fexp64, e; lia).
  assert (HK0 : 0 <= K <= 106 - da - db) by lia.
  assert (Hz : m mod 2 ^ K = 0).
  { rewrite Em. replace (106 - da - db) with ((106 - da - db - K) + K) by lia.
    rewrite Z.pow_add_r by lia. rewrite Z.mul_assoc. apply Z.mod_mul.
    apply Z.pow_nonzero; lia. }
  specialize (Hex Hz).
  assert (V : (Num.to_Q (Num.mul (S754_finite false ma (da - 53))
                           (S754_finite false mb (db - 53)))
               == inject_Z (a * b))%Q).
  { rewrite Hv.
    assert (E : (inject_Z m2 * pow2 (e + K) == inject_Z (m2 * 2 ^ K) * pow2 e)%Q).
    { rewrite inject_Z_mult, (pow2_Z K) by lia. rewrite (Z.add_comm e K), pow2_add. ring. }
    rewrite E, Hex, Em, inject_Z_mult, (pow2_Z (106 - da - db)) by lia.
    rewrite <- Qmult_assoc, <- pow2_add.
    replace (106 - da - db + e) with 0 by (unfold e; lia).
    change (pow2 0) with 1%Q. ring. }
  split; [| exact V].
  apply nonneg_shape; [exact Hf |]. rewrite V.
  change 0%Q with (inject_Z 0). rewrite <- Zle_Qle. nia.
Qed.

(** C8, as the code has it. For a finalised selection, an image element at
    hand, a drawing context and a pixel ratio of at least one, the canvas
    that [handleApplyCrop] serialises measures the integral part of
    [selection.width * ratio] by the integral part of
    [selection.height * ratio] where these products lie between zero and
    [2^31], and [selection.width * ratio] by [selection.height * ratio]
    themselves for a selection and a ratio in whole numbers, whatever the
    image and its natural size; the file decoded from the canvas is appended
    to the history. The selection (50, 50, 100, 80) at ratio 2 on the freshly
    loaded 800x600 image shown at 400x300 gives a canvas of 200 by 160, and
    the history goes from one entry to two. *)
Theorem crop_output_size :
  (forall (s : AppState) (env : CropEnv) (completed : PixelCrop) (image : ImageElement),
      completedCrop s = Some completed ->
      imgRef env = Some image ->
      context2d env = true ->
      Num.leb Num.one (devicePixelRatio env) = true ->
      let base :=
        canvas_set_height (pc_height completed)
          (canvas_set_width (pc_width completed) createCanvas) in
      let canvas := croppedCanvas image completed (devicePixelRatio env) base in
      let width := Num.mul (pc_width completed) (devicePixelRatio env) in
      let height := Num.mul (pc_height completed) (devicePixelRatio env) in
      (in_raster_range width -> cv_width canvas = Qfloor (Num.to_Q width)) /\
      (in_raster_range height -> cv_height canvas = Qfloor (Num.to_Q height)) /\
      (forall w h d : Z,
          pc_width completed = Num.of_Z w -> pc_height completed = Num.of_Z h ->
          devicePixelRatio env = Num.of_Z d ->
          1 <= w -> 1 <= h -> 1 <= d -> w * d < 2 ^ 31 -> h * d < 2 ^ 31 ->
          cv_width canvas = w * d /\ cv_height canvas = h * d) /\
      (forall image' : ImageElement,
          cv_width (croppedCanvas image' completed (devicePixelRatio env) base)
            = cv_width canvas /\
          cv_height (croppedCanvas image' completed (devicePixelRatio env) base)
            = cv_height canvas) /\
      run (handler (ApplyCrop env)) s =
        match dataURLtoFile (toDataURL env canvas) (png_name "cropped-" (crop_now env)) with
        | inl f => (inl tt, snd (addImageToHistory f s s))
        | inr err => (inr err, s)
        end) /\
  (let s := withCompletedCrop (Some sampleCrop) loaded in
   let canvas :=
     croppedCanvas sampleImage sampleCrop (Num.of_Z 2)
       (canvas_set_height (Num.of_Z 80) (canvas_set_width (Num.of_Z 100) createCanvas)) in
   cv_width canvas = 200 /\ cv_height canvas = 160 /\
   len (history s) = 1 /\
   len (history (step s (ApplyCrop sampleEnv))) = 2 /\
   firstn 1 (history (step s (ApplyCrop sampleEnv))) = history s).
Proof.
  split.
  - intros s env completed image Hc Hi Hx Hr base canvas width height.
    assert (Ew : cv_width canvas = reflected 300 (to_unsigned_long width)) by reflexivity.
    assert (Eh : cv_height canvas = reflected 150 (to_unsigned_long height)) by reflexivity.
    split; [intro H; rewrite Ew; apply to_unsigned_long_floor; exact H |].
    split; [intro H; rewrite Eh; apply to_unsigned_long_floor; exact H |].
    split; [| split; [split; reflexivity |]].
    + intros w h d Pw Ph Pd Hw Hh Hd Hwd Hhd.
      assert (H31 : 2 ^ 31 < 2 ^ 53) by reflexivity.
      destruct (mul_of_Z_exact w d) as [Nw Vw]; [lia | lia | lia |].
      destruct (mul_of_Z_exact h d) as [Nh Vh]; [lia | lia | lia |].
      rewrite Ew, Eh. unfold width, height. rewrite Pw, Ph, Pd.
      rewrite !to_unsigned_long_floor.
      * rewrite Vw, Vh, !Qfloor_Z. split; reflexivity.
      * split; [exact Nh | rewrite Vh, <- Zlt_Qlt; exact Hhd].
      * split; [exact Nw | rewrite Vw, <- Zlt_Qlt; exact Hwd].
    + unfold run; cbn [handler].
      rewrite (handleApplyCrop_ends env s s completed image Hc Hi Hx). cbv zeta.
      rewrite (at_least_one_truthy _ Hr). reflexivity.
  - vm_compute. repeat split.
Qed.

Lemma crop_output_size_witness :
  let s := withCompletedCrop (Some sampleCrop) loaded in
  let canvas :=
    croppedCanvas sampleImage sampleCrop (Num.of_Z 2)
      (canvas_set_height (Num.of_Z 80) (canvas_set_width (Num.of_Z 100) createCanvas)) in
  cv_width canvas = 100 * 2 /\ cv_height canvas = 80 * 2 /\
  cv_width canvas = Qfloor (Num.to_Q (Num.mul (Num.of_Z 100) (Num.of_Z 2))).
Proof.
  intros s canvas.
  destruct (proj1 crop_output_size s sampleEnv sampleCrop sampleImage
              eq_refl eq_refl eq_refl eq_refl) as (Hw & _ & Hz & _).
  destruct (Hz 100 80 2 eq_refl eq_refl eq_refl) as [H1 H2]; try lia.
  split; [exact H1 |]. split; [exact H2 |].
  apply Hw. split; [exact I | by_computation].
Defined.

(** C8 as stated fails for a selection whose size times the ratio is not a
    whole number: the selection of 33.5 by 20.25 at ratio 1.5 has the products
    50.25 and 30.375, and the canvas that [handleApplyCrop] serialises
    measures 50 by 30. The environment below hands out a data URL for a
    canvas of 50 by 30 only, and the crop is committed. *)
Lemma fractional_selection_is_truncated :
  let width := Num.div (Num.of_Z 67) (Num.of_Z 2) in
  let height := Num.div (Num.of_Z 81) (Num.of_Z 4) in
  let density := Num.div (Num.of_Z 3) (Num.of_Z 2) in
  let completed :=
    {| pc_x := Num.of_Z 10; pc_y := Num.of_Z 10; pc_width := width; pc_height := height |} in
  let canvas :=
    croppedCanvas sampleImage completed density
      (canvas_set_height height (canvas_set_width width createCanvas)) in
  let env :=
    {| imgRef := Some sampleImage; context2d := true; devicePixelRatio := density;
       toDataURL := fun cv =>
         if (cv_width cv =? 50) && (cv_height cv =? 30) then sampleUrl else "void";
       crop_now := sampleNow |} in
  let s := withCompletedCrop (Some completed) loaded in
  Num.leb Num.one density = true /\
  (Num.to_Q (Num.mul width density) == 201 # 4)%Q /\
  (Num.to_Q (Num.mul height density) == 243 # 8)%Q /\
  cv_width canvas = 50 /\ cv_height canvas = 30 /\
  ~ (inject_Z (cv_width canvas) == Num.to_Q (Num.mul width density))%Q /\
  ~ (inject_Z (cv_height canvas) == Num.to_Q (Num.mul height density))%Q /\
  fst (run (handler (ApplyCrop env)) s) = inl tt /\
  len (history (step s (ApplyCrop env))) = 2.
Proof.
  cbv zeta.
  split; [vm_compute; reflexivity |]. split; [vm_compute; reflexivity |].
  split; [vm_compute; reflexivity |]. split; [vm_compute; reflexivity |].
  split; [vm_compute; reflexivity |].
  split; [intro H; vm_compute in H; discriminate H |].
  split; [intro H; vm_compute in H; discriminate H |].
  split; vm_compute; reflexivity.
Qed.


(** ** Failing collaborators *)

Lemma rejects_fails c ev prefix e s :
  rejects c ev prefix e ->
  handler ev c s = (inl tt, failed_with (prefix ++ errorMessage e) s).
Proof.
  intros [r now img hot e' Hc Hp Hh Hf | p r now img mask e' Hc Hm Hn Hmf
         | p r now img mask mf e' Hc Hm Hn Hmf Hf
         | p r now img e' Hc Hf | p r now img e' Hc Hf]; cbn [handler].
  - rewrite (handleGenerate_ends r now c s img hot Hc Hp Hh), Hf. reflexivity.
  - rewrite (handleGenerateFill_ends p r now c s img mask Hc Hm Hn), Hmf. reflexivity.
  - rewrite (handleGenerateFill_ends p r now c s img mask Hc Hm Hn), Hmf, Hf. reflexivity.
  - rewrite (handleApplyStyle_ends p r now c s img Hc), Hf. reflexivity.
  - rewrite (handleApplyAdjustment_ends p r now c s img Hc), Hf. reflexivity.
Qed.

(** The analysis handler when the answer fails: the user turn goes in,
    the error is recorded, and the last turn of the live log is dropped. *)
Lemma handleSendMessage_fails m partR respR c s img ps e :
  currentImage c = Some img ->
  user_parts c m partR = Some ps ->
  analysis_fails respR e ->
  handleSendMessage m partR respR c s =
  (inl tt,
   withIsLoading false
     (withChatHistory (slice (chatHistory c ++ [{| role := user; parts := ps |}]) 0 (-1))
        (withError (Some ("Failed to get analysis. " ++ errorMessage e)%string)
           (withChatHistory (chatHistory c ++ [{| role := user; parts := ps |}])
              (submitting s))))).
Proof.
  intros Hc Hp Hf. unfold handleSendMessage, user_parts in *. rewrite Hc.
  destruct (len (chatHistory c) =? 0).
  - destruct partR as [part | e1]; [| discriminate Hp].
    injection Hp as <-.
    destruct Hf as [e | resp reason Hb | resp Hb Ht | resp Hb Ht];
      exec_unfold; cbn; rewrite ?Hb, ?Ht; reflexivity.
  - injection Hp as <-.
    destruct Hf as [e | resp reason Hb | resp Hb Ht | resp Hb Ht];
      exec_unfold; cbn; rewrite ?Hb, ?Ht; reflexivity.
Qed.

(** When [fileToPart] fails no user turn is built at all. *)
Lemma handleSendMessage_part_fails m e respR c s img :
  currentImage c = Some img ->
  chatHistory c = [] ->
  handleSendMessage m (Rejected e) respR c s =
  (inl tt,
   withIsLoading false
     (withError (Some ("Could not process image for analysis. " ++ errorMessage e)%string)
        (submitting s))).
Proof.
  intros Hc Hh. unfold handleSendMessage. rewrite Hc, Hh. reflexivity.
Qed.

(** C9. When the call of a generation collaborator fails (its promise is
    rejected, or what it returns is malformed) the handler returns normally,
    records its message followed by the reason, and leaves the history
    sequence and the cursor as they were; when the analysis fails, the same
    holds and the conversation log is back to what it was before the user
    turn was added; when the image cannot be prepared for the first
    analysis, no user turn is added in the first place. *)
Theorem collaborator_failure_keeps_history (s : AppState) :
  (forall ev prefix e,
      rejects s ev prefix e ->
      fst (run (handler ev) s) = inl tt /\
      error (step s ev) = Some (prefix ++ errorMessage e)%string /\
      history (step s ev) = history s /\
      historyIndex (step s ev) = historyIndex s /\
      isLoading (step s ev) = false) /\
  (forall m partR respR img ps e,
      currentImage s = Some img ->
      user_parts s m partR = Some ps ->
      analysis_fails respR e ->
      let ev := SendMessage m partR respR in
      fst (run (handler ev) s) = inl tt /\
      error (step s ev) = Some ("Failed to get analysis. " ++ errorMessage e)%string /\
      history (step s ev) = history s /\
      historyIndex (step s ev) = historyIndex s /\
      chatHistory (step s ev) = chatHistory s /\
      isLoading (step s ev) = false) /\
  (forall m e respR img,
      currentImage s = Some img ->
      chatHistory s = [] ->
      let ev := SendMessage m (Rejected e) respR in
      fst (run (handler ev) s) = inl tt /\
      error (step s ev)
        = Some ("Could not process image for analysis. " ++ errorMessage e)%string /\
      history (step s ev) = history s /\
      historyIndex (step s ev) = historyIndex s /\
      chatHistory (step s ev) = chatHistory s /\
      isLoading (step s ev) = false).
Proof.
  split; [| split].
  - intros ev prefix e H. unfold step, dispatch, run.
    rewrite (rejects_fails s ev prefix e s H). cbn. repeat split.
  - intros m partR respR img ps e Hc Hp Hf ev. unfold step, dispatch, run; cbn [handler ev].
    rewrite (handleSendMessage_fails m partR respR s s img ps e Hc Hp Hf). cbn.
    rewrite slice_drop_last. repeat split.
  - intros m e respR img Hc Hh ev. unfold step, dispatch, run; cbn [handler ev].
    rewrite (handleSendMessage_part_fails m e respR s s img Hc Hh). cbn.
    repeat split.
Qed.

Lemma collaborator_failure_keeps_history_witness :
  let s := step loaded (SendMessage "Is it balanced?"
                          (Fulfilled (InlineData "image/png" "iVBORw0KGgo="))
                          (Fulfilled {| promptFeedback := None; response_text := Some "Yes." |})) in
  let style := Style "Apply a watercolor style." (Rejected (ErrorObject "Network down")) sampleNow in
  let ask := SendMessage "And the colours?" (Rejected OtherValue) (Rejected OtherValue) in
  (error (step s style) = Some "Failed to apply the style. Network down" /\
   history (step s style) = [sampleFile]) /\
  (error (step s ask) = Some "Failed to get analysis. An unknown error occurred." /\
   len (chatHistory s) = 2 /\
   chatHistory (step s ask) = chatHistory s).
Proof.
  intros s style ask.
  destruct (collaborator_failure_keeps_history s) as (Hgen & Han & _). split.
  - destruct (Hgen style "Failed to apply the style. " (ErrorObject "Network down"))
      as (_ & He & Hh & _).
    + apply (rejects_style s _ _ _ sampleFile); reflexivity.
    + split; [exact He | exact Hh].
  - destruct (Han "And the colours?" (Rejected OtherValue) (Rejected OtherValue)
                sampleFile [Text "And the colours?"] OtherValue)
      as (_ & He & _ & _ & Hc & _).
    + reflexivity.
    + reflexivity.
    + constructor.
    + split; [exact He |]. split; [reflexivity | exact Hc].
Defined.

(** ** Reset *)

(** C10, as the code has it. A reset of a non-empty history returns
    normally, puts the cursor on 0, empties the paint mask, the mask canvas
    and both hotspots, erases the conversation log, drops the recorded error
    and sets the has-initial-analysis-run flag to false, so that the first
    analysis is due again in the analyze tab; the history sequence, the
    prompt, the loading flag and the tab stay as they were. *)
Theorem reset_effects (s : AppState) :
  history s <> [] ->
  let s' := step s Reset in
  fst (run (handler Reset) s) = inl tt /\
  historyIndex s' = 0 /\
  maskDataUrl s' = None /\ hotspots_cleared s' /\
  maskCanvas s' = option_map clearMask (maskCanvas s) /\
  chatHistory s' = [] /\
  error s' = None /\
  hasInitialAnalysisRun s' = false /\
  history s' = history s /\
  prompt s' = prompt s /\ isLoading s' = isLoading s /\ activeTab s' = activeTab s /\
  (activeTab s = analyze -> isLoading s = false -> initialAnalysisDue s' = true).
Proof.
  intro Hne. cbv zeta. unfold step, dispatch, run; cbn [handler]. unfold handleReset.
  assert (Hl : (0 <? len (history s)) = true).
  { apply Z.ltb_lt. pose proof (len_nonneg (history s)).
    destruct (Z.eq_dec (len (history s)) 0) as [E | E]; [| lia].
    apply len_nil_iff in E. contradiction. }
  rewrite Hl. cbn. unfold hotspots_cleared. cbn.
  repeat split.
  intros Ht Hi. unfold initialAnalysisDue, currentImage, index. cbn.
  rewrite Ht, Hi. destruct (history s); [contradiction | reflexivity].
Qed.

Lemma reset_effects_witness :
  historyIndex (step (step loaded (Append sampleFile)) Reset) = 0 /\
  history (step (step loaded (Append sampleFile)) Reset) = [sampleFile; sampleFile].
Proof.
  assert (Hne : history (step loaded (Append sampleFile)) <> []) by discriminate.
  destruct (reset_effects (step loaded (Append sampleFile)) Hne)
    as (_ & Hi & _ & _ & _ & _ & _ & _ & Hh & _).
  split; [exact Hi | exact Hh].
Defined.

(** C10 as stated fails for the selection state: a crop rectangle and a
    completed crop survive the reset. *)
Lemma reset_keeps_crop :
  let area := {| crop_unit := px; crop_x := Num.of_Z 50; crop_y := Num.of_Z 50;
                 crop_width := Num.of_Z 100; crop_height := Num.of_Z 80 |} in
  let s := withCrop (Some area) (withCompletedCrop (Some sampleCrop) loaded) in
  history s <> [] /\
  crop (step s Reset) = Some area /\
  completedCrop (step s Reset) = Some sampleCrop /\
  ~ selection_cleared (step s Reset).
Proof.
  intros area s. split; [discriminate |]. split; [reflexivity |].
  split; [reflexivity |]. intros [[H _] _]. discriminate H.
Qed.

(** C4 as stated fails: a committed style edit leaves the hotspot of an
    earlier click in place, and an undo leaves the crop rectangle. *)
Lemma style_commit_keeps_hotspot :
  let s := steps initialState [Upload sampleFile; Click sampleClick] in
  let ev := Style "Apply a watercolor style." (Fulfilled sampleUrl) sampleNow in
  let f := {| f_bits := [77; 97; 110]%N; f_name := "styled-1700000000000.png";
              f_type := "image/png" |} in
  commits s ev f /\
  history (step s ev) = [sampleFile; f] /\
  editHotspot (step s ev) = Some {| pt_x := Num.of_Z 200; pt_y := Num.of_Z 300 |} /\
  ~ selection_cleared (step s ev).
Proof.
  intros s ev f. split.
  - apply (commits_style s _ _ _ sampleFile); reflexivity.
  - split; [reflexivity |]. split; [reflexivity |].
    intros [_ [H _]]. discriminate H.
Qed.

Lemma transient_state_cleared_witness :
  let s := steps initialState [Upload sampleFile; Click sampleClick] in
  let ev := Style "Apply a watercolor style." (Fulfilled sampleUrl) sampleNow in
  crop_and_mask_cleared (step s ev) /\
  hotspots_cleared (step (step s ev) Undo).
Proof.
  intros s ev. split.
  - destruct (transient_state_cleared s) as [H _].
    assert (Hc : commits s ev
                   {| f_bits := [77; 97; 110]%N; f_name := "styled-1700000000000.png";
                      f_type := "image/png" |})
      by (apply (commits_style s _ _ _ sampleFile); reflexivity).
    destruct (H _ _ Hc) as [G _]. exact G.
  - destruct (transient_state_cleared (step s ev)) as (_ & H & _).
    apply H. reflexivity.
Defined.

(** * Further properties of the editor and its panels *)

(** ** Undo and redo as a walk *)

Lemma state_eta (s : AppState) :
  s = {| history := history s; historyIndex := historyIndex s; prompt := prompt s;
         isLoading := isLoading s; error := error s; editHotspot := editHotspot s;
         displayHotspot := displayHotspot s; activeTab := activeTab s;
         chatHistory := chatHistory s;
         hasInitialAnalysisRun := hasInitialAnalysisRun s; crop := crop s;
         completedCrop := completedCrop s; maskDataUrl := maskDataUrl s;
         maskCanvas := maskCanvas s |}.
Proof. destruct s. reflexivity. Qed.

Lemma step_Undo (s : AppState) :
  step s Undo =
  if canUndo s then deselected (withHistoryIndex (historyIndex s - 1) s) else s.
Proof.
  unfold step, dispatch, run; cbn [handler]. unfold handleUndo.
  destruct (canUndo s); reflexivity.
Qed.

Lemma step_Redo (s : AppState) :
  step s Redo =
  if canRedo s then deselected (withHistoryIndex (historyIndex s + 1) s) else s.
Proof.
  unfold step, dispatch, run; cbn [handler]. unfold handleRedo.
  destruct (canRedo s); reflexivity.
Qed.

(** X1. An undo followed by a redo, and a redo followed by an undo, bring the
    cursor back: the state is the one before, but for the hotspots and the
    mask, which the walk has emptied. *)
Theorem undo_redo_round_trip (s : AppState) :
  history_inv s ->
  (canUndo s = true -> steps s [Undo; Redo] = deselected s) /\
  (canRedo s = true -> steps s [Redo; Undo] = deselected s).
Proof.
  intros [Hi Hiff]. split; intro H; cbn [steps fold_left].
  - rewrite step_Undo, H, step_Redo.
    assert (R : canRedo (deselected (withHistoryIndex (historyIndex s - 1) s)) = true).
    { unfold canRedo. cbn. apply Z.ltb_lt. lia. }
    rewrite R. unfold deselected. cbn.
    replace (historyIndex s - 1 + 1) with (historyIndex s) by lia.
    destruct s; reflexivity.
  - rewrite step_Redo, H, step_Undo.
    assert (U : canUndo (deselected (withHistoryIndex (historyIndex s + 1) s)) = true).
    { unfold canUndo, canRedo in *. cbn. apply Z.ltb_lt. apply Z.ltb_lt in H.
      destruct (Z.eq_dec (historyIndex s) (-1)) as [E | E]; [| lia].
      exfalso. rewrite E in H. apply Hiff in E. rewrite E in H.
      unfold len in H. cbn in H. lia. }
    rewrite U. unfold deselected. cbn.
    replace (historyIndex s + 1 - 1) with (historyIndex s) by lia.
    destruct s; reflexivity.
Qed.

Lemma undo_redo_round_trip_witness :
  steps (step loaded (Append sampleFile)) [Undo; Redo]
  = deselected (step loaded (Append sampleFile)).
Proof.
  assert (Hinv : history_inv (step loaded (Append sampleFile))).
  { unfold history_inv.
    change (history (step loaded (Append sampleFile))) with [sampleFile; sampleFile].
    change (historyIndex (step loaded (Append sampleFile))) with 1.
    unfold len. cbn. split; [lia |]. split; intro H; discriminate H. }
  destruct (undo_redo_round_trip (step loaded (Append sampleFile)) Hinv) as [H _].
  apply H. reflexivity.
Defined.

Lemma steps_snoc (s : AppState) (evs : list Event) (ev : Event) :
  steps s (evs ++ [ev]) = step (steps s evs) ev.
Proof. unfold steps. rewrite fold_left_app. reflexivity. Qed.

Lemma repeat_snoc {A} (x : A) (k : nat) : repeat x (S k) = repeat x k ++ [x].
Proof. induction k as [| k IH]; [reflexivity |]. cbn in *. rewrite <- IH. reflexivity. Qed.

(** X2. [k] undos in a row walk the cursor down by [k] and stop at the first
    entry; [k] redos walk it up by [k] and stop at the last one. The sequence
    itself is never touched. *)
Theorem repeated_undo_redo_stay_in_range (s : AppState) (k : nat) :
  history_inv s -> history s <> [] ->
  (history (steps s (repeat Undo k)) = history s /\
   historyIndex (steps s (repeat Undo k)) = Z.max (historyIndex s - Z.of_nat k) 0) /\
  (history (steps s (repeat Redo k)) = history s /\
   historyIndex (steps s (repeat Redo k))
     = Z.min (historyIndex s + Z.of_nat k) (len (history s) - 1)).
Proof.
  intros Hinv Hne. pose proof (history_inv_index s Hinv Hne) as Hi. split.
  - induction k as [| k [IHh IHi]]; [cbn; split; [reflexivity | lia] |].
    rewrite repeat_snoc, steps_snoc, step_Undo.
    set (t := steps s (repeat Undo k)) in *. unfold canUndo.
    destruct (Z.ltb_spec 0 (historyIndex t)) as [Hpos | Hle]; cbn.
    + split; [exact IHh | lia].
    + split; [exact IHh | lia].
  - induction k as [| k [IHh IHi]]; [cbn; split; [reflexivity | lia] |].
    rewrite repeat_snoc, steps_snoc, step_Redo.
    set (t := steps s (repeat Redo k)) in *. unfold canRedo. rewrite IHh.
    destruct (Z.ltb_spec (historyIndex t) (len (history s) - 1)) as [Hlt | Hge]; cbn.
    + split; [exact IHh | lia].
    + split; [exact IHh | lia].
Qed.

Lemma repeated_undo_redo_stay_in_range_witness :
  historyIndex (steps (step loaded (Append sampleFile)) (repeat Undo 5)) = 0 /\
  historyIndex (steps (step loaded (Append sampleFile)) (repeat Redo 5)) = 1.
Proof.
  assert (Hinv : history_inv (step loaded (Append sampleFile))).
  { unfold history_inv.
    change (history (step loaded (Append sampleFile))) with [sampleFile; sampleFile].
    change (historyIndex (step loaded (Append sampleFile))) with 1.
    unfold len. cbn. split; [lia |]. split; intro H; discriminate H. }
  assert (Hne : history (step loaded (Append sampleFile)) <> []) by discriminate.
  destruct (repeated_undo_redo_stay_in_range (step loaded (Append sampleFile)) 5 Hinv Hne)
    as [[_ Hu] [_ Hr]].
  split; [exact Hu | exact Hr].
Defined.

(** ** The past is never rewritten *)

Lemma index_app_l {A} (l l' : list A) (i : Z) :
  i < len l -> index (l ++ l') i = index l i.
Proof.
  intro Hi. unfold index. destruct (i <? 0) eqn:E; [reflexivity |].
  apply Z.ltb_ge in E. apply nth_error_app1. unfold len in Hi. lia.
Qed.

Lemma index_slice_prefix {A} (l : list A) (e i : Z) :
  0 <= i < e -> index (slice l 0 e) i = index l i.
Proof.
  intro Hi. rewrite slice_prefix by lia. unfold index.
  destruct (i <? 0) eqn:E; [reflexivity |].
  rewrite nth_error_firstn.
  destruct (Nat.ltb_spec (Z.to_nat i) (Z.to_nat e)) as [_ | H]; [reflexivity | lia].
Qed.

(** What an event other than an upload or the teardown does to the
    sequence: nothing, or the append after the prefix that ends at the
    cursor. *)
Lemma step_history (ev : Event) (s : AppState) :
  replaces_history ev = false ->
  history (step s ev) = history s \/
  exists f, history (step s ev) = slice (history s) 0 (historyIndex s + 1) ++ [f].
Proof.
  intro Hev.
  assert (G : forall s', history_effect s s s' ->
              history s' = history s \/
              exists f, history s' = slice (history s) 0 (historyIndex s + 1) ++ [f]).
  { intros s' [[Hh _] | (f & Hh & _)]; [left; exact Hh | right; exists f; exact Hh]. }
  unfold step, dispatch, run.
  destruct ev as [file | file | | | | | r now | p r now | p r now | p r now
                 | env | m partR respR | partR respR | e]; cbn [handler];
    try discriminate Hev.
  - right. exists file. reflexivity.
  - left. unfold handleUndo. destruct (canUndo s); reflexivity.
  - left. unfold handleRedo. destruct (canRedo s); reflexivity.
  - left. unfold handleReset. destruct (0 <? len (history s)); reflexivity.
  - apply G, handleGenerate_effect.
  - apply G, handleGenerateFill_effect.
  - apply G, handleApplyStyle_effect.
  - apply G, handleApplyAdjustment_effect.
  - apply G, handleApplyCrop_effect.
  - left. apply handleSendMessage_history.
  - left. apply triggerInitialAnalysis_history.
  - left. apply handleImageClick_history.
Qed.

(** X3. No event other than an upload or the teardown for a new upload changes
    an entry at or below the cursor; the original image, entry 0, is the same
    after any edit, undo, redo, reset, analysis or click. *)
Theorem edits_never_rewrite_the_past (ev : Event) (s : AppState) :
  replaces_history ev = false ->
  history_inv s -> history s <> [] ->
  (forall i, 0 <= i <= historyIndex s ->
             index (history (step s ev)) i = index (history s) i) /\
  originalImage (step s ev) = originalImage s.
Proof.
  intros Hev Hinv Hne. pose proof (history_inv_index s Hinv Hne) as Hi.
  assert (G : forall i, 0 <= i <= historyIndex s ->
                        index (history (step s ev)) i = index (history s) i).
  { intros i Hr. destruct (step_history ev s Hev) as [-> | (f & ->)]; [reflexivity |].
    rewrite index_app_l.
    - apply index_slice_prefix. lia.
    - rewrite len_slice_prefix by lia. lia. }
  split; [exact G |]. unfold originalImage. apply G. lia.
Qed.

Lemma edits_never_rewrite_the_past_witness :
  originalImage
    (step loaded (Style "Apply a watercolor style." (Fulfilled sampleUrl) sampleNow))
  = Some sampleFile.
Proof.
  assert (Hinv : history_inv loaded).
  { unfold history_inv.
    change (history loaded) with [sampleFile]. change (historyIndex loaded) with 0.
    unfold len. cbn. split; [lia |]. split; intro H; discriminate H. }
  assert (Hne : history loaded <> []) by discriminate.
  destruct (edits_never_rewrite_the_past
              (Style "Apply a watercolor style." (Fulfilled sampleUrl) sampleNow)
              loaded eq_refl Hinv Hne) as [_ H].
  exact H.
Defined.

(** ** A committed edit, undone and redone *)

Lemma index_app_last {A} (l : list A) (x : A) : index (l ++ [x]) (len l) = Some x.
Proof.
  unfold index. pose proof (len_nonneg l) as Hl.
  destruct (Z.ltb_spec (len l) 0) as [H | _]; [lia |].
  unfold len. rewrite Nat2Z.id, nth_error_app2 by lia.
  rewrite Nat.sub_diag. reflexivity.
Qed.

(** X4. After a committed edit the new file is the current image, there is
    nothing to redo and one step to undo; the undo shows the image the edit
    started from, and the redo after it shows the new file again. *)
Theorem committed_edit_undo_redo (s : AppState) (ev : Event) (f : File) :
  commits s ev f -> history_inv s -> history s <> [] ->
  currentImage (step s ev) = Some f /\
  canRedo (step s ev) = false /\ canUndo (step s ev) = true /\
  currentImage (steps s [ev; Undo]) = currentImage s /\
  currentImage (steps s [ev; Undo; Redo]) = Some f.
Proof.
  intros Hc Hinv Hne. pose proof (history_inv_index s Hinv Hne) as Hi.
  destruct (commits_appends s ev f s Hc) as (_ & Hh & Hx & _).
  change (snd (handler ev s s)) with (step s ev) in Hh, Hx.
  set (s1 := step s ev) in *.
  set (p := slice (history s) 0 (historyIndex s + 1)) in *.
  assert (Hp : len p = historyIndex s + 1).
  { unfold p. rewrite len_slice_prefix by lia. lia. }
  assert (Hx1 : historyIndex s1 = historyIndex s + 1).
  { rewrite Hx, Hh, len_app, Hp. change (len [f]) with 1. lia. }
  assert (Hl1 : len (history s1) = historyIndex s + 2).
  { rewrite Hh, len_app, Hp. change (len [f]) with 1. lia. }
  assert (C1 : currentImage s1 = Some f).
  { unfold currentImage. rewrite Hx1, Hh, <- Hp. apply index_app_last. }
  assert (R1 : canRedo s1 = false).
  { unfold canRedo. apply Z.ltb_ge. lia. }
  assert (U1 : canUndo s1 = true).
  { unfold canUndo. apply Z.ltb_lt. lia. }
  split; [exact C1 |]. split; [exact R1 |]. split; [exact U1 |].
  cbn [steps fold_left]. fold s1. rewrite step_Undo, U1.
  set (s2 := deselected (withHistoryIndex (historyIndex s1 - 1) s1)).
  assert (Hh2 : history s2 = history s1) by reflexivity.
  assert (Hx2 : historyIndex s2 = historyIndex s) by (unfold s2; cbn; lia).
  split.
  - unfold currentImage. rewrite Hh2, Hx2, Hh.
    rewrite index_app_l by lia. unfold p. apply index_slice_prefix. lia.
  - rewrite step_Redo.
    assert (R2 : canRedo s2 = true).
    { unfold canRedo. rewrite Hh2, Hx2, Hl1. apply Z.ltb_lt. lia. }
    rewrite R2. unfold currentImage. cbn [deselected].
    change (history (deselected (withHistoryIndex (historyIndex s2 + 1) s2)))
      with (history s1).
    change (historyIndex (deselected (withHistoryIndex (historyIndex s2 + 1) s2)))
      with (historyIndex s2 + 1).
    rewrite Hx2, Hh, <- Hp. apply index_app_last.
Qed.

Lemma committed_edit_undo_redo_witness :
  let ev := Style "Apply a watercolor style." (Fulfilled sampleUrl) sampleNow in
  currentImage (steps loaded [ev; Undo]) = Some sampleFile /\
  canRedo (step loaded ev) = false.
Proof.
  intro ev.
  assert (Hc : commits loaded ev
                 {| f_bits := [77; 97; 110]%N; f_name := "styled-1700000000000.png";
                    f_type := "image/png" |})
    by (apply (commits_style loaded _ _ _ sampleFile); reflexivity).
  assert (Hinv : history_inv loaded).
  { unfold history_inv.
    change (history loaded) with [sampleFile]. change (historyIndex loaded) with 0.
    unfold len. cbn. split; [lia |]. split; intro H; discriminate H. }
  assert (Hne : history loaded <> []) by discriminate.
  destruct (committed_edit_undo_redo loaded ev _ Hc Hinv Hne) as (_ & R & _ & U & _).
  split; [exact U | exact R].
Defined.

(** ** The loading flag and thrown errors *)

(** X5. No handler leaves the loading flag raised: once an event is handled the
    flag is down, or it is as it was. *)
Theorem loading_flag_is_lowered (ev : Event) (s : AppState) :
  isLoading (step s ev) = false \/ isLoading (step s ev) = isLoading s.
Proof.
  unfold step, dispatch, run.
  destruct ev as [file | file | | | | | r now | p r now | p r now | p r now
                 | env | m partR respR | partR respR | e]; cbn [handler].
  - right. reflexivity.
  - right. reflexivity.
  - right. unfold handleUndo. destruct (canUndo s); reflexivity.
  - right. unfold handleRedo. destruct (canRedo s); reflexivity.
  - right. unfold handleReset. destruct (0 <? len (history s)); reflexivity.
  - right. reflexivity.
  - unfold handleGenerate. destruct r as [url | e]; crunch;
      solve [left; reflexivity | right; reflexivity].
  - unfold handleGenerateFill. destruct r as [url | e]; crunch;
      solve [left; reflexivity | right; reflexivity].
  - unfold handleApplyStyle. destruct r as [url | e]; crunch;
      solve [left; reflexivity | right; reflexivity].
  - unfold handleApplyAdjustment. destruct r as [url | e]; crunch;
      solve [left; reflexivity | right; reflexivity].
  - unfold handleApplyCrop. crunch; right; reflexivity.
  - unfold handleSendMessage. destruct partR as [part | e1], respR as [resp | e2]; crunch;
      solve [left; reflexivity | right; reflexivity].
  - unfold triggerInitialAnalysis, handleSendMessage.
    destruct partR as [part | e1], respR as [resp | e2]; crunch;
      solve [left; reflexivity | right; reflexivity].
  - unfold handleImageClick. destruct (negb (Tab_eqb (activeTab s) retouch)); right; reflexivity.
Qed.




(** ** The conversation log *)

Lemma conversation_snoc (l : list Content) (u m : Content) :
  conversation false l -> user_turn false u -> model_turn m ->
  conversation false (l ++ [u; m]).
Proof.
  intros Hl Hu Hm. remember false as b eqn:Hb. induction Hl as [b | b u0 m0 rest Hu0 Hm0 Hrest IH].
  - subst b. cbn. constructor; [assumption | assumption | constructor].
  - cbn. constructor; [assumption | assumption |].
    apply IH; [reflexivity |]. subst b. exact Hu.
Qed.

Lemma conversation_exchange (l : list Content) (u m : Content) :
  conversation true l -> user_turn (len l =? 0) u -> model_turn m ->
  conversation true (l ++ [u; m]).
Proof.
  intros Hl Hu Hm. inversion Hl as [b | b u0 m0 rest Hu0 Hm0 Hrest]; subst.
  - cbn in *. constructor; [assumption | assumption | constructor].
  - cbn. constructor; [assumption | assumption |].
    apply conversation_snoc; assumption.
Qed.

(** What [handleSendMessage] does to the log when the live log is the one
    of its closure: nothing, or one exchange more. *)
Lemma handleSendMessage_chat m partR respR c s :
  chatHistory s = chatHistory c ->
  let s' := snd (handleSendMessage m partR respR c s) in
  chatHistory s' = chatHistory c \/
  exists u mt,
    user_turn (len (chatHistory c) =? 0) u /\ model_turn mt /\
    chatHistory s' = chatHistory c ++ [u; mt].
Proof.
  intros Hs. cbv zeta. unfold handleSendMessage.
  destruct (currentImage c); [| left; exact Hs].
  destruct (len (chatHistory c) =? 0) eqn:El.
  - destruct partR as [part | e1]; [| left; exact Hs].
    destruct respR as [resp | e2]; exec_unfold; cbn.
    + destruct (blocked resp); cbn; [left; apply slice_drop_last |].
      destruct (response_text resp) as [t |]; cbn; [| left; apply slice_drop_last].
      destruct (nonempty t) eqn:Et; cbn; [| left; apply slice_drop_last].
      right. eexists. eexists. split; [| split; [| rewrite <- app_assoc; reflexivity]].
      * split; [reflexivity |]. eexists. eexists. reflexivity.
      * split; [reflexivity |]. exists t. split; [reflexivity | exact Et].
    + left. apply slice_drop_last.
  - destruct respR as [resp | e2]; exec_unfold; cbn.
    + destruct (blocked resp); cbn; [left; apply slice_drop_last |].
      destruct (response_text resp) as [t |]; cbn; [| left; apply slice_drop_last].
      destruct (nonempty t) eqn:Et; cbn; [| left; apply slice_drop_last].
      right. eexists. eexists. split; [| split; [| rewrite <- app_assoc; reflexivity]].
      * split; [reflexivity |]. eexists. reflexivity.
      * split; [reflexivity |]. exists t. split; [reflexivity | exact Et].
    + left. apply slice_drop_last.
Qed.

Lemma step_conversation (ev : Event) (s : AppState) :
  conversation true (chatHistory s) -> conversation true (chatHistory (step s ev)).
Proof.
  intro Hc.
  assert (G : forall s',
             (chatHistory s' = chatHistory s \/
              exists u mt,
                user_turn (len (chatHistory s) =? 0) u /\ model_turn mt /\
                chatHistory s' = chatHistory s ++ [u; mt]) ->
             conversation true (chatHistory s')).
  { intros s' [-> | (u & mt & Hu & Hm & ->)]; [exact Hc |].
    apply conversation_exchange; assumption. }
  unfold step, dispatch, run.
  destruct ev as [file | file | | | | | r now | p r now | p r now | p r now
                 | env | m partR respR | partR respR | e]; cbn [handler].
  - constructor.
  - exact Hc.
  - unfold handleUndo. destruct (canUndo s); exact Hc.
  - unfold handleRedo. destruct (canRedo s); [exact Hc | exact Hc].
  - unfold handleReset. destruct (0 <? len (history s)); [constructor | exact Hc].
  - constructor.
  - unfold handleGenerate. destruct r as [url | e]; crunch; exact Hc.
  - unfold handleGenerateFill. destruct r as [url | e]; crunch; exact Hc.
  - unfold handleApplyStyle. destruct r as [url | e]; crunch; exact Hc.
  - unfold handleApplyAdjustment. destruct r as [url | e]; crunch; exact Hc.
  - unfold handleApplyCrop. crunch; exact Hc.
  - apply G. apply handleSendMessage_chat. reflexivity.
  - unfold triggerInitialAnalysis. destruct (initialAnalysisDue s); [| exact Hc].
    apply G.
    apply (handleSendMessage_chat initial_analysis_message partR respR s
             (withHasInitialAnalysisRun true s)).
    reflexivity.
  - unfold handleImageClick. destruct (negb (Tab_eqb (activeTab s) retouch)); exact Hc.
Qed.

(** X7. Handled one after the other, each handler run until the promises it
    awaits have settled and no other event handled meanwhile, the events keep
    the shape of the conversation log, from whatever state and in whatever
    tab: if the log is a sequence of completed exchanges before, a user turn
    followed by the model's non-empty text with the image part in the first
    user turn and in no other, then it is one after. A failed analysis leaves
    no half exchange behind once its handler has returned; the log that is
    rendered while the answer is awaited ends with the turn of the user and
    is a state within the handler, not one of those meant here. *)
Theorem conversation_log_is_well_formed (s : AppState) (evs : list Event) :
  conversation true (chatHistory s) ->
  conversation true (chatHistory (steps s evs)).
Proof.
  revert s. induction evs as [| ev evs IH]; intros s Hs; [exact Hs |].
  cbn. apply IH. apply step_conversation. exact Hs.
Qed.

Lemma conversation_log_is_well_formed_witness :
  let s := withActiveTab analyze loaded in
  let image := InlineData "image/png" "iVBORw0KGgo=" in
  let answer t := Fulfilled {| promptFeedback := None; response_text := Some t |} in
  let evs :=
    [InitialAnalysis (Fulfilled image) (answer "A calm palette.");
     SendMessage "And the shading?" (Fulfilled image) (Rejected OtherValue);
     SendMessage "And the shading?" (Fulfilled image) (answer "Soft.");
     Undo] in
  conversation true (chatHistory (steps s evs)) /\
  chatHistory (steps s evs)
  = [ {| role := user; parts := [image; Text initial_analysis_message] |};
      {| role := model; parts := [Text "A calm palette."] |};
      {| role := user; parts := [Text "And the shading?"] |};
      {| role := model; parts := [Text "Soft."] |} ].
Proof.
  intros s image answer evs. split; [| reflexivity].
  apply (conversation_log_is_well_formed s evs). constructor.
Defined.

(** ** The automatic first analysis *)

Lemma handleSendMessage_flag m partR respR c s :
  hasInitialAnalysisRun (snd (handleSendMessage m partR respR c s))
  = hasInitialAnalysisRun s.
Proof.
  unfold handleSendMessage.
  destruct partR as [part | e1], respR as [resp | e2]; crunch; reflexivity.
Qed.

Lemma flag_stays_raised (ev : Event) (s : AppState) :
  rearms_analysis ev = false ->
  hasInitialAnalysisRun s = true -> hasInitialAnalysisRun (step s ev) = true.
Proof.
  intros Hev Hf. unfold step, dispatch, run.
  destruct ev as [file | file | | | | | r now | p r now | p r now | p r now
                 | env | m partR respR | partR respR | e]; cbn [handler];
    try discriminate Hev.
  - exact Hf.
  - unfold handleUndo. destruct (canUndo s); exact Hf.
  - unfold handleRedo. destruct (canRedo s); exact Hf.
  - exact Hf.
  - unfold handleGenerate. destruct r as [url | e]; crunch; exact Hf.
  - unfold handleGenerateFill. destruct r as [url | e]; crunch; exact Hf.
  - unfold handleApplyStyle. destruct r as [url | e]; crunch; exact Hf.
  - unfold handleApplyAdjustment. destruct r as [url | e]; crunch; exact Hf.
  - unfold handleApplyCrop. crunch; exact Hf.
  - rewrite handleSendMessage_flag. exact Hf.
  - unfold triggerInitialAnalysis. destruct (initialAnalysisDue s); [| exact Hf].
    cbn -[handleSendMessage]. rewrite handleSendMessage_flag. reflexivity.
  - unfold handleImageClick. destruct (negb (Tab_eqb (activeTab s) retouch)); exact Hf.
Qed.

(** X8. Once the automatic first analysis has been started it is not started
    again, whether it succeeded or failed, until an upload or a reset: after
    any events other than these two, the effect that triggers it leaves the
    state as it is. *)
Theorem initial_analysis_runs_once
  (s : AppState) (partR partR' : Settled Part) (respR respR' : Settled AnalysisResponse)
  (evs : list Event) :
  initialAnalysisDue s = true ->
  forallb (fun ev => negb (rearms_analysis ev)) evs = true ->
  let s1 := steps (step s (InitialAnalysis partR respR)) evs in
  hasInitialAnalysisRun s1 = true /\
  initialAnalysisDue s1 = false /\
  step s1 (InitialAnalysis partR' respR') = s1.
Proof.
  intros Hdue Hevs s1.
  assert (H0 : hasInitialAnalysisRun (step s (InitialAnalysis partR respR)) = true).
  { unfold step, dispatch, run; cbn [handler]. unfold triggerInitialAnalysis.
    rewrite Hdue. cbn -[handleSendMessage]. rewrite handleSendMessage_flag. reflexivity. }
  assert (H1 : hasInitialAnalysisRun s1 = true).
  { unfold s1. revert H0. generalize (step s (InitialAnalysis partR respR)).
    induction evs as [| ev evs IH]; intros t Ht; [exact Ht |].
    cbn in Hevs. apply andb_prop in Hevs. destruct Hevs as [Hev Hevs].
    cbn. apply (IH Hevs). apply flag_stays_raised; [| exact Ht].
    destruct (rearms_analysis ev); [discriminate Hev | reflexivity]. }
  assert (H2 : initialAnalysisDue s1 = false).
  { unfold initialAnalysisDue. rewrite H1. cbn.
    rewrite !andb_false_r. reflexivity. }
  split; [exact H1 |]. split; [exact H2 |].
  unfold step, dispatch, run; cbn [handler]. unfold triggerInitialAnalysis.
  rewrite H2. reflexivity.
Qed.

Lemma initial_analysis_runs_once_witness :
  let s := withActiveTab analyze loaded in
  let s1 := steps (step s (InitialAnalysis (Rejected OtherValue) (Rejected OtherValue)))
              [Undo; Click sampleClick] in
  chatHistory s1 = [] /\ error s1 <> None /\
  step s1 (InitialAnalysis (Fulfilled (InlineData "image/png" "iVBORw0KGgo="))
             (Fulfilled {| promptFeedback := None; response_text := Some "Fine." |})) = s1.
Proof.
  intros s s1.
  destruct (initial_analysis_runs_once s (Rejected OtherValue)
              (Fulfilled (InlineData "image/png" "iVBORw0KGgo="))
              (Rejected OtherValue)
              (Fulfilled {| promptFeedback := None; response_text := Some "Fine." |})
              [Undo; Click sampleClick] eq_refl eq_refl) as (_ & _ & H).
  split; [reflexivity |]. split; [discriminate | exact H].
Defined.

(** ** The hotspot stays within the image *)

(** One axis: a point between [0] and the rendered dimension [r] is mapped
    to a whole number between [0] and the natural dimension [n]. *)
Lemma scaled_coordinate_in_range (x : Num.number) (n r : Z) :
  nonneg_finite x -> (Num.to_Q x <= inject_Z r)%Q ->
  1 <= n <= 2 ^ 24 -> 1 <= r <= 2 ^ 24 ->
  exists k : Z,
    0 <= k <= n /\
    Num.is_finite (Num.round (Num.mul x (Num.div (Num.of_Z n) (Num.of_Z r)))) = true /\
    (Num.to_Q (Num.round (Num.mul x (Num.div (Num.of_Z n) (Num.of_Z r))))
     == inject_Z k)%Q.
Proof.
  intros Hx Hxr Hn Hr.
  assert (H24 : 2 ^ 24 < 2 ^ 53) by reflexivity.
  destruct (nonneg_finite_value x Hx) as [_ Hx0].
  destruct (div_error n r) as [(ms & es & Esc) Hsc]; [lia | lia |].
  set (sc := Num.div (Num.of_Z n) (Num.of_Z r)) in *.
  assert (Nsc : nonneg_finite sc) by (rewrite Esc; exact I).
  destruct (nonneg_finite_value sc Nsc) as [_ Hsc0].
  assert (Qn : (1 <= inject_Z n <= inject_Z (2 ^ 24))%Q).
  { split; [change 1%Q with (inject_Z 1) |]; rewrite <- Zle_Qle; lia. }
  assert (Qr : (1 <= inject_Z r <= inject_Z (2 ^ 24))%Q).
  { split; [change 1%Q with (inject_Z 1) |]; rewrite <- Zle_Qle; lia. }
  set (N := inject_Z n) in *. set (R := inject_Z r) in *.
  change (inject_Z (2 ^ 24)) with (16777216 # 1)%Q in Qn, Qr.
  assert (Hu : (u64 == 1 # 9007199254740992)%Q) by reflexivity.
  pose proof eta64_small as Heta.
  assert (Heta0 : (0 < eta64)%Q) by apply pow2_pos.
  change (1 # 2 ^ 60)%Q with (1 # 1152921504606846976)%Q in Heta.
  apply Qabs_Qle_condition in Hsc. destruct Hsc as [_ Hsc].
  assert (HuN : (u64 * N <= (1 # 9007199254740992) * N)%Q)
    by (rewrite Hu; apply Qle_refl).
  assert (Bsc : (Num.to_Q sc <= pow2 25)%Q).
  { change (pow2 25) with (33554432 # 1)%Q.
    assert ((Num.to_Q sc * 1 <= Num.to_Q sc * R)%Q)
      by (apply Qmult_le_mono_l; [exact Hsc0 | apply Qr]).
    lra. }
  assert (Bx : (Num.to_Q x <= pow2 24)%Q).
  { change (pow2 24) with (16777216 # 1)%Q. lra. }
  destruct (mul_nonneg x sc 24 25 Hx Nsc Bx Bsc) as (Nv & Sv & Ev); [lia |].
  set (v := Num.mul x sc) in *.
  destruct (nonneg_finite_value v Nv) as [Fv Hv0].
  assert (HP0 : (0 <= Num.to_Q x * Num.to_Q sc)%Q) by (apply Qmult_le_0_compat; assumption).
  assert (HP : (Num.to_Q x * Num.to_Q sc <= Num.to_Q sc * R)%Q).
  { rewrite (Qmult_comm (Num.to_Q x)). apply Qmult_le_mono_l; assumption. }
  set (P := (Num.to_Q x * Num.to_Q sc)%Q) in *.
  assert (HuP : (u64 * P <= (1 # 9007199254740992) * P)%Q)
    by (rewrite Hu; apply Qle_refl).
  apply Qabs_Qle_condition in Ev. destruct Ev as [_ Ev].
  assert (Bv : (Num.to_Q v + (1 # 2) < N + 1)%Q) by lra.
  assert (Habs : (Qabs (Num.to_Q v) < inject_Z (2 ^ 52))%Q).
  { rewrite Qabs_pos by exact Hv0.
    change (inject_Z (2 ^ 52)) with (4503599627370496 # 1)%Q. lra. }
  destruct (round_floor v Fv Habs) as [Fr Vr].
  exists (Qfloor (Num.to_Q v + (1 # 2))).
  split; [| split; [exact Fr | exact Vr]].
  pose proof (Qfloor_le (Num.to_Q v + (1 # 2))) as F1.
  pose proof (Qlt_floor (Num.to_Q v + (1 # 2))) as F2.
  set (k := Qfloor (Num.to_Q v + (1 # 2))) in *.
  split.
  - assert ((inject_Z 0 < inject_Z (k + 1))%Q) by (change (inject_Z 0) with 0%Q; lra).
    rewrite <- Zlt_Qlt in H. lia.
  - assert ((inject_Z k < inject_Z (n + 1))%Q).
    { rewrite (inject_Z_plus n 1). change (inject_Z 1) with 1%Q. fold N. lra. }
    rewrite <- Zlt_Qlt in H. lia.
Qed.

(** X9. A click in the retouch tab at a point of the rendered image, on an
    image whose natural and rendered dimensions are whole numbers between 1
    and [2^24], records a natural-space hotspot with whole coordinates that
    lie within the natural image: between 0 and the natural width, and
    between 0 and the natural height. *)
Theorem hotspot_lies_within_the_image (s : AppState) (e : MouseEvent)
  (nw nh rw rh : Z) :
  activeTab s = retouch ->
  let img := currentTarget e in
  let localX := Num.sub (clientX e) (rect_left img) in
  let localY := Num.sub (clientY e) (rect_top img) in
  naturalWidth img = Num.of_Z nw -> naturalHeight img = Num.of_Z nh ->
  clientWidth img = Num.of_Z rw -> clientHeight img = Num.of_Z rh ->
  1 <= nw <= 2 ^ 24 -> 1 <= nh <= 2 ^ 24 ->
  1 <= rw <= 2 ^ 24 -> 1 <= rh <= 2 ^ 24 ->
  on_rendered_axis localX rw -> on_rendered_axis localY rh ->
  exists (h : Point) (kx ky : Z),
    editHotspot (step s (Click e)) = Some h /\
    Num.is_finite (pt_x h) = true /\ Num.is_finite (pt_y h) = true /\
    (Num.to_Q (pt_x h) == inject_Z kx)%Q /\ 0 <= kx <= nw /\
    (Num.to_Q (pt_y h) == inject_Z ky)%Q /\ 0 <= ky <= nh.
Proof.
  intros Ht img localX localY Enw Enh Erw Erh Hnw Hnh Hrw Hrh
    (Nx & _ & Bx) (Ny & _ & By).
  unfold step, dispatch, run; cbn [handler].
  rewrite (handleImageClick_retouch e s s Ht). cbn [snd].
  fold img localX localY. rewrite Enw, Enh, Erw, Erh.
  destruct (scaled_coordinate_in_range localX nw rw Nx Bx Hnw Hrw) as (kx & Hkx & Fx & Vx).
  destruct (scaled_coordinate_in_range localY nh rh Ny By Hnh Hrh) as (ky & Hky & Fy & Vy).
  eexists. exists kx, ky. split; [reflexivity |]. cbn [pt_x pt_y].
  split; [exact Fx |]. split; [exact Fy |].
  split; [exact Vx |]. split; [exact Hkx |]. split; [exact Vy | exact Hky].
Qed.

Lemma hotspot_lies_within_the_image_witness :
  exists (h : Point) (kx ky : Z),
    editHotspot (step loaded (Click (clickAt 400 300 sampleImage))) = Some h /\
    (Num.to_Q (pt_x h) == inject_Z kx)%Q /\ 0 <= kx <= 800 /\
    (Num.to_Q (pt_y h) == inject_Z ky)%Q /\ 0 <= ky <= 600.
Proof.
  destruct (hotspot_lies_within_the_image loaded (clickAt 400 300 sampleImage)
              800 600 400 300) as (h & kx & ky & H & _ & _ & Vx & Hx & Vy & Hy).
  - reflexivity.
  - reflexivity.
  - reflexivity.
  - reflexivity.
  - reflexivity.
  - lia.
  - lia.
  - lia.
  - lia.
  - split; [exact I |]. split; [reflexivity | by_computation].
  - split; [exact I |]. split; [reflexivity | by_computation].
  - exists h, kx, ky. split; [exact H |]. split; [exact Vx |]. split; [exact Hx |].
    split; [exact Vy | exact Hy].
Defined.

(** ** [dataURLtoFile]: what it reads and what it rejects *)

Lemma list_ascii_of_string_app (a b : string) :
  list_ascii_of_string (a ++ b)%string = list_ascii_of_string a ++ list_ascii_of_string b.
Proof. induction a as [| c a IH]; [reflexivity |]. cbn. rewrite IH. reflexivity. Qed.

Lemma split_from_plain (sep : ascii) (acc a : list ascii) :
  ~ In sep a -> split_from sep acc a = [string_of_list_ascii (rev acc ++ a)].
Proof.
  revert acc. induction a as [| c a IH]; intros acc Hn.
  - cbn. rewrite app_nil_r. reflexivity.
  - cbn. destruct (Ascii.eqb_spec c sep) as [-> | Hc].
    + exfalso. apply Hn. left. reflexivity.
    + rewrite IH by (intro H; apply Hn; right; exact H).
      cbn. rewrite <- app_assoc. reflexivity.
Qed.

Lemma split_from_first (sep : ascii) (acc a b : list ascii) :
  ~ In sep a ->
  split_from sep acc (a ++ sep :: b)
  = string_of_list_ascii (rev acc ++ a) :: split_from sep [] b.
Proof.
  revert acc. induction a as [| c a IH]; intros acc Hn.
  - cbn. rewrite Ascii.eqb_refl, app_nil_r. reflexivity.
  - cbn. destruct (Ascii.eqb_spec c sep) as [-> | Hc].
    + exfalso. apply Hn. left. reflexivity.
    + rewrite IH by (intro H; apply Hn; right; exact H).
      cbn. rewrite <- app_assoc. reflexivity.
Qed.

Lemma split_from_nonempty (sep : ascii) (acc s : list ascii) :
  (1 <= List.length (split_from sep acc s))%nat.
Proof.
  revert acc. induction s as [| c s IH]; intro acc; cbn; [lia |].
  destruct (Ascii.eqb c sep); [cbn; lia | apply IH].
Qed.

Lemma split_from_length (sep : ascii) (acc s : list ascii) :
  In sep s -> (2 <= List.length (split_from sep acc s))%nat.
Proof.
  revert acc. induction s as [| c s IH]; intros acc Hin; [contradiction |].
  cbn. destruct (Ascii.eqb_spec c sep) as [-> | Hc].
  - cbn. pose proof (split_from_nonempty sep [] s). lia.
  - apply IH. destruct Hin as [E | Hin]; [contradiction | exact Hin].
Qed.

Lemma split_two (a b : string) :
  ~ In ","%char (list_ascii_of_string a) ->
  ~ In ","%char (list_ascii_of_string b) ->
  split "," (a ++ "," ++ b)%string = [a; b].
Proof.
  intros Ha Hb. unfold split. rewrite list_ascii_of_string_app. cbn [list_ascii_of_string].
  change (list_ascii_of_string ("," ++ b)%string) with (","%char :: list_ascii_of_string b).
  rewrite split_from_first by exact Ha. rewrite split_from_plain by exact Hb.
  cbn. rewrite !string_of_list_ascii_of_string. reflexivity.
Qed.

Lemma split_more (a b rest : string) :
  ~ In ","%char (list_ascii_of_string a) ->
  ~ In ","%char (list_ascii_of_string b) ->
  exists tail, split "," (a ++ "," ++ b ++ "," ++ rest)%string = a :: b :: tail.
Proof.
  intros Ha Hb. unfold split. rewrite list_ascii_of_string_app.
  change (list_ascii_of_string ("," ++ b ++ "," ++ rest)%string)
    with (","%char :: list_ascii_of_string (b ++ "," ++ rest)%string).
  rewrite split_from_first by exact Ha.
  rewrite list_ascii_of_string_app.
  change (list_ascii_of_string ("," ++ rest)%string)
    with (","%char :: list_ascii_of_string rest).
  rewrite split_from_first by exact Hb.
  cbn. rewrite !string_of_list_ascii_of_string. eexists. reflexivity.
Qed.

(** X10. [dataURLtoFile] reads the header in front of the first comma and the
    payload between the first and the second: whatever follows a second
    comma has no influence on the file or on the error. *)
Theorem dataURLtoFile_ignores_what_follows_a_second_comma
  (header payload rest filename : string) :
  ~ In ","%char (list_ascii_of_string header) ->
  ~ In ","%char (list_ascii_of_string payload) ->
  dataURLtoFile (header ++ "," ++ payload ++ "," ++ rest) filename
  = dataURLtoFile (header ++ "," ++ payload) filename.
Proof.
  intros Hh Hp. unfold dataURLtoFile.
  destruct (split_more header payload rest Hh Hp) as (tail & ->).
  rewrite (split_two header payload Hh Hp).
  assert (L : (len (header :: payload :: tail) <? 2) = false).
  { apply Z.ltb_ge. unfold len. cbn [List.length]. lia. }
  rewrite L. reflexivity.
Qed.

Lemma dataURLtoFile_ignores_what_follows_a_second_comma_witness :
  dataURLtoFile "data:image/png;base64,TWFu,charset=utf-8,TQ==" "a.png"
  = inl {| f_bits := [77; 97; 110]%N; f_name := "a.png"; f_type := "image/png" |}.
Proof.
  change "data:image/png;base64,TWFu,charset=utf-8,TQ=="
    with ("data:image/png;base64" ++ "," ++ "TWFu" ++ "," ++ "charset=utf-8,TQ==")%string.
  rewrite (dataURLtoFile_ignores_what_follows_a_second_comma
             "data:image/png;base64" "TWFu" "charset=utf-8,TQ==" "a.png").
  - reflexivity.
  - cbn. intuition discriminate.
  - cbn. intuition discriminate.
Defined.

(** X11. [dataURLtoFile] throws [Invalid data URL] exactly when the string has
    no comma. *)
Theorem dataURLtoFile_invalid_iff_no_comma (dataurl filename : string) :
  dataURLtoFile dataurl filename = inr (ErrorObject "Invalid data URL")
  <-> ~ In ","%char (list_ascii_of_string dataurl).
Proof.
  unfold dataURLtoFile, split. split.
  - intros H Hin.
    pose proof (split_from_length ","%char [] (list_ascii_of_string dataurl) Hin) as L.
    assert (E : (len (split_from "," [] (list_ascii_of_string dataurl)) <? 2) = false).
    { apply Z.ltb_ge. unfold len. lia. }
    rewrite E in H.
    destruct (match_mime _) as [mime |]; [| discriminate H].
    destruct (negb (nonempty mime)); [discriminate H |].
    destruct (atob _); discriminate H.
  - intro Hn. rewrite split_from_plain by exact Hn. reflexivity.
Qed.

Lemma dataURLtoFile_invalid_iff_no_comma_witness :
  dataURLtoFile "iVBORw0KGgo=" "a.png" = inr (ErrorObject "Invalid data URL").
Proof.
  apply (proj2 (dataURLtoFile_invalid_iff_no_comma "iVBORw0KGgo=" "a.png")).
  cbn. intuition discriminate.
Defined.

Lemma lazy_upto_semicolon_plain (s g : string) :
  lazy_upto_semicolon s = Some g -> ~ In ";"%char (list_ascii_of_string g).
Proof.
  revert g. induction s as [| c s IH]; intros g H; [discriminate H |].
  cbn in H. destruct (Ascii.eqb_spec c ";") as [-> | Hc].
  - injection H as <-. intros [].
  - destruct (is_line_terminator c); [discriminate H |].
    destruct (lazy_upto_semicolon s) as [g' |]; [| discriminate H].
    injection H as <-. cbn. intros [E | Hin]; [contradiction |].
    apply (IH g' eq_refl). exact Hin.
Qed.

Lemma match_mime_plain (s g : string) :
  match_mime s = Some g -> ~ In ";"%char (list_ascii_of_string g).
Proof.
  induction s as [| c s IH]; intro H; [discriminate H |].
  cbn in H. destruct (Ascii.eqb c ":"); [| apply IH; exact H].
  destruct (lazy_upto_semicolon s) as [g' |] eqn:E; [| apply IH; exact H].
  injection H as <-. apply (lazy_upto_semicolon_plain s g' E).
Qed.

Lemma sextets_length (s : list ascii) (vs : list N) :
  sextets s = Some vs -> List.length vs = List.length s.
Proof.
  revert vs. induction s as [| c s IH]; intros vs H.
  - injection H as <-. reflexivity.
  - cbn in H. destruct (sextet c); [| discriminate H].
    destruct (sextets s) as [vs' |]; [| discriminate H].
    injection H as <-. cbn. rewrite (IH vs' eq_refl). reflexivity.
Qed.

Lemma octets_length (n : nat) (vs : list N) :
  (List.length vs <= n)%nat -> (4 * List.length (octets vs) <= 3 * List.length vs)%nat.
Proof.
  revert vs. induction n as [| n IH]; intros vs Hn.
  - destruct vs; [cbn; lia | cbn in Hn; lia].
  - destruct vs as [| a [| b [| c [| d r]]]]; cbn [octets List.length]; try lia.
    assert (H : (List.length r <= n)%nat) by (cbn in Hn; lia).
    pose proof (IH r H). lia.
Qed.

(** What [strip_padding] returns: the string, or the string without its
    last or its two last characters. *)
Lemma strip_padding_cases (s : list ascii) :
  strip_padding s = s \/
  (exists c, s = strip_padding s ++ [c]) \/
  (exists c d, s = strip_padding s ++ [c; d]).
Proof.
  unfold strip_padding. destruct (Nat.modulo (List.length s) 4 =? 0)%nat; [| left; reflexivity].
  assert (R : s = rev (rev s)) by (symmetry; apply rev_involutive).
  destruct (rev s) as [| c1 l]; [left; reflexivity |].
  destruct (Ascii.eqb_spec c1 "=") as [-> | H1].
  - destruct l as [| c2 r].
    + right. left. exists "="%char. rewrite R at 1. reflexivity.
    + destruct (Ascii.eqb_spec c2 "=") as [-> | H2].
      * right. right. exists "="%char, "="%char. rewrite R at 1. cbn.
        rewrite <- app_assoc. reflexivity.
      * right. left. exists "="%char.
        replace (match c2 with
                 | "="%char => rev r
                 | _ => rev (c2 :: r)
                 end) with (rev (c2 :: r)).
        -- rewrite R at 1. reflexivity.
        -- destruct c2 as [[] [] [] [] [] [] [] []]; try reflexivity.
           contradiction H2. reflexivity.
  - left. destruct c1 as [[] [] [] [] [] [] [] []]; try reflexivity.
    contradiction H1. reflexivity.
Qed.

Lemma strip_padding_length (s : list ascii) :
  (List.length (strip_padding s) <= List.length s)%nat.
Proof.
  destruct (strip_padding_cases s) as [-> | [(c & E) | (c & d & E)]]; [lia | |].
  - rewrite E at 2. rewrite length_app. lia.
  - rewrite E at 2. rewrite length_app. lia.
Qed.

Lemma string_length_of_list (l : list ascii) :
  String.length (string_of_list_ascii l) = List.length l.
Proof. induction l as [| c l IH]; [reflexivity |]. cbn. rewrite IH. reflexivity. Qed.

Lemma list_length_of_string (s : string) :
  List.length (list_ascii_of_string s) = String.length s.
Proof. induction s as [| c s IH]; [reflexivity |]. cbn. rewrite IH. reflexivity. Qed.

Lemma split_from_segments (sep : ascii) (acc s : list ascii) (seg : string) :
  In seg (split_from sep acc s) ->
  (String.length seg <= List.length acc + List.length s)%nat.
Proof.
  revert acc. induction s as [| c s IH]; intros acc Hin.
  - cbn in Hin. destruct Hin as [<- | []].
    rewrite string_length_of_list, length_rev. lia.
  - cbn in Hin. destruct (Ascii.eqb c sep).
    + destruct Hin as [<- | Hin].
      * rewrite string_length_of_list, length_rev. lia.
      * apply IH in Hin. cbn in *. lia.
    + apply IH in Hin. cbn in *. lia.
Qed.

Lemma nth_split_length (i : nat) (s : string) :
  (String.length (nth i (split "," s) EmptyString) <= String.length s)%nat.
Proof.
  destruct (nth_in_or_default i (split "," s) EmptyString) as [Hin | ->]; [| cbn; lia].
  unfold split in Hin. apply split_from_segments in Hin.
  rewrite list_length_of_string in Hin. cbn in Hin. exact Hin.
Qed.

Lemma atob_length (s b : string) :
  atob s = Some b -> (4 * String.length b <= 3 * String.length s)%nat.
Proof.
  unfold atob. intro H.
  set (data := strip_padding
                 (filter (fun c => negb (is_ascii_whitespace c)) (list_ascii_of_string s))) in *.
  destruct (Nat.modulo (List.length data) 4 =? 1)%nat; [discriminate H |].
  destruct (sextets data) as [vs |] eqn:E; [| discriminate H].
  injection H as <-.
  rewrite string_length_of_list, length_map.
  pose proof (octets_length (List.length vs) vs (Nat.le_refl _)) as Ho.
  rewrite (sextets_length data vs E) in Ho.
  pose proof (strip_padding_length
                (filter (fun c => negb (is_ascii_whitespace c)) (list_ascii_of_string s))) as Hs.
  fold data in Hs.
  pose proof (filter_length_le (fun c => negb (is_ascii_whitespace c))
                (list_ascii_of_string s)) as Hf.
  rewrite list_length_of_string in Hf. lia.
Qed.

Lemma ascii_lowercase_printable (c : ascii) :
  is_printable c = true ->
  is_printable (ascii_lowercase c) = true /\
  is_uppercase (ascii_lowercase c) = false /\
  (ascii_lowercase c = ";"%char -> c = ";"%char).
Proof.
  destruct c as [[] [] [] [] [] [] [] []]; vm_compute; intro H;
    (split; [exact H || reflexivity |]); (split; [reflexivity |]);
    intro E; first [exact E | discriminate E].
Qed.

(** The characters of the type of a file. *)
Lemma File_type_characters (type : string) (c : ascii) :
  ~ In ";"%char (list_ascii_of_string type) ->
  In c (list_ascii_of_string (File_type type)) ->
  is_printable c = true /\ is_uppercase c = false /\ c <> ";"%char.
Proof.
  intros Hs Hin. unfold File_type in Hin.
  destruct (forallb is_printable (list_ascii_of_string type)) eqn:Ep; [| destruct Hin].
  rewrite list_ascii_of_string_of_list_ascii in Hin.
  apply in_map_iff in Hin. destruct Hin as (c0 & <- & Hin0).
  rewrite forallb_forall in Ep.
  destruct (ascii_lowercase_printable c0 (Ep c0 Hin0)) as (H1 & H2 & H3).
  split; [exact H1 |]. split; [exact H2 |].
  intro E. apply Hs. rewrite <- (H3 E). exact Hin0.
Qed.

(** X12. A file that [dataURLtoFile] returns has the name it was given, a
    type made of characters between U+0020 and U+007E with no upper-case
    letter and no semicolon among them, bytes below 256, and at most three
    bytes for every four characters of the data URL. The type is the matched
    one in lower case, and it is empty when the matched one holds a character
    outside that range, a tab for one. *)
Theorem dataURLtoFile_file_shape :
  (forall (dataurl filename : string) (f : File),
      dataURLtoFile dataurl filename = inl f ->
      f_name f = filename /\
      (forall c, In c (list_ascii_of_string (f_type f)) ->
                 is_printable c = true /\ is_uppercase c = false /\ c <> ";"%char) /\
      (forall b, In b (f_bits f) -> (b < 256)%N) /\
      4 * len (f_bits f) <= 3 * Z.of_nat (String.length dataurl)) /\
  dataURLtoFile "data:IMAGE/Png;base64,TQ==" "a.png"
  = inl {| f_bits := [77%N]; f_name := "a.png"; f_type := "image/png" |} /\
  dataURLtoFile ("data:image/png" ++ String (ascii_of_N 9) ";base64,TQ==") "a.png"
  = inl {| f_bits := [77%N]; f_name := "a.png"; f_type := EmptyString |}.
Proof.
  split; [| split; reflexivity].
  intros dataurl filename f. unfold dataURLtoFile. intro H.
  destruct (len (split "," dataurl) <? 2); [discriminate H |].
  destruct (match_mime (nth 0 (split "," dataurl) EmptyString)) as [mime |] eqn:Em;
    [| discriminate H].
  destruct (nonempty mime) eqn:En; cbn [negb] in H; [| discriminate H].
  destruct (atob (nth 1 (split "," dataurl) EmptyString)) as [bstr |] eqn:Ea;
    [| discriminate H].
  injection H as <-. unfold new_File. cbn [f_name f_type f_bits].
  split; [reflexivity |].
  split; [intros c Hc; apply (File_type_characters mime c (match_mime_plain _ _ Em) Hc) |].
  split.
  - intros b Hin. apply in_map_iff in Hin. destruct Hin as (c & <- & _).
    apply N_ascii_bounded.
  - pose proof (atob_length _ _ Ea) as Hl.
    pose proof (nth_split_length 1 dataurl) as Hn.
    unfold len. rewrite length_map, list_length_of_string. lia.
Qed.

Lemma dataURLtoFile_file_shape_witness :
  f_name {| f_bits := [77; 97; 110]%N; f_name := "a.png"; f_type := "image/png" |} = "a.png" /\
  4 * len [77; 97; 110]%N <= 3 * Z.of_nat (String.length sampleUrl).
Proof.
  destruct (proj1 dataURLtoFile_file_shape sampleUrl "a.png"
              {| f_bits := [77; 97; 110]%N; f_name := "a.png"; f_type := "image/png" |}
              eq_refl) as (H1 & _ & _ & H4).
  split; [exact H1 | exact H4].
Defined.

(** ** The quick edit panel *)

Lemma QuickEditPanel_handleFileSelect_consistent file url s :
  QuickEditPanel.consistent s ->
  QuickEditPanel.consistent (QuickEditPanel.handleFileSelect file url s).
Proof.
  intros (Hl & Ht & Hu & Hr). unfold QuickEditPanel.handleFileSelect.
  destruct file as [f |]; [| repeat split; try assumption; apply Hu].
  destruct (startsWith (f_type f) "image/") eqn:E; cbn [negb].
  - unfold QuickEditPanel.consistent. cbn. split; [exact Hl |]. split.
    + intros f' H. injection H as <-. exact E.
    + split; [split; intro H; discriminate H | intros _ H; discriminate H].
  - unfold QuickEditPanel.consistent. cbn. repeat split; try assumption; apply Hu.
Qed.

Lemma QuickEditPanel_step_consistent ev s :
  QuickEditPanel.consistent s -> QuickEditPanel.consistent (QuickEditPanel.step s ev).
Proof.
  intro Hs. destruct ev as [files url | files url | | | value | r]; cbn [QuickEditPanel.step].
  - apply QuickEditPanel_handleFileSelect_consistent. exact Hs.
  - apply QuickEditPanel_handleFileSelect_consistent.
    destruct Hs as (Hl & Ht & Hu & Hr). repeat split; try assumption; apply Hu.
  - destruct Hs as (Hl & Ht & Hu & Hr). repeat split; try assumption; apply Hu.
  - destruct Hs as (Hl & Ht & Hu & Hr). repeat split; try assumption; apply Hu.
  - destruct Hs as (Hl & Ht & Hu & Hr). repeat split; try assumption; apply Hu.
  - destruct Hs as (Hl & Ht & Hu & Hr). unfold QuickEditPanel.handleGenerate.
    destruct (QuickEditPanel.imageFile s) as [f |] eqn:Ef.
    + destruct (nonempty (trim (QuickEditPanel.prompt s))).
      * destruct r as [url | e]; unfold QuickEditPanel.consistent; cbn; rewrite Ef;
          (split; [reflexivity |]); (split; [exact Ht |]); (split; [exact Hu |]);
          intros _ H; discriminate H.
      * unfold QuickEditPanel.consistent; cbn. rewrite Ef.
        split; [exact Hl |]. split; [exact Ht |]. split; [exact Hu | exact Hr].
    + unfold QuickEditPanel.consistent; cbn. rewrite Ef.
      split; [exact Hl |]. split; [exact Ht |]. split; [exact Hu | exact Hr].
Qed.

(** X13. Whatever is dropped, picked, typed or generated, between two events the
    quick edit panel is not loading, the file it holds has a type that
    starts with [image/], it has a preview URL exactly when it holds a file,
    and it shows a result only when it holds a file. *)
Theorem quick_edit_panel_is_consistent (evs : list QuickEditPanel.Event) :
  QuickEditPanel.consistent (QuickEditPanel.steps QuickEditPanel.initialState evs).
Proof.
  assert (G : forall s, QuickEditPanel.consistent s ->
                        QuickEditPanel.consistent (QuickEditPanel.steps s evs)).
  { induction evs as [| ev evs IH]; intros s Hs; [exact Hs |].
    cbn. apply IH. apply QuickEditPanel_step_consistent. exact Hs. }
  apply G. unfold QuickEditPanel.consistent. cbn.
  split; [reflexivity |]. split; [intros f H; discriminate H |].
  split; [split; reflexivity | intro H; contradiction H; reflexivity].
Qed.

(** X14. With the generate button enabled, a generation passes the guard of
    [handleGenerate]: it ends with the result and no error when the promise is
    fulfilled, with the error and no result when it is rejected, in both cases
    with the loading flag down and the file, its preview and the prompt as
    they were. The message of the guard cannot come up through the button. *)
Theorem quick_edit_enabled_button_generates (r : Settled string) (s : QuickEditPanel.State) :
  QuickEditPanel.generateDisabled s = false ->
  let s' := QuickEditPanel.step s (QuickEditPanel.Generate r) in
  QuickEditPanel.isLoading s' = false /\
  match r with
  | Fulfilled url =>
      QuickEditPanel.resultImageUrl s' = Some url /\ QuickEditPanel.error s' = None
  | Rejected e =>
      QuickEditPanel.resultImageUrl s' = None /\
      QuickEditPanel.error s'
      = Some ("Failed to generate the image. " ++ errorMessage e)%string
  end /\
  QuickEditPanel.error s' <> Some "Please provide an image and a prompt." /\
  QuickEditPanel.imageFile s' = QuickEditPanel.imageFile s /\
  QuickEditPanel.imageUrl s' = QuickEditPanel.imageUrl s /\
  QuickEditPanel.prompt s' = QuickEditPanel.prompt s.
Proof.
  intro Hd. unfold QuickEditPanel.generateDisabled in Hd.
  apply orb_false_elim in Hd. destruct Hd as [Hd Hp].
  apply orb_false_elim in Hd. destruct Hd as [_ Hf].
  apply negb_false_iff in Hp. apply negb_false_iff in Hf.
  cbv zeta. cbn [QuickEditPanel.step]. unfold QuickEditPanel.handleGenerate.
  destruct (QuickEditPanel.imageFile s) as [f |] eqn:Ef; [| discriminate Hf].
  rewrite Hp.
  destruct r as [url | e]; cbn; rewrite Ef.
  - split; [reflexivity |]. split; [split; reflexivity |].
    split; [discriminate |]. repeat split.
  - split; [reflexivity |]. split; [split; reflexivity |].
    split; [| repeat split].
    intro H. injection H as H. discriminate H.
Qed.

Lemma quick_edit_enabled_button_generates_witness :
  let s := QuickEditPanel.steps QuickEditPanel.initialState
             [QuickEditPanel.Drop (Some [sampleFile]) "blob:1";
              QuickEditPanel.PromptChange "make it a watercolor painting"] in
  QuickEditPanel.resultImageUrl
    (QuickEditPanel.step s (QuickEditPanel.Generate (Fulfilled sampleUrl)))
  = Some sampleUrl.
Proof.
  intro s.
  destruct (quick_edit_enabled_button_generates (Fulfilled sampleUrl) s eq_refl)
    as (_ & [H _] & _).
  exact H.
Defined.

(** ** [trim] *)

Lemma trimStart_head (l : list ascii) :
  match trimStart l with c :: _ => is_js_space c = false | [] => True end.
Proof.
  induction l as [| c l IH]; [exact I |].
  cbn. destruct (is_js_space c) eqn:E; [exact IH | exact E].
Qed.

Lemma trimStart_fixed (l : list ascii) :
  match l with c :: _ => is_js_space c = false | [] => True end -> trimStart l = l.
Proof. destruct l as [| c l]; [reflexivity |]. cbn. intros ->. reflexivity. Qed.

Lemma trimStart_suffix (l : list ascii) : exists pre, l = pre ++ trimStart l.
Proof.
  induction l as [| c l (pre & IH)]; [exists []; reflexivity |].
  cbn. destruct (is_js_space c).
  - exists (c :: pre). cbn. rewrite <- IH. reflexivity.
  - exists []. reflexivity.
Qed.

(** The characters of [trim s]: no white space at either end. *)
Lemma trim_ends (s : string) :
  let t := list_ascii_of_string (trim s) in
  trimStart t = t /\ trimStart (rev t) = rev t.
Proof.
  unfold trim. cbv zeta. rewrite list_ascii_of_string_of_list_ascii.
  set (A := trimStart (list_ascii_of_string s)).
  set (B := trimStart (rev A)).
  pose proof (trimStart_head (list_ascii_of_string s)) as HA. fold A in HA.
  pose proof (trimStart_head (rev A)) as HB. fold B in HB.
  destruct (trimStart_suffix (rev A)) as (pre & Hpre). fold B in Hpre.
  split.
  - apply trimStart_fixed.
    assert (EA : A = rev B ++ rev pre).
    { rewrite <- (rev_involutive A), Hpre, rev_app_distr. reflexivity. }
    destruct (rev B) as [| c r] eqn:Er; [exact I |].
    rewrite EA in HA. cbn in HA. exact HA.
  - rewrite rev_involutive. apply trimStart_fixed. exact HB.
Qed.

Lemma trim_idempotent (s : string) : trim (trim s) = trim s.
Proof.
  destruct (trim_ends s) as [H1 H2]. cbv zeta in *.
  unfold trim at 1. rewrite H1, H2, rev_involutive.
  apply string_of_list_ascii_of_string.
Qed.

(** ** The analysis panel *)

(** X15. The form of the analysis panel sends a message exactly when its submit
    button is enabled; the message it sends is the input without the white
    space at its ends, is not empty, and trimming it again changes nothing;
    the input is emptied after a send and kept otherwise. *)
Theorem analyze_panel_sends_trimmed_text (isLoading : bool) (input : string) :
  let r := AnalyzePanel.handleSubmit isLoading input in
  (AnalyzePanel.sent r = None <-> AnalyzePanel.submitDisabled isLoading input = true) /\
  (AnalyzePanel.sent r = None -> AnalyzePanel.input_after r = input) /\
  (forall m, AnalyzePanel.sent r = Some m ->
             m = trim input /\ nonempty m = true /\ trim m = m /\
             AnalyzePanel.input_after r = EmptyString).
Proof.
  cbv zeta. unfold AnalyzePanel.handleSubmit, AnalyzePanel.submitDisabled.
  destruct (nonempty (trim input)) eqn:En, isLoading; cbn.
  - split; [split; reflexivity |]. split; [reflexivity |]. intros m H. discriminate H.
  - split; [split; intro H; discriminate H |]. split; [intro H; discriminate H |].
    intros m H. injection H as <-.
    split; [reflexivity |]. split; [exact En |]. split; [apply trim_idempotent | reflexivity].
  - split; [split; reflexivity |]. split; [reflexivity |]. intros m H. discriminate H.
  - split; [split; reflexivity |]. split; [reflexivity |]. intros m H. discriminate H.
Qed.

Lemma analyze_panel_sends_trimmed_text_witness :
  AnalyzePanel.sent (AnalyzePanel.handleSubmit false "  What can I improve? ")
  = Some "What can I improve?" /\
  trim "What can I improve?" = "What can I improve?".
Proof.
  destruct (analyze_panel_sends_trimmed_text false "  What can I improve? ") as (_ & _ & H).
  destruct (H "What can I improve?" eq_refl) as (_ & _ & Ht & _).
  split; [reflexivity | exact Ht].
Defined.

Lemma join_empty_app (a b : list string) :
  join_empty (a ++ b) = (join_empty a ++ join_empty b)%string.
Proof.
  induction a as [| x a IH]; [reflexivity |].
  cbn. rewrite IH. induction x as [| c x IHx]; [reflexivity |].
  cbn. rewrite IHx. reflexivity.
Qed.

Lemma string_append_nil_r (s : string) : (s ++ EmptyString)%string = s.
Proof. induction s as [| c s IH]; [reflexivity |]. cbn. rewrite IH. reflexivity. Qed.

Lemma getTextFromParts_text (t : string) : AnalyzePanel.getTextFromParts [Text t] = t.
Proof. unfold AnalyzePanel.getTextFromParts. cbn. apply string_append_nil_r. Qed.

(** X16. The text of a turn is the texts of its parts, in their order, one after
    the other; an image part adds nothing to it. *)
Theorem text_of_parts_concatenates (a b : list Part) :
  AnalyzePanel.getTextFromParts (a ++ b)
  = (AnalyzePanel.getTextFromParts a ++ AnalyzePanel.getTextFromParts b)%string /\
  (forall mime data, AnalyzePanel.getTextFromParts (InlineData mime data :: b)
                     = AnalyzePanel.getTextFromParts b) /\
  (forall t, AnalyzePanel.getTextFromParts [Text t] = t).
Proof.
  unfold AnalyzePanel.getTextFromParts. split; [| split].
  - rewrite map_app. apply join_empty_app.
  - reflexivity.
  - apply getTextFromParts_text.
Qed.

(** X17. What the panel renders of the log after the automatic first analysis
    has been answered: the turn of the user, which carries the image and the
    prompt that [App] sends on its own, is left out, and the answer is the one
    bubble; no placeholder is shown. *)
Theorem automatic_prompt_is_not_rendered
  (s : AppState) (mimeType data answer : string) (response : AnalysisResponse) :
  initialAnalysisDue s = true ->
  blocked response = None ->
  response_text response = Some answer ->
  nonempty answer = true ->
  let s' := step s (InitialAnalysis (Fulfilled (InlineData mimeType data))
                      (Fulfilled response)) in
  len (chatHistory s') = 2 /\
  AnalyzePanel.renderMessages (chatHistory s')
  = [None; Some (AnalyzePanel.ModelBubble answer)] /\
  AnalyzePanel.renderEmptyState (isLoading s') (chatHistory s') = None.
Proof.
  intros Hdue Hb Ht Hn. cbv zeta.
  assert (Hdue' := Hdue). unfold initialAnalysisDue in Hdue'.
  apply andb_prop in Hdue'. destruct Hdue' as [Hdue' Hc].
  apply andb_prop in Hdue'. destruct Hdue' as [_ Hl].
  destruct (currentImage s) as [img |] eqn:Ec; [| discriminate Hc].
  assert (E : chatHistory (step s (InitialAnalysis (Fulfilled (InlineData mimeType data))
                                     (Fulfilled response)))
              = [ {| role := user;
                     parts := [InlineData mimeType data; Text initial_analysis_message] |};
                  {| role := model; parts := [Text answer] |} ]).
  { unfold step, dispatch, run; cbn [handler]. unfold triggerInitialAnalysis.
    rewrite Hdue. unfold handleSendMessage. rewrite Ec, Hl.
    exec_unfold. cbn. rewrite Hb, Ht, Hn. cbn.
    apply Z.eqb_eq in Hl. apply len_nil_iff in Hl. rewrite Hl. reflexivity. }
  rewrite E. split; [reflexivity |]. split.
  - unfold AnalyzePanel.renderMessages. cbn [AnalyzePanel.renderMessages_from].
    unfold AnalyzePanel.renderMessage. cbn [parts role].
    rewrite (getTextFromParts_text answer). reflexivity.
  - unfold AnalyzePanel.renderEmptyState.
    replace (len _ =? 0) with false by reflexivity.
    rewrite andb_false_r. reflexivity.
Qed.

Lemma automatic_prompt_is_not_rendered_witness :
  let s := withActiveTab analyze loaded in
  let s' := step s (InitialAnalysis (Fulfilled (InlineData "image/png" "iVBORw0KGgo="))
                      (Fulfilled {| promptFeedback := None;
                                    response_text := Some "A calm palette." |})) in
  AnalyzePanel.renderMessages (chatHistory s')
  = [None; Some (AnalyzePanel.ModelBubble "A calm palette.")].
Proof.
  intros s s'.
  destruct (automatic_prompt_is_not_rendered s "image/png" "iVBORw0KGgo=" "A calm palette."
              {| promptFeedback := None; response_text := Some "A calm palette." |}
              eq_refl eq_refl eq_refl eq_refl) as (_ & H & _).
  exact H.
Defined.
